(** * Trace Explorer ([app.py]): a shallow embedding and its checked properties

    The development follows the source file top to bottom: the Python values
    the program handles (text, numbers, decoded JSON), the decoder behind
    [json.loads], the CSV trace parser [parse_traces], the transcript
    renderer, the three Gemini-backed analysers, and the Flask handlers over
    the process-wide trace list and caches.  Exceptions are explicit results,
    the Gemini service is an oracle consulted through a call log, and the
    global state of the process is a record threaded through the handlers. *)

From Stdlib Require Import ZArith NArith List String Ascii Bool Lia.
From Stdlib Require Import Floats.SpecFloat.
From Stdlib Require Import Sorted.
From stdpp Require Import base option list gmap.

Local Open Scope Z_scope.

(** ** Python text

    A [str] is a sequence of Unicode code points. *)

Abbreviation pystr := (list N).

(** The text of an ASCII literal of the source. *)
Definition py (s : string) : pystr := N_of_ascii <$> list_ascii_of_string s.

Definition is_char (a : ascii) (c : N) : bool := N.eqb c (N_of_ascii a).

(** The double quote. *)
Definition quote : N := 34.
Definition is_quote (c : N) : bool := N.eqb c quote.

Definition newline : pystr := [10%N].

(** An ASCII literal in which each apostrophe stands for a double quote: the
    way JSON texts are written down in this file. *)
Definition js (s : string) : pystr :=
  (fun c => if is_char "'" c then quote else c) <$> py s.

Definition str_eqb (s t : pystr) : bool := bool_decide (s = t).

(** [s.startswith(p)]. *)
Fixpoint startswith (p s : pystr) : bool :=
  match p, s with
  | [], _ => true
  | a :: p', b :: s' => N.eqb a b && startswith p' s'
  | _ :: _, [] => false
  end.

(** [sub in s]. *)
Fixpoint contains (sub s : pystr) : bool :=
  startswith sub s || match s with [] => false | _ :: s' => contains sub s' end.

(** [s.split(sep)] for a non-empty separator: the pieces between the
    non-overlapping occurrences of [sep], found left to right.  [skip] counts
    the characters of a separator still to be passed over and [acc] holds the
    current piece, reversed. *)
Fixpoint split_go (sep : pystr) (skip : nat) (acc s : pystr) : list pystr :=
  match s with
  | [] => [reverse acc]
  | c :: s' =>
      match skip with
      | S k => split_go sep k acc s'
      | O =>
          if startswith sep s
          then reverse acc :: split_go sep (pred (length sep)) [] s'
          else split_go sep O (c :: acc) s'
      end
  end.

Definition split (sep s : pystr) : list pystr := split_go sep O [] s.

(** [sep.join(parts)]. *)
Fixpoint join (sep : pystr) (parts : list pystr) : pystr :=
  match parts with
  | [] => []
  | [p] => p
  | p :: rest => p ++ sep ++ join sep rest
  end.

(** [str.isspace] on one code point: the characters [str.strip()] removes. *)
Definition is_space (c : N) : bool :=
  ((9 <=? c) && (c <=? 13) || (28 <=? c) && (c <=? 32) || (c =? 133) || (c =? 160)
   || (c =? 5760) || (8192 <=? c) && (c <=? 8202) || (c =? 8232) || (c =? 8233)
   || (c =? 8239) || (c =? 8287) || (c =? 12288))%N.

Fixpoint lstrip (s : pystr) : pystr :=
  match s with
  | c :: s' => if is_space c then lstrip s' else s
  | [] => []
  end.

(** [s.strip()]. *)
Definition strip (s : pystr) : pystr := reverse (lstrip (reverse (lstrip s))).

(** Decimal rendering of a natural number, as [str(n)] and f-strings give it. *)
Fixpoint decimal_go (fuel : nat) (n : N) (acc : pystr) : pystr :=
  match fuel with
  | O => acc
  | S fuel' =>
      let acc' := (48 + n mod 10)%N :: acc in
      if (n <? 10)%N then acc' else decimal_go fuel' (n / 10)%N acc'
  end.

Definition decimal (n : nat) : pystr := decimal_go (S n) (N.of_nat n) [].

(** ** Exceptions *)

Inductive exn :=
  | JSONDecodeError | ValueError | KeyError | TypeError | AttributeError
  | IndexError | OverflowError | APIError.

Inductive res (A : Type) :=
  | Ok (a : A)
  | Raise (e : exn).
Arguments Ok {A} a.
Arguments Raise {A} e.

#[global] Instance res_ret : MRet res := fun _ a => Ok a.
#[global] Instance res_bind : MBind res := fun _ _ k r =>
  match r with Ok a => k a | Raise e => Raise e end.
#[global] Instance res_fmap : FMap res := fun _ _ f r =>
  match r with Ok a => Ok (f a) | Raise e => Raise e end.

(** [l[i]] for a list. *)
Definition index {A} (l : list A) (i : nat) : res A :=
  match l !! i with Some a => Ok a | None => Raise IndexError end.

(** ** Python numbers

    An [int] is unbounded; a [float] is an IEEE 754 binary64 value, taken
    from the standard library's executable specification of binary
    floating point. *)

Definition prec : Z := 53.
Definition emax : Z := 1024.
Definition float : Type := spec_float.

Definition float_zero : float := S754_zero false.

(** The binary64 nearest to [m * 10^e] (ties to even), for [m >= 0] with
    sign [neg]: what [float()] and the JSON decoder return for a decimal
    literal. *)
Definition float_of_decimal (neg : bool) (m e : Z) : float :=
  match m with
  | Zpos p =>
      if 0 <=? e then binary_round prec emax neg (Z.to_pos (m * 10 ^ e)) 0
      else
        let '(q, e', l) := SFdiv_core_binary prec emax m 0 (10 ^ (- e)) 0 in
        binary_round_aux prec emax neg q e' l
  | _ => S754_zero neg
  end.

(** [float(z)] for an int. *)
Definition float_of_Z (z : Z) : float := binary_normalize prec emax z 0 false.

Inductive num := NInt (z : Z) | NFloat (f : float).

(** The exact order between a float and an int (Python compares the two
    without rounding the int); [None] when the float is NaN. *)
Definition float_compare_Z (f : float) (z : Z) : option comparison :=
  match f with
  | S754_nan => None
  | S754_infinity s => Some (if s then Lt else Gt)
  | S754_zero _ => Some (0 ?= z)
  | S754_finite s m e =>
      let v := cond_Zopp s (Zpos m) in
      Some (if 0 <=? e then v * 2 ^ e ?= z else v ?= z * 2 ^ (- e))
  end.

Definition num_compare (a b : num) : option comparison :=
  match a, b with
  | NInt x, NInt y => Some (x ?= y)
  | NFloat f, NFloat g => SFcompare f g
  | NFloat f, NInt y => float_compare_Z f y
  | NInt x, NFloat g => CompOpp <$> float_compare_Z g x
  end.

Definition num_lt (a b : num) : bool :=
  match num_compare a b with Some Lt => true | _ => false end.

Definition num_ge (a b : num) : bool :=
  match num_compare a b with Some Gt | Some Eq => true | _ => false end.

Definition num_eq (a b : num) : bool :=
  match num_compare a b with Some Eq => true | _ => false end.

(** [float(z)] raises [OverflowError] beyond the binary64 range. *)
Definition float_of_int (z : Z) : res float :=
  match float_of_Z z with
  | S754_infinity _ => Raise OverflowError
  | f => Ok f
  end.

(** [a + b]. *)
Definition num_add (a b : num) : res num :=
  match a, b with
  | NInt x, NInt y => Ok (NInt (x + y))
  | NFloat f, NFloat g => Ok (NFloat (SFadd prec emax f g))
  | NFloat f, NInt y => g ← float_of_int y; Ok (NFloat (SFadd prec emax f g))
  | NInt x, NFloat g => f ← float_of_int x; Ok (NFloat (SFadd prec emax f g))
  end.

#[local] Set Warnings "-register-all".

(** ** Decoded JSON values

    What [json.loads] returns: [None], [bool], [int], [float], [str], [list]
    and [dict].  A dict keeps its keys in insertion order, each key once. *)

Inductive json :=
  | JNull
  | JBool (b : bool)
  | JInt (z : Z)
  | JFloat (f : float)
  | JStr (s : pystr)
  | JArr (items : list json)
  | JObj (fields : list (pystr * json)).

(** [bool] is a subclass of [int]: [True] counts as 1 and [False] as 0. *)
Definition as_num (v : json) : option num :=
  match v with
  | JBool b => Some (NInt (Z.b2z b))
  | JInt z => Some (NInt z)
  | JFloat f => Some (NFloat f)
  | _ => None
  end.

(** Truth value of an object, as [if v:], [v and ...], [v or ...] and
    [filter(None, ...)] test it. *)
Definition truthy (v : json) : bool :=
  match v with
  | JNull => false
  | JBool b => b
  | JInt z => negb (z =? 0)
  | JFloat (S754_zero _) => false
  | JFloat _ => true
  | JStr s => match s with [] => false | _ => true end
  | JArr l => match l with [] => false | _ => true end
  | JObj kv => match kv with [] => false | _ => true end
  end.

Fixpoint assoc (k : pystr) (fields : list (pystr * json)) : option json :=
  match fields with
  | [] => None
  | (k', v) :: rest => if str_eqb k k' then Some v else assoc k rest
  end.

(** [d[k] = v] on the items of a dict: an existing key keeps its place. *)
Fixpoint assoc_set (k : pystr) (v : json) (fields : list (pystr * json))
  : list (pystr * json) :=
  match fields with
  | [] => [(k, v)]
  | (k', v') :: rest =>
      if str_eqb k k' then (k, v) :: rest else (k', v') :: assoc_set k v rest
  end.

(** [d.get(k, default)]: only a dict has the method. *)
Definition get (d : json) (k : pystr) (dflt : json) : res json :=
  match d with
  | JObj fields => Ok (default dflt (assoc k fields))
  | _ => Raise AttributeError
  end.

(** [d[k]] for a [str] key. *)
Definition getitem (d : json) (k : pystr) : res json :=
  match d with
  | JObj fields =>
      match assoc k fields with Some v => Ok v | None => Raise KeyError end
  | _ => Raise TypeError
  end.

(** [d[k] = v] for a [str] key. *)
Definition setitem (d : json) (k : pystr) (v : json) : res json :=
  match d with
  | JObj fields => Ok (JObj (assoc_set k v fields))
  | _ => Raise TypeError
  end.

(** [isinstance(v, str)], [isinstance(v, list)], [isinstance(v, dict)]. *)
Definition is_str (v : json) : bool := match v with JStr _ => true | _ => false end.
Definition is_list (v : json) : bool := match v with JArr _ => true | _ => false end.
Definition is_dict (v : json) : bool := match v with JObj _ => true | _ => false end.

(** [v == 'literal']. *)
Definition eq_str (v : json) (s : pystr) : bool :=
  match v with JStr t => str_eqb t s | _ => false end.

(** Equality of two hashable values as a [set] or [dict] decides it: the same
    object, or equal under [==].  [1], [1.0] and [True] are one key.  The
    decoder returns one shared object for every [NaN], so a NaN is found
    again by identity although [nan == nan] is false. *)
Definition key_eq (a b : json) : bool :=
  match a, b with
  | JNull, JNull => true
  | JStr s, JStr t => str_eqb s t
  | JFloat S754_nan, JFloat S754_nan => true
  | _, _ =>
      match as_num a, as_num b with
      | Some x, Some y => num_eq x y
      | _, _ => false
      end
  end.

(** [hash(v)] succeeds on every decoded value but a list or a dict. *)
Definition hashable (v : json) : bool := negb (is_list v || is_dict v).

(** ** The JSON decoder ([json.loads])

    The decoder of CPython's [json] module with its default settings: the
    grammar of RFC 8259 extended with [NaN], [Infinity] and [-Infinity],
    control characters refused inside strings, the last of several equal keys
    kept.  A malformed document raises [JSONDecodeError]; an integer of more
    than 4300 digits raises [ValueError] (the interpreter's limit on
    int/str conversion).  The interpreter's recursion limit is not
    modelled: CPython raises [RecursionError] on a document whose arrays and
    objects nest deeper than the limit allows (1000 frames by default), and
    the model stands for the decoder on the documents that stay within it. *)

Definition is_json_ws (c : N) : bool :=
  ((c =? 32) || (c =? 9) || (c =? 10) || (c =? 13))%N.

Fixpoint skip_ws (s : pystr) : pystr :=
  match s with
  | c :: s' => if is_json_ws c then skip_ws s' else s
  | [] => []
  end.

Definition digit_value (c : N) : option Z :=
  if ((48 <=? c) && (c <=? 57))%N then Some (Z.of_N c - 48) else None.

(** The leading run of ASCII digits of [s], as digit values, and what follows. *)
Fixpoint span_digits (s : pystr) : list Z * pystr :=
  match s with
  | c :: s' =>
      match digit_value c with
      | Some d => let '(ds, r) := span_digits s' in (d :: ds, r)
      | None => ([], s)
      end
  | [] => ([], [])
  end.

Definition Z_of_digits (ds : list Z) : Z := fold_left (fun a d => 10 * a + d) ds 0.

Definition int_max_str_digits : nat := 4300.

(** The integer part of a JSON number: [0], or a non-zero digit and more digits. *)
Definition span_integer (s : pystr) : option (list Z * pystr) :=
  match s with
  | c :: s' =>
      match digit_value c with
      | Some 0 => Some ([0], s')
      | Some d => let '(ds, r) := span_digits s' in Some (d :: ds, r)
      | None => None
      end
  | [] => None
  end.

(** The optional fraction [.digits]. *)
Definition span_frac (s : pystr) : list Z * pystr :=
  match s with
  | c :: s' =>
      if is_char "." c then
        match span_digits s' with
        | ([], _) => ([], s)
        | (ds, r) => (ds, r)
        end
      else ([], s)
  | [] => ([], s)
  end.

(** The optional exponent [e], [e+] or [e-] and digits: its value, if present. *)
Definition span_exp (s : pystr) : option Z * pystr :=
  match s with
  | c :: s' =>
      if is_char "e" c || is_char "E" c then
        let '(neg, s'') :=
          match s' with
          | sg :: t => if is_char "-" sg then (true, t)
                       else if is_char "+" sg then (false, t) else (false, s')
          | [] => (false, s')
          end in
        match span_digits s'' with
        | ([], _) => (None, s)
        | (ds, r) => (Some (cond_Zopp neg (Z_of_digits ds)), r)
        end
      else (None, s)
  | [] => (None, s)
  end.

(** A number at the head of [s]: an [int] when it has neither fraction nor
    exponent, and a [float] otherwise. *)
Definition match_number (s : pystr) : option (res (json * pystr)) :=
  let '(neg, s1) :=
    match s with
    | c :: s' => if is_char "-" c then (true, s') else (false, s)
    | [] => (false, s)
    end in
  match span_integer s1 with
  | None => None
  | Some (ids, s2) =>
      let '(fds, s3) := span_frac s2 in
      let '(ex, s4) := span_exp s3 in
      match fds, ex with
      | [], None =>
          if (int_max_str_digits <? length ids)%nat then Some (Raise ValueError)
          else Some (Ok (JInt (cond_Zopp neg (Z_of_digits ids)), s4))
      | _, _ =>
          let e := default 0 ex - Z.of_nat (length fds) in
          Some (Ok (JFloat (float_of_decimal neg (Z_of_digits (ids ++ fds)) e), s4))
      end
  end.

Definition hex_value (c : N) : option N :=
  (if (48 <=? c) && (c <=? 57) then Some (c - 48)
   else if (65 <=? c) && (c <=? 70) then Some (c - 55)
   else if (97 <=? c) && (c <=? 102) then Some (c - 87)
   else None)%N.

Definition hex4 (a b c d : N) : option N :=
  a' ← hex_value a; b' ← hex_value b; c' ← hex_value c; d' ← hex_value d;
  Some (((a' * 16 + b') * 16 + c') * 16 + d')%N.

(** One element of a string literal: a character (written as itself or
    through a one-letter escape), or the value of a [\uXXXX] escape. *)
Inductive strunit := Raw (c : N) | Esc (u : N).

Definition simple_escape (e : N) : option N :=
  if is_quote e then Some 34%N
  else if is_char "\" e then Some 92%N
  else if is_char "/" e then Some 47%N
  else if is_char "b" e then Some 8%N
  else if is_char "f" e then Some 12%N
  else if is_char "n" e then Some 10%N
  else if is_char "r" e then Some 13%N
  else if is_char "t" e then Some 9%N
  else None.

(** The body of a string literal after its opening quote, up to the closing
    quote, and the text after it. *)
Fixpoint scan_units (s : pystr) : option (list strunit * pystr) :=
  match s with
  | [] => None
  | c :: s' =>
      if is_quote c then Some ([], s')
      else if is_char "\" c then
        match s' with
        | [] => None
        | e :: s'' =>
            if is_char "u" e then
              match s'' with
              | a :: b :: c' :: d :: s3 =>
                  u ← hex4 a b c' d;
                  '(us, r) ← scan_units s3;
                  Some (Esc u :: us, r)
              | _ => None
              end
            else
              x ← simple_escape e;
              '(us, r) ← scan_units s'';
              Some (Raw x :: us, r)
        end
      else if (c <? 32)%N then None
      else '(us, r) ← scan_units s'; Some (Raw c :: us, r)
  end.

Definition is_high_surrogate (u : N) : bool := ((55296 <=? u) && (u <=? 56319))%N.
Definition is_low_surrogate (u : N) : bool := ((56320 <=? u) && (u <=? 57343))%N.

(** A high-surrogate escape directly followed by a low-surrogate escape is
    one code point; every other element stands for itself. *)
Fixpoint join_surrogates (us : list strunit) : pystr :=
  match us with
  | [] => []
  | Raw c :: rest => c :: join_surrogates rest
  | Esc h :: rest =>
      match rest with
      | Esc l :: rest' =>
          if is_high_surrogate h && is_low_surrogate l
          then (65536 + (h - 55296) * 1024 + (l - 56320))%N :: join_surrogates rest'
          else h :: join_surrogates rest
      | _ => h :: join_surrogates rest
      end
  end.

Definition scanstring (s : pystr) : option (pystr * pystr) :=
  '(us, r) ← scan_units s; Some (join_surrogates us, r).

Definition decode_error {A} : res A := Raise JSONDecodeError.

(** One value at the head of [s] and the text after it.  [parse_array] and
    [parse_object] start at an element, respectively at a key, with the items
    read so far in [acc]. *)
Fixpoint scan_once (fuel : nat) (s : pystr) : res (json * pystr) :=
  match fuel with
  | O => decode_error
  | S fuel' =>
      match s with
      | [] => decode_error
      | c :: s' =>
          if is_quote c then
            match scanstring s' with
            | Some (t, r) => Ok (JStr t, r)
            | None => decode_error
            end
          else if is_char "{" c then
            match skip_ws s' with
            | c1 :: s2 =>
                if is_char "}" c1 then Ok (JObj [], s2)
                else parse_object fuel' [] (c1 :: s2)
            | [] => decode_error
            end
          else if is_char "[" c then
            match skip_ws s' with
            | c1 :: s2 =>
                if is_char "]" c1 then Ok (JArr [], s2)
                else parse_array fuel' [] (c1 :: s2)
            | [] => decode_error
            end
          else if startswith (py "null") s then Ok (JNull, drop 4 s)
          else if startswith (py "true") s then Ok (JBool true, drop 4 s)
          else if startswith (py "false") s then Ok (JBool false, drop 5 s)
          else
            match match_number s with
            | Some r => r
            | None =>
                if startswith (py "NaN") s then Ok (JFloat S754_nan, drop 3 s)
                else if startswith (py "Infinity") s
                then Ok (JFloat (S754_infinity false), drop 8 s)
                else if startswith (py "-Infinity") s
                then Ok (JFloat (S754_infinity true), drop 9 s)
                else decode_error
            end
      end
  end
with parse_array (fuel : nat) (acc : list json) (s : pystr) : res (json * pystr) :=
  match fuel with
  | O => decode_error
  | S fuel' =>
      '(v, r) ← scan_once fuel' s;
      match skip_ws r with
      | c :: r' =>
          if is_char "]" c then Ok (JArr (reverse (v :: acc)), r')
          else if is_char "," c then parse_array fuel' (v :: acc) (skip_ws r')
          else decode_error
      | [] => decode_error
      end
  end
with parse_object (fuel : nat) (acc : list (pystr * json)) (s : pystr)
  : res (json * pystr) :=
  match fuel with
  | O => decode_error
  | S fuel' =>
      match s with
      | c :: s' =>
          if is_quote c then
            match scanstring s' with
            | None => decode_error
            | Some (k, r) =>
                match skip_ws r with
                | c2 :: r2 =>
                    if is_char ":" c2 then
                      '(v, r3) ← scan_once fuel' (skip_ws r2);
                      let acc' := assoc_set k v acc in
                      match skip_ws r3 with
                      | c4 :: r4 =>
                          if is_char "}" c4 then Ok (JObj acc', r4)
                          else if is_char "," c4
                          then parse_object fuel' acc' (skip_ws r4)
                          else decode_error
                      | [] => decode_error
                      end
                    else decode_error
                | [] => decode_error
                end
            end
          else decode_error
      | [] => decode_error
      end
  end.

(** [json.loads(s)]: one value, white space allowed around it and nothing
    else.  Every recursive call of the scanner is preceded by the reading of
    a character, two of them along any nesting, so twice the length of the
    text is fuel enough. *)
Definition json_loads (s : pystr) : res json :=
  '(v, r) ← scan_once (S (2 * length s)) (skip_ws s);
  match skip_ws r with
  | [] => Ok v
  | _ => decode_error
  end.

(** ** [int()] and [float()] of text

    Both first map the text to ASCII: a non-ASCII white space becomes a
    space and a non-ASCII decimal digit its ASCII digit; any other non-ASCII
    character makes the conversion fail.  Which code points are decimal
    digits is a table of the interpreter's Unicode database: it is the
    parameter [unicode_decimal] of everything that reads a number. *)

Definition is_c_space (c : N) : bool := (((9 <=? c) && (c <=? 13)) || (c =? 32))%N.

Fixpoint lstrip_c (s : pystr) : pystr :=
  match s with
  | c :: s' => if is_c_space c then lstrip_c s' else s
  | [] => []
  end.

Definition strip_c (s : pystr) : pystr := reverse (lstrip_c (reverse (lstrip_c s))).

(** An optional sign. *)
Definition take_sign (s : pystr) : bool * pystr :=
  match s with
  | c :: s' =>
      if is_char "-" c then (true, s')
      else if is_char "+" c then (false, s') else (false, s)
  | [] => (false, s)
  end.

(** Digits with single underscores between them ([1_000]); [after] tells
    whether the previous character was a digit. *)
Fixpoint span_grouped (after : bool) (s : pystr) : list Z * pystr :=
  match s with
  | c :: s' =>
      match digit_value c with
      | Some d => let '(ds, r) := span_grouped true s' in (d :: ds, r)
      | None =>
          if after && is_char "_" c
             && match s' with
                | c2 :: _ => bool_decide (is_Some (digit_value c2))
                | [] => false
                end
          then span_grouped false s'
          else ([], s)
      end
  | [] => ([], [])
  end.

(** [float()] accepts an underscore only between two digits and ignores it;
    [None] when one is misplaced. *)
Fixpoint drop_underscores (prev : N) (s : pystr) : option pystr :=
  match s with
  | [] => if is_char "_" prev then None else Some []
  | c :: s' =>
      if is_char "_" c then
        if bool_decide (is_Some (digit_value prev)) then drop_underscores c s' else None
      else if is_char "_" prev && negb (bool_decide (is_Some (digit_value c))) then None
      else (c ::.) <$> drop_underscores c s'
  end.

Definition lower (c : N) : N := (if (65 <=? c) && (c <=? 90) then c + 32 else c)%N.

(** The unsigned part of a float literal, underscores removed: [inf],
    [infinity] or [nan] in any case, or digits with an optional point and an
    optional exponent, at least one digit before the exponent. *)
Definition float_of_unsigned (neg : bool) (s : pystr) : option float :=
  let l := lower <$> s in
  if str_eqb l (py "inf") || str_eqb l (py "infinity") then Some (S754_infinity neg)
  else if str_eqb l (py "nan") then Some S754_nan
  else
    let '(ids, s1) := span_digits s in
    let '(fds, s2) :=
      match s1 with
      | c :: s' => if is_char "." c then span_digits s' else ([], s1)
      | [] => ([], s1)
      end in
    match ids ++ fds with
    | [] => None
    | ds =>
        let '(ex, s3) := span_exp s2 in
        match s3 with
        | [] => Some (float_of_decimal neg (Z_of_digits ds)
                        (default 0 ex - Z.of_nat (length fds)))
        | _ => None
        end
    end.

Section Numbers.
Variable unicode_decimal : N -> option Z.

Definition to_ascii (c : N) : option N :=
  if (c <? 128)%N then Some c
  else if is_space c then Some 32%N
  else (fun d => (48 + Z.to_N d)%N) <$> unicode_decimal c.

(** [int(s)] for a [str]. *)
Definition int_of_str (s : pystr) : res Z :=
  match mapM to_ascii s with
  | None => Raise ValueError
  | Some a =>
      let '(neg, body) := take_sign (strip_c a) in
      match span_grouped false body with
      | (d :: ds, []) =>
          if (int_max_str_digits <? length (d :: ds))%nat then Raise ValueError
          else Ok (cond_Zopp neg (Z_of_digits (d :: ds)))
      | _ => Raise ValueError
      end
  end.

(** [float(s)] for a [str]. *)
Definition float_of_str (s : pystr) : res float :=
  match mapM to_ascii s with
  | None => Raise ValueError
  | Some a =>
      match drop_underscores 0%N (strip_c a) with
      | None => Raise ValueError
      | Some b =>
          let '(neg, body) := take_sign b in
          match float_of_unsigned neg body with
          | Some f => Ok f
          | None => Raise ValueError
          end
      end
  end.
End Numbers.

(** A table with no decimal digit beyond ASCII, for concrete runs on ASCII
    text. *)
Definition ascii_digits_only : N -> option Z := fun _ => None.

(** ** Traces *)

(** One turn of a conversation: the dict [{'role': ..., 'content': ...}]. *)
Record turn := Turn { role : json; content : json }.

(** One trace: the dict [parse_traces] builds per CSV row.  A text field is
    [None] when the row was too short to reach its column. *)
Module Trace.
Record t := Make {
  id : option pystr;
  timestamp : option pystr;
  name : option pystr;
  session_id : option pystr;
  user_id : option pystr;
  conversation : list turn;
  latency : float;
  input_tokens : Z;
  output_tokens : Z;
  total_cost : float;
  error_count : Z;
  scores : gmap pystr json;
  analysis : gmap pystr json
}.

(** [trace['scores'][category] = v]. *)
Definition set_score (category : pystr) (v : json) (x : t) : t :=
  Make (id x) (timestamp x) (name x) (session_id x) (user_id x) (conversation x)
       (latency x) (input_tokens x) (output_tokens x) (total_cost x)
       (error_count x) (<[category := v]> (scores x)) (analysis x).

(** [trace['analysis'][category] = v]. *)
Definition set_analysis (category : pystr) (v : json) (x : t) : t :=
  Make (id x) (timestamp x) (name x) (session_id x) (user_id x) (conversation x)
       (latency x) (input_tokens x) (output_tokens x) (total_cost x)
       (error_count x) (scores x) (<[category := v]> (analysis x)).
End Trace.

Abbreviation trace := Trace.t.

(** ** The trace parser ([parse_traces]) *)

(** A row of [csv.DictReader]: a dict from the column names of the header to
    the row's fields, [None] for a column the row is too short to reach. *)
Abbreviation row := (gmap pystr (option pystr)).

(** [row.get(k, '')]. *)
Definition row_get (r : row) (k : pystr) : option pystr := default (Some []) (r !! k).

(** The text selected by [row.get(k, d) or d]: the field when it is a
    non-empty text, and otherwise nothing (the default applies). *)
Definition row_text (r : row) (k : pystr) : option pystr :=
  match r !! k with
  | Some (Some (c :: s)) => Some (c :: s)
  | _ => None
  end.

(** [for x in v]: the items of a list, the characters of a text, the keys of
    a dict; nothing else can be iterated. *)
Definition iterate (v : json) : res (list json) :=
  match v with
  | JArr l => Ok l
  | JStr s => Ok ((fun c => JStr [c]) <$> s)
  | JObj kv => Ok ((fun p => JStr p.1) <$> kv)
  | _ => Raise TypeError
  end.

(** The loop over the input messages (lines 271-277): a message with a
    non-empty text content becomes a turn. *)
Fixpoint input_turns (msgs : list json) (conv : list turn) : res (list turn) :=
  match msgs with
  | [] => Ok conv
  | msg :: rest =>
      c ← get msg (py "content") (JStr []);
      if truthy c && is_str c then
        r ← get msg (py "type") (JStr (py "human"));
        input_turns rest (conv ++ [Turn r c])
      else input_turns rest conv
  end.

(** [[p.get('text', '') for p in content
      if isinstance(p, dict) and p.get('type') == 'text']] (line 285). *)
Fixpoint text_parts (parts : list json) : res (list json) :=
  match parts with
  | [] => Ok []
  | p :: rest =>
      keep ← (if is_dict p then ty ← get p (py "type") JNull; Ok (eq_str ty (py "text"))
              else Ok false);
      if keep : bool then
        x ← get p (py "text") (JStr []);
        xs ← text_parts rest;
        Ok (x :: xs)
      else text_parts rest
  end.

(** The items of a list as texts, as [sep.join(items)] demands them. *)
Fixpoint all_str (items : list json) : res (list pystr) :=
  match items with
  | [] => Ok []
  | JStr s :: rest => ss ← all_str rest; Ok (s :: ss)
  | _ :: _ => Raise TypeError
  end.

(** [sep.join(items)] on decoded values. *)
Definition join_values (sep : pystr) (items : list json) : res pystr :=
  ss ← all_str items; Ok (join sep ss).

(** [x in seen] for a set: [x] is hashed first. *)
Definition set_mem (x : json) (seen : list json) : res bool :=
  if hashable x then Ok (existsb (key_eq x) seen) else Raise TypeError.

(** The content of an output message, a list of parts flattened to the text
    parts joined by newlines (lines 282-286). *)
Definition output_content (msg : json) : res json :=
  c ← get msg (py "content") (JStr []);
  match c with
  | JArr parts =>
      ps ← text_parts parts;
      s ← join_values newline ps;
      Ok (JStr s)
  | _ => Ok c
  end.

(** The loop over the output messages (lines 281-293), [seen] being the set
    [seen_contents]. *)
Fixpoint output_turns (msgs : list json) (seen : list json) (conv : list turn)
  : res (list turn) :=
  match msgs with
  | [] => Ok conv
  | msg :: rest =>
      c ← output_content msg;
      fresh ← (if truthy c then negb <$> set_mem c seen else Ok false);
      if fresh : bool then
        r ← get msg (py "type") (JStr (py "ai"));
        output_turns rest (seen ++ [c]) (conv ++ [Turn r c])
      else output_turns rest seen conv
  end.

(** The conversation built from the decoded [input] and [output] columns
    (lines 264-293). *)
Definition conversation_of (input_data output_data : json) : res (list turn) :=
  input_messages ← get input_data (py "messages") (JArr []);
  output_messages ← get output_data (py "messages") (JArr []);
  ims ← iterate input_messages;
  conv ← input_turns ims [];
  oms ← iterate output_messages;
  output_turns oms (content <$> conv) conv.

(** The decoding of a JSON column: [json.loads(row.get(k, '{}') or '{}')]. *)
Definition row_json (r : row) (k : pystr) : res json :=
  json_loads (default (py "{}") (row_text r k)).

(** The conversation of a row (lines 260-293). *)
Definition row_conversation (r : row) : res (list turn) :=
  input_data ← row_json r (py "input");
  output_data ← row_json r (py "output");
  conversation_of input_data output_data.

(** What becomes of one row: a stored trace, nothing (its conversation is
    empty), or nothing after an exception the handler caught. *)
Inductive row_outcome :=
  | Loaded (t : trace)
  | Empty
  | Skipped (e : exn).

Section Parser.
Variable unicode_decimal : N -> option Z.

(** [float(row.get(k, 0) or 0)]. *)
Definition float_field (r : row) (k : pystr) : res float :=
  match row_text r k with
  | Some s => float_of_str unicode_decimal s
  | None => Ok float_zero
  end.

(** [int(row.get(k, 0) or 0)]. *)
Definition int_field (r : row) (k : pystr) : res Z :=
  match row_text r k with
  | Some s => int_of_str unicode_decimal s
  | None => Ok 0
  end.

(** The body of the [try] block for one row: the trace, or nothing when
    its conversation is empty. *)
Definition row_trace (r : row) : res (option trace) :=
  conv ← row_conversation r;
  lat ← float_field r (py "latency");
  itok ← int_field r (py "inputTokens");
  otok ← int_field r (py "outputTokens");
  cost ← float_field r (py "totalCost");
  errs ← int_field r (py "errorCount");
  let t := Trace.Make (row_get r (py "id")) (row_get r (py "timestamp"))
             (row_get r (py "name")) (row_get r (py "sessionId"))
             (row_get r (py "userId")) conv lat itok otok cost errs ∅ ∅ in
  Ok (match conv with [] => None | _ => Some t end).

(** [except (json.JSONDecodeError, KeyError, ValueError)]. *)
Definition parser_catches (e : exn) : bool :=
  match e with
  | JSONDecodeError | KeyError | ValueError => true
  | _ => false
  end.

(** One pass of the loop body: an exception the handler does not catch
    leaves the loop and the function. *)
Definition parse_row (r : row) : res row_outcome :=
  match row_trace r with
  | Ok (Some t) => Ok (Loaded t)
  | Ok None => Ok Empty
  | Raise e => if parser_catches e then Ok (Skipped e) else Raise e
  end.

(** [parse_traces], on the rows the reader yields. *)
Fixpoint parse_traces (rows : list row) : res (list trace) :=
  match rows with
  | [] => Ok []
  | r :: rest =>
      o ← parse_row r;
      ts ← parse_traces rest;
      Ok (match o with Loaded t => t :: ts | _ => ts end)
  end.
End Parser.

(** ** Comparing decoded values *)

(** [a is b or a == b] on decoded values, the test containers apply to
    their elements ([key_eq] on hashable values, lists item by item, dicts key
    by key). *)
Fixpoint same (a b : json) : bool :=
  match a, b with
  | JArr l, JArr m =>
      (fix all2 (l m : list json) : bool :=
         match l, m with
         | [], [] => true
         | x :: l', y :: m' => same x y && all2 l' m'
         | _, _ => false
         end) l m
  | JObj kv, JObj kv' =>
      Nat.eqb (length kv) (length kv')
      && (fix all1 (kv : list (pystr * json)) : bool :=
            match kv with
            | [] => true
            | (k, v) :: rest =>
                match assoc k kv' with
                | Some v' => same v v' && all1 rest
                | None => false
                end
            end) kv
  | _, _ => key_eq a b
  end.

(** Lexicographic order of two texts by code point. *)
Fixpoint str_lt (s t : pystr) : bool :=
  match s, t with
  | _, [] => false
  | [], _ :: _ => true
  | a :: s', b :: t' => (a <? b)%N || ((a =? b)%N && str_lt s' t')
  end.

(** [a < b]: numbers among themselves, texts among themselves, lists item
    by item; any other pair raises [TypeError]. *)
Fixpoint py_lt (a b : json) : res bool :=
  match a, b with
  | JStr s, JStr t => Ok (str_lt s t)
  | JArr l, JArr m =>
      (fix lex (l m : list json) : res bool :=
         match l, m with
         | _, [] => Ok false
         | [], _ :: _ => Ok true
         | x :: l', y :: m' => if same x y then lex l' m' else py_lt x y
         end) l m
  | _, _ =>
      match as_num a, as_num b with
      | Some x, Some y => Ok (num_lt x y)
      | _, _ => Raise TypeError
      end
  end.

(** [a >= b] for a number [b]. *)
Definition py_ge_num (a : json) (b : Z) : res bool :=
  match as_num a with
  | Some x => Ok (num_ge x (NInt b))
  | None => Raise TypeError
  end.

Definition json_of_num (x : num) : json :=
  match x with NInt z => JInt z | NFloat f => JFloat f end.

(** [a + b] for an int [b]; only numbers are ever added here. *)
Definition py_add_int (a : json) (b : Z) : res json :=
  match as_num a with
  | Some x => json_of_num <$> num_add x (NInt b)
  | None => Raise TypeError
  end.

(** [min(a, v)] for an int [a]: [v] when [v < a], and [a] otherwise. *)
Definition py_min_int (a : Z) (v : json) : res json :=
  lt ← py_lt v (JInt a); Ok (if lt : bool then v else JInt a).

(** [l.sort(key=key, reverse=True)].  Python's sort is stable, also in
    reverse: with keys that [<] orders totally, which is the case for
    numbers other than NaN and for texts, every stable sort returns the list
    computed here, by insertion from the right.  When two keys cannot be
    compared Python raises [TypeError] and so does the model; with NaN among
    the keys the order Python returns is left to its algorithm and the model
    makes no claim. *)
Fixpoint insert_desc {A} (key : A -> json) (x : A) (l : list A) : res (list A) :=
  match l with
  | [] => Ok [x]
  | y :: l' =>
      lt ← py_lt (key x) (key y);
      if lt : bool then (y ::.) <$> insert_desc key x l' else Ok (x :: l)
  end.

Fixpoint sort_desc {A} (key : A -> json) (l : list A) : res (list A) :=
  match l with
  | [] => Ok []
  | x :: l' => s ← sort_desc key l'; insert_desc key x s
  end.

(** ** The Gemini service

    A call to [client.models.generate_content] is a request to an oracle.
    The request records which prompt template is sent and the texts
    interpolated into it; the fixed wording of the templates is left out.
    The oracle's answer may depend on the request and on how many calls were
    made before it, so any behaviour of the service is an oracle.  The calls
    made so far are kept in a log. *)

Inductive request :=
  | Score (category traces_text : pystr)
  | Classify (conv_text : pystr)
  | Search (topic region program : pystr)
  | Translate (messages : list json).

(** The web source of a grounding chunk. *)
Record web := Web { uri : option pystr; title : option pystr }.

(** The outcome of a call: an exception, or a response with its [text]
    ([None] when the response carries no text) and the grounding chunks of
    its first candidate, each with its [web] source if it has one (no chunk
    at all when there is no candidate or no grounding metadata). *)
Inductive reply :=
  | Fails
  | Response (text : option pystr) (chunks : list (option web)).

(** Computations that call the service: a result or an exception, and the log. *)
Definition io (A : Type) : Type := list request -> res A * list request.

#[global] Instance io_ret : MRet io := fun _ a w => (Ok a, w).
#[global] Instance io_bind : MBind io := fun _ _ k m w =>
  match m w with
  | (Ok a, w') => k a w'
  | (Raise e, w') => (Raise e, w')
  end.

(** A computation that makes no call. *)
Definition pure {A} (r : res A) : io A := fun w => (r, w).

(** [try: m except Exception: h]. *)
Definition try_except {A} (m : io A) (h : exn -> io A) : io A := fun w =>
  match m w with
  | (Ok a, w') => (Ok a, w')
  | (Raise e, w') => h e w'
  end.

Definition fence : pystr := py "```".
Definition fence_json : pystr := py "```json".

(** The cleaning of a response text (lines 105-108, 199-202, 380-383, 576-579). *)
Definition clean_response (result_text : pystr) : res pystr :=
  if contains fence_json result_text then
    a ← index (split fence_json result_text) 1; index (split fence a) 0
  else if contains fence result_text then
    a ← index (split fence result_text) 1; index (split fence a) 0
  else Ok result_text.

(** The cleaning, then [json.loads(result_text.strip())].  A response without
    text has [None] for text, on which the test [in] raises. *)
Definition parse_response (text : option pystr) : res json :=
  match text with
  | None => Raise TypeError
  | Some result_text => c ← clean_response result_text; json_loads (strip c)
  end.

(** ** Interest categories *)

Definition wri_connections : pystr := py "wri_connections".

(** The keys of [INTEREST_CATEGORIES] with their display names. *)
Definition INTEREST_CATEGORIES : list (pystr * pystr) :=
  [ (py "showcase", py "Showcase");
    (py "product_features", py "Product Features");
    (py "research_areas", py "Research Areas");
    (py "dataset_priorities", py "Dataset Priorities");
    (wri_connections, py "WRI Programs") ].

(** [category in INTEREST_CATEGORIES]. *)
Definition is_category (c : pystr) : bool :=
  existsb (fun p => str_eqb c p.1) INTEREST_CATEGORIES.

(** The value of an optional text: [None] or a [str]. *)
Definition json_of_text (o : option pystr) : json :=
  match o with Some s => JStr s | None => JNull end.

Section Analysis.
(** [str(v)], as an f-string renders a value. *)
Variable py_str : json -> pystr.
(** The service. *)
Variable gemini : nat -> request -> reply.

(** [client.models.generate_content(...)]. *)
Definition generate_content (rq : request) : io (option pystr * list (option web)) :=
  fun w =>
    match gemini (length w) rq with
    | Fails => (Raise APIError, w ++ [rq])
    | Response text chunks => (Ok (text, chunks), w ++ [rq])
    end.

(** *** [get_conversation_text] *)

(** [msg['content'][:2000]], then rendered by the f-string.  Stored
    contents are texts, numbers or [True]; a number cannot be sliced. *)
Definition truncated (c : json) : res pystr :=
  match c with
  | JStr s => Ok (take 2000 s)
  | JArr l => Ok (py_str (JArr (take 2000 l)))
  | _ => Raise TypeError
  end.

Definition role_label (r : json) : pystr :=
  if eq_str r (py "human") || eq_str r (py "user") then py "User" else py "Assistant".

Fixpoint conversation_lines (conv : list turn) : res (list pystr) :=
  match conv with
  | [] => Ok []
  | msg :: rest =>
      c ← truncated (content msg);
      ls ← conversation_lines rest;
      Ok ((role_label (role msg) ++ py ": " ++ c) :: ls)
  end.

Definition get_conversation_text (t : trace) : res pystr :=
  ls ← conversation_lines (Trace.conversation t);
  Ok (join (newline ++ newline) ls).

(** *** [analyze_trace_batch] *)

(** The text listing the traces of a batch (lines 336-339); [i] is the
    index of the first trace. *)
Fixpoint traces_text (i : nat) (traces : list trace) : res pystr :=
  match traces with
  | [] => Ok []
  | t :: rest =>
      conv_text ← get_conversation_text t;
      more ← traces_text (S i) rest;
      Ok (newline ++ py "--- TRACE " ++ decimal (S i) ++ py " (ID: "
          ++ default (py "None") (Trace.id t) ++ py ") ---" ++ newline
          ++ conv_text ++ newline ++ more)
  end.

Definition analyze_trace_batch (traces : list trace) (category_key : pystr) : io json :=
  _ ← pure (if is_category category_key then Ok () else Raise KeyError);
  text ← pure (traces_text 0 traces);
  try_except
    ('(result_text, _) ← generate_content (Score category_key text);
     result ← pure (parse_response result_text);
     pure (get result (py "analyses") (JArr [])))
    (fun _ => mret (JArr [])).

(** *** [search_wri_evidence] *)

Definition no_evidence : json :=
  JObj [ (py "found", JBool false); (py "url", JNull); (py "title", JNull);
         (py "source", JNull); (py "summary", JNull) ].

(** The first chunk that has a web source. *)
Definition first_web (chunks : list (option web)) : option web :=
  mjoin (head (filter is_Some chunks)).

(** The grounding metadata overrides what the answer says (lines 113-127). *)
Definition ground (result : json) (chunks : list (option web)) : res json :=
  match first_web chunks with
  | None => Ok result
  | Some wb =>
      r1 ← setitem result (py "url") (json_of_text (uri wb));
      r2 ← setitem r1 (py "found") (JBool true);
      setitem r2 (py "title") (json_of_text (title wb))
  end.

Definition default_programs : pystr :=
  py "AFR100, Initiative 20x20, Forest Legality Initiative, Restoration programs".

Definition search_wri_evidence (topic : pystr) (region program : json) : io json :=
  try_except
    ('(result_text, chunks) ←
       generate_content
         (Search topic (py_str region)
                 (if truthy program then py_str program else default_programs));
     result ← pure (parse_response result_text);
     pure (ground result chunks))
    (fun _ => mret no_evidence).

(** *** [analyze_wri_connections_batch] *)

(** One entry of the result list. *)
Definition entry (trace_id : option pystr) (score reason : json) : json :=
  JObj [ (py "trace_id", json_of_text trace_id); (py "score", score);
         (py "reason", reason) ].

(** Lines 216-222: the parts of the search query. *)
Definition search_parts (topic region program partner_type : json) : list json :=
  [topic; region]
  ++ (if truthy program then [program] else [])
  ++ (if truthy partner_type
      then [JStr (py "WRI " ++ py_str partner_type ++ py " partnership")]
      else []).

(** Lines 226-232: what verified evidence changes, the reason and the score. *)
Definition apply_evidence (analysis evidence reason : json) : res (json * json) :=
  found ← get evidence (py "found") JNull;
  both ← (if truthy found then get evidence (py "url") JNull else Ok found);
  if truthy both then
    url ← getitem evidence (py "url");
    source ← get evidence (py "source") (JStr []);
    let source_text :=
      if truthy source then py " (" ++ py_str source ++ py ")" else [] in
    story ← get analysis (py "story") (JStr []);
    score ← get analysis (py "score") (JInt 0);
    sum ← py_add_int score 5;
    boosted ← py_min_int 100 sum;
    analysis' ← setitem analysis (py "score") boosted;
    Ok (analysis', JStr (py_str story ++ py " See: " ++ py_str url ++ source_text))
  else Ok (analysis, reason).

(** Lines 206-232, after the classification was decoded. *)
Definition verify (analysis : json) : io (json * json) :=
  reason ← pure (get analysis (py "story")
                     (JStr (py "No specific WRI connection identified.")));
  score ← pure (get analysis (py "score") (JInt 0));
  high ← pure (py_ge_num score 50);
  conn ← (if high : bool then pure (get analysis (py "has_connection") JNull)
          else mret (JBool false));
  if truthy conn then
    topic ← pure (get analysis (py "topic") (JStr []));
    region ← pure (get analysis (py "region") (JStr []));
    program ← pure (get analysis (py "wri_program") (JStr []));
    partner_type ← pure (get analysis (py "partner_type") (JStr []));
    search_query ← pure (join_values (py " ")
                           (filter (fun v => truthy v = true)
                                   (search_parts topic region program partner_type)));
    match search_query with
    | [] => mret (analysis, reason)
    | _ =>
        evidence ← search_wri_evidence search_query
                     (if truthy region then region else JStr (py "global")) program;
        pure (apply_evidence analysis evidence reason)
    end
  else mret (analysis, reason).

(** The body of the loop for one trace (lines 140-246). *)
Definition analyze_wri_trace (t : trace) : io json :=
  conv_text ← pure (get_conversation_text t);
  try_except
    ('(result_text, _) ← generate_content (Classify conv_text);
     analysis ← pure (parse_response result_text);
     '(analysis', reason) ← verify analysis;
     score ← pure (get analysis' (py "score") (JInt 0));
     mret (entry (Trace.id t) score reason))
    (fun _ => mret (entry (Trace.id t) (JInt 0) (JStr (py "Analysis error")))).

Fixpoint analyze_wri_connections_batch (traces : list trace) : io (list json) :=
  match traces with
  | [] => mret []
  | t :: rest =>
      r ← analyze_wri_trace t;
      rs ← analyze_wri_connections_batch rest;
      mret (r :: rs)
  end.
End Analysis.

(** ** The application state and the Flask handlers *)

(** The dict [analysis_cache], from category keys to [True]: its items in
    insertion order, each key once, since [list(analysis_cache.keys())] shows
    that order.  [d[k] = v] on a key the dict holds replaces the value and
    keeps the key's place; on any other key it adds the item at the end. *)
Record flags := Flags { items : list (pystr * bool) }.

Fixpoint items_get (k : pystr) (l : list (pystr * bool)) : option bool :=
  match l with
  | [] => None
  | (k', v) :: rest => if str_eqb k' k then Some v else items_get k rest
  end.

Fixpoint items_set (k : pystr) (v : bool) (l : list (pystr * bool))
  : list (pystr * bool) :=
  match l with
  | [] => [(k, v)]
  | (k', v') :: rest =>
      if str_eqb k' k then (k', v) :: rest else (k', v') :: items_set k v rest
  end.

#[global] Instance flags_empty : base.Empty flags := Flags [].
#[global] Instance flags_lookup : Lookup pystr bool flags :=
  fun k d => items_get k (items d).
#[global] Instance flags_insert : Insert pystr bool flags :=
  fun k v d => Flags (items_set k v (items d)).

(** [list(d.keys())]. *)
Definition keys (d : flags) : list pystr := (items d).*1.

(** The three globals: [traces_data], [analysis_cache], [translation_cache]. *)
Record app := App {
  traces_data : list trace;
  analysis_cache : flags;
  translation_cache : gmap pystr json
}.

Inductive failure :=
  | InvalidCategory
  | TraceNotFound
  | TranslationFailed (e : exn).

(** What a handler answers.  [Rejected] is a JSON body with an [error] field
    and the given status; [Crashed] is an exception no handler caught, which
    Flask turns into its own 500 page. *)
Inductive response :=
  | TraceList (traces : list trace) (total filtered : nat)
  | TraceDetail (t : trace)
  | Analyzed (analyzed : nat) (category : pystr)
  | Status (analyzed categories : list pystr)
  | TopTraces (category category_name : pystr) (traces : list trace)
  | Translated (result : json)
  | Rejected (status : nat) (why : failure)
  | Crashed (e : exn).

(** [category in t['scores']]. *)
Definition has_score (category : pystr) (t : trace) : bool :=
  bool_decide (is_Some (Trace.scores t !! category)).

(** [x['scores'].get(category, 0)]. *)
Definition score_of (category : pystr) (t : trace) : json :=
  default (JInt 0) (Trace.scores t !! category).

(** [l[:n]]: a negative bound counts from the end. *)
Definition slice_to {A} (n : Z) (l : list A) : list A :=
  if 0 <=? n then take (Z.to_nat n) l
  else take (length l - Z.to_nat (- n)) l.

(** [GET /api/traces]: [category] and [limit] are the query arguments,
    [None] when absent ([limit] also when it is not an integer). *)
Definition get_traces (category : option pystr) (limit : option Z) (st : app)
  : response :=
  let result := traces_data st in
  let sorted :=
    match category with
    | Some (c :: cs) =>
        if is_category (c :: cs)
        then sort_desc (score_of (c :: cs)) (filter (fun t => has_score (c :: cs) t = true) result)
        else Ok result
    | _ => Ok result
    end in
  match sorted with
  | Raise e => Crashed e
  | Ok result =>
      let result :=
        match limit with
        | Some n => if n =? 0 then result else slice_to n result
        | None => result
        end in
      TraceList result (length (traces_data st)) (length result)
  end.

(** The first trace with the given id (the loops at lines 444-446 and 528-531). *)
Definition find_trace (trace_id : pystr) (st : app) : option trace :=
  head (filter (fun t => Trace.id t = Some trace_id) (traces_data st)).

(** [GET /api/trace/<trace_id>]. *)
Definition get_trace (trace_id : pystr) (st : app) : response :=
  match find_trace trace_id st with
  | Some t => TraceDetail t
  | None => Rejected 404 TraceNotFound
  end.

(** [GET /api/analysis-status]. *)
Definition analysis_status (st : app) : response :=
  Status (keys (analysis_cache st)) (INTEREST_CATEGORIES.*1).

(** [GET /api/top-traces/<category>]. *)
Definition get_top_traces (category : pystr) (st : app) : response :=
  match assoc category ((fun p => (p.1, JStr p.2)) <$> INTEREST_CATEGORIES) with
  | Some (JStr category_name) =>
      match sort_desc (score_of category)
                      (filter (fun t => has_score category t = true) (traces_data st)) with
      | Ok scored => TopTraces category category_name (take 10 scored)
      | Raise e => Crashed e
      end
  | _ => Rejected 400 InvalidCategory
  end.

(** *** The merge of the results into the traces (lines 472-478) *)

(** A dict with decoded values as keys: the items in insertion order.  An
    insertion under a key equal to a present one replaces its value. *)
Abbreviation pydict := (list (json * json)).

Fixpoint dict_get (k : json) (d : pydict) : option json :=
  match d with
  | [] => None
  | (k', v) :: rest => if key_eq k' k then Some v else dict_get k rest
  end.

Fixpoint dict_set (k v : json) (d : pydict) : pydict :=
  match d with
  | [] => [(k, v)]
  | (k', v') :: rest =>
      if key_eq k' k then (k', v) :: rest else (k', v') :: dict_set k v rest
  end.

(** [{a['trace_id']: a for a in all_analyses}], started from [d]. *)
Fixpoint analysis_map_from (d : pydict) (all_analyses : list json) : res pydict :=
  match all_analyses with
  | [] => Ok d
  | a :: rest =>
      k ← getitem a (py "trace_id");
      if hashable k then analysis_map_from (dict_set k a d) rest
      else Raise TypeError
  end.

Definition analysis_map_of (all_analyses : list json) : res pydict :=
  analysis_map_from [] all_analyses.

(** The loop over [traces_data]: the traces as the loop leaves them, and the
    exception that ended it, if one did.  The traces are updated in place, so
    what was written before an exception stays written. *)
Fixpoint merge_loop (category : pystr) (analysis_map : pydict) (traces : list trace)
  : list trace * option exn :=
  match traces with
  | [] => ([], None)
  | t :: rest =>
      match dict_get (json_of_text (Trace.id t)) analysis_map with
      | None =>
          let '(rest', e) := merge_loop category analysis_map rest in (t :: rest', e)
      | Some analysis =>
          match getitem analysis (py "score") with
          | Raise e => (t :: rest, Some e)
          | Ok score =>
              let t1 := Trace.set_score category score t in
              match getitem analysis (py "reason") with
              | Raise e => (t1 :: rest, Some e)
              | Ok reason =>
                  let t2 := Trace.set_analysis category reason t1 in
                  let '(rest', e) := merge_loop category analysis_map rest in
                  (t2 :: rest', e)
              end
          end
      end
  end.

(** [traces_data[i:i+5] for i in range(0, len(traces_data), 5)]. *)
Definition batch_size : nat := 5.

Definition batches (traces : list trace) : list (list trace) :=
  (fun k => take batch_size (drop (batch_size * k) traces))
    <$> seq 0 ((length traces + (batch_size - 1)) / batch_size)%nat.

Section Handlers.
Variable py_str : json -> pystr.
Variable gemini : nat -> request -> reply.

(** The analyses of one batch, as the items [extend] appends. *)
Definition analyze_batch (category : pystr) (batch : list trace) : io (list json) :=
  if str_eqb category wri_connections
  then analyze_wri_connections_batch py_str gemini batch
  else
    analyses ← analyze_trace_batch py_str gemini batch category;
    pure (iterate analyses).

(** The loop over the batches (lines 463-470). *)
Fixpoint collect_analyses (category : pystr) (bs : list (list trace))
                          (all_analyses : list json) : io (list json) :=
  match bs with
  | [] => mret all_analyses
  | batch :: rest =>
      analyses ← analyze_batch category batch;
      collect_analyses category rest (all_analyses ++ analyses)
  end.

(** [POST /api/analyze] with the decoded body [data]. *)
Definition analyze_traces (data : json) (st : app) (w : list request)
  : response * app * list request :=
  match get data (py "category") JNull with
  | Raise e => (Crashed e, st, w)
  | Ok category =>
      if negb (truthy category) then (Rejected 400 InvalidCategory, st, w)
      else if negb (hashable category) then (Crashed TypeError, st, w)
      else
        match category with
        | JStr c =>
            if is_category c then
              match collect_analyses c (batches (traces_data st)) [] w with
              | (Raise e, w') => (Crashed e, st, w')
              | (Ok all_analyses, w') =>
                  match analysis_map_of all_analyses with
                  | Raise e => (Crashed e, st, w')
                  | Ok analysis_map =>
                      match merge_loop c analysis_map (traces_data st) with
                      | (traces, Some e) =>
                          (Crashed e,
                           App traces (analysis_cache st) (translation_cache st), w')
                      | (traces, None) =>
                          (Analyzed (length all_analyses) c,
                           App traces (<[c := true]> (analysis_cache st))
                               (translation_cache st), w')
                      end
                  end
              end
            else (Rejected 400 InvalidCategory, st, w)
        | _ => (Rejected 400 InvalidCategory, st, w)
        end
  end.

(** [messages_to_translate] (lines 537-543), from index [i] on. *)
Fixpoint messages_to_translate (i : nat) (conv : list turn) : list json :=
  match conv with
  | [] => []
  | msg :: rest =>
      JObj [ (py "index", JInt (Z.of_nat i)); (py "role", role msg);
             (py "content", content msg) ]
      :: messages_to_translate (S i) rest
  end.

(** [GET /api/translate/<trace_id>]. *)
Definition translate_trace (trace_id : pystr) (st : app) (w : list request)
  : response * app * list request :=
  match translation_cache st !! trace_id with
  | Some cached => (Translated cached, st, w)
  | None =>
      match find_trace trace_id st with
      | None => (Rejected 404 TraceNotFound, st, w)
      | Some t =>
          let attempt : io json :=
            '(result_text, _) ←
               generate_content gemini
                 (Translate (messages_to_translate 0 (Trace.conversation t)));
            pure (parse_response result_text) in
          match attempt w with
          | (Ok result, w') =>
              (Translated result,
               App (traces_data st) (analysis_cache st)
                   (<[trace_id := result]> (translation_cache st)), w')
          | (Raise e, w') => (Rejected 500 (TranslationFailed e), st, w')
          end
      end
  end.

(** A request to the application. *)
Inductive api_call :=
  | GetTraces (category : option pystr) (limit : option Z)
  | GetTrace (trace_id : pystr)
  | Analyze (data : json)
  | GetStatus
  | GetTopTraces (category : pystr)
  | GetTranslation (trace_id : pystr).

Definition handle (c : api_call) (st : app) (w : list request)
  : response * app * list request :=
  match c with
  | GetTraces category limit => (get_traces category limit st, st, w)
  | GetTrace trace_id => (get_trace trace_id st, st, w)
  | Analyze data => analyze_traces data st w
  | GetStatus => (analysis_status st, st, w)
  | GetTopTraces category => (get_top_traces category st, st, w)
  | GetTranslation trace_id => translate_trace trace_id st w
  end.

(** The state and the log after a sequence of requests. *)
Fixpoint serve (cs : list api_call) (st : app) (w : list request)
  : app * list request :=
  match cs with
  | [] => (st, w)
  | c :: rest => let '(_, st', w') := handle c st w in serve rest st' w'
  end.
End Handlers.

(** * Properties *)

#[local] Set Warnings "-clear-no-such-hyp".

(** ** Results *)

Lemma bind_Ok {A B} (r : res A) (k : A -> res B) a : r = Ok a -> (r ≫= k) = k a.
Proof. intros ->. reflexivity. Qed.

Lemma bind_Raise {A B} (r : res A) (k : A -> res B) e : r = Raise e -> (r ≫= k) = Raise e.
Proof. intros ->. reflexivity. Qed.




Definition hi_hello : list turn :=
  [Turn (JStr (py "human")) (JStr (py "hi")); Turn (JStr (py "ai")) (JStr (py "hello"))].



Lemma input_turns_skip msg rest conv c :
  get msg (py "content") (JStr []) = Ok c -> truthy c && is_str c = false ->
  input_turns (msg :: rest) conv = input_turns rest conv.
Proof. intros Hc Hs. cbn [input_turns]. rewrite Hc. cbn [mbind res_bind]. rewrite Hs. reflexivity. Qed.




Lemma key_eq_text_l s x : key_eq (JStr s) x = true <-> x = JStr s.
Proof.
  unfold key_eq, str_eqb. destruct x as [|b|z|[]|t|l|kv]; cbn;
    try (split; discriminate).
  rewrite bool_decide_eq_true. split; congruence.
Qed.

Lemma key_eq_text_r s x : key_eq x (JStr s) = true <-> x = JStr s.
Proof.
  unfold key_eq, str_eqb. destruct x as [|b|z|[]|t|l|kv]; cbn;
    try (split; discriminate).
  rewrite bool_decide_eq_true. split; congruence.
Qed.



(** *** Numeric columns *)

Definition raises {A} (x : res A) : Prop := exists e, x = Raise e.

Lemma float_of_str_error (ud : N -> option Z) s e : float_of_str ud s = Raise e -> e = ValueError.
Proof.
  unfold float_of_str. repeat case_match; congruence.
Qed.

Lemma int_of_str_error (ud : N -> option Z) s e : int_of_str ud s = Raise e -> e = ValueError.
Proof.
  unfold int_of_str. repeat case_match; congruence.
Qed.

Lemma float_field_error (ud : N -> option Z) (r : row) k e : float_field ud r k = Raise e -> e = ValueError.
Proof. unfold float_field. case_match; [apply float_of_str_error | discriminate]. Qed.

Lemma int_field_error (ud : N -> option Z) (r : row) k e : int_field ud r k = Raise e -> e = ValueError.
Proof. unfold int_field. case_match; [apply int_of_str_error | discriminate]. Qed.

Definition blank (r : row) (k : pystr) : Prop :=
  r !! k = None \/ r !! k = Some None \/ r !! k = Some (Some []).

Lemma row_text_blank (r : row) k : blank r k -> row_text r k = None.
Proof. unfold row_text. intros [-> | [-> | ->]]; reflexivity. Qed.

(** The trace of a row whose conversation is [conv] and whose numeric
    columns read as given. *)
Definition trace_of (r : row) (conv : list turn) (lat : float) (itok otok : Z)
                    (cost : float) (errs : Z) : trace :=
  Trace.Make (row_get r (py "id")) (row_get r (py "timestamp"))
             (row_get r (py "name")) (row_get r (py "sessionId"))
             (row_get r (py "userId")) conv lat itok otok cost errs ∅ ∅.

Lemma row_trace_loaded (ud : N -> option Z) (r : row) conv lat itok otok cost errs :
  row_conversation r = Ok conv ->
  float_field ud r (py "latency") = Ok lat ->
  int_field ud r (py "inputTokens") = Ok itok ->
  int_field ud r (py "outputTokens") = Ok otok ->
  float_field ud r (py "totalCost") = Ok cost ->
  int_field ud r (py "errorCount") = Ok errs ->
  row_trace ud r
  = Ok (match conv with [] => None | _ => Some (trace_of r conv lat itok otok cost errs) end).
Proof.
  intros Hc H1 H2 H3 H4 H5. unfold row_trace.
  rewrite Hc, H1, H2, H3, H4, H5. reflexivity.
Qed.

Lemma row_trace_value_error (ud : N -> option Z) (r : row) conv :
  row_conversation r = Ok conv ->
  raises (float_field ud r (py "latency"))
  \/ raises (int_field ud r (py "inputTokens"))
  \/ raises (int_field ud r (py "outputTokens"))
  \/ raises (float_field ud r (py "totalCost"))
  \/ raises (int_field ud r (py "errorCount")) ->
  row_trace ud r = Raise ValueError.
Proof.
  intros Hc H. unfold row_trace. rewrite Hc. cbn [mbind res_bind].
  destruct (float_field ud r (py "latency")) as [lat|e] eqn:E1;
    [| by rewrite (float_field_error _ _ _ _ E1)].
  destruct (int_field ud r (py "inputTokens")) as [itok|e] eqn:E2;
    [| by rewrite (int_field_error _ _ _ _ E2)].
  destruct (int_field ud r (py "outputTokens")) as [otok|e] eqn:E3;
    [| by rewrite (int_field_error _ _ _ _ E3)].
  destruct (float_field ud r (py "totalCost")) as [cost|e] eqn:E4;
    [| by rewrite (float_field_error _ _ _ _ E4)].
  destruct (int_field ud r (py "errorCount")) as [errs|e] eqn:E5;
    [| by rewrite (int_field_error _ _ _ _ E5)].
  destruct H as [[e H]|[[e H]|[[e H]|[[e H]|[e H]]]]]; congruence.
Qed.

Lemma parse_traces_skipped (ud : N -> option Z) (r : row) rest e :
  parse_row ud r = Ok (Skipped e) -> parse_traces ud (r :: rest) = parse_traces ud rest.
Proof.
  intros H. cbn [parse_traces]. rewrite H. cbn [mbind res_bind].
  destruct (parse_traces ud rest); reflexivity.
Qed.

Lemma parse_traces_loaded (ud : N -> option Z) (r : row) rest t :
  parse_row ud r = Ok (Loaded t) ->
  parse_traces ud (r :: rest) = (t ::.) <$> parse_traces ud rest.
Proof.
  intros H. cbn [parse_traces]. rewrite H. cbn [mbind res_bind].
  destruct (parse_traces ud rest); reflexivity.
Qed.

Lemma parse_row_loaded (ud : N -> option Z) (r : row) t :
  parse_row ud r = Ok (Loaded t) -> row_conversation r = Ok (Trace.conversation t).
Proof.
  unfold parse_row, row_trace.
  destruct (row_conversation r) as [conv|]; cbn [mbind res_bind];
    [|intros; by case_match].
  destruct (float_field ud r (py "latency")); cbn [mbind res_bind];
    [|intros; by case_match].
  destruct (int_field ud r (py "inputTokens")); cbn [mbind res_bind];
    [|intros; by case_match].
  destruct (int_field ud r (py "outputTokens")); cbn [mbind res_bind];
    [|intros; by case_match].
  destruct (float_field ud r (py "totalCost")); cbn [mbind res_bind];
    [|intros; by case_match].
  destruct (int_field ud r (py "errorCount")); cbn [mbind res_bind];
    [|intros; by case_match].
  destruct conv; [done|]. intros [= <-]. reflexivity.
Qed.

(** *** Sample rows *)

Definition sample_row : row :=
  <[py "id" := Some (py "t1")]>
    (<[py "input" := Some (js "{'messages':[{'type':'human','content':'hi'}]}")]>
       (<[py "output" :=
            Some (js "{'messages':[{'type':'ai','content':'hi'},{'type':'ai','content':'hello'}]}")]>
          ∅)).

(** *** Contents made of parts *)

(** [isinstance(p, dict) and p.get('type') == 'text']. *)
Definition is_text_part (p : json) : bool :=
  match p with
  | JObj fields => eq_str (default JNull (assoc (py "type") fields)) (py "text")
  | _ => false
  end.

Lemma text_parts_texts parts texts :
  Forall2 (fun p s => get p (py "text") (JStr []) = Ok (JStr s))
          (filter (fun p => is_text_part p = true) parts) texts ->
  text_parts parts = Ok (JStr <$> texts).
Proof.
  revert texts. induction parts as [|p parts IH]; intros texts H.
  - apply Forall2_nil_inv_l in H as ->. done.
  - rewrite filter_cons in H. cbn [text_parts].
    destruct p as [| | | | | |fields]; cbn [is_dict mbind res_bind];
      try (rewrite decide_False in H by done; by apply IH).
    cbn [get mbind res_bind]. cbn [is_text_part] in H.
    destruct (eq_str (default JNull (assoc (py "type") fields)) (py "text")) eqn:E.
    + rewrite decide_True in H by done.
      apply Forall2_cons_inv_l in H as (s & texts' & Hs & Hrest & ->).
      cbn [get] in Hs. injection Hs as Hs. rewrite Hs.
      by rewrite (IH _ Hrest).
    + rewrite decide_False in H by done. by apply IH.
Qed.

Lemma all_str_texts (texts : list pystr) : all_str (JStr <$> texts) = Ok texts.
Proof.
  induction texts as [|s texts IH]; [done|]. cbn [fmap list_fmap all_str].
  change (list_fmap pystr json JStr texts) with (JStr <$> texts). by rewrite IH.
Qed.








(** *** Numeric columns that do not read *)

Definition unparsable_row : row := <[py "latency" := Some (py "abc")]> sample_row.

(** Claim C2, as stated, fails: a non-empty text that is not a number does
    not read as zero; [float] raises [ValueError], the handler catches it and
    the row is not loaded. *)
Lemma C2_unparsable_field_drops_row :
  row_conversation unparsable_row = Ok hi_hello
  /\ float_field ascii_digits_only unparsable_row (py "latency") = Raise ValueError
  /\ parse_row ascii_digits_only unparsable_row = Ok (Skipped ValueError)
  /\ parse_traces ascii_digits_only [unparsable_row] = Ok [].
Proof. vm_compute. repeat split. Qed.

(** Claim C2, amended.  For a row with a non-empty conversation: a numeric
    column that is absent, [None] or empty reads as [0.0] (for [latency] and
    [total_cost], floats) or [0] (for the token and error counts, ints); when
    the five columns read, the row is loaded with the values read; when one
    of them does not read, the row is skipped with [ValueError] and the rows
    after it are parsed as if it were not there. *)
Theorem C2_numeric_fields (ud : N -> option Z) (r : row) conv :
  row_conversation r = Ok conv -> conv <> [] ->
  (forall k, blank r k ->
     float_field ud r k = Ok float_zero /\ int_field ud r k = Ok 0)
  /\ (forall lat itok otok cost errs,
        float_field ud r (py "latency") = Ok lat ->
        int_field ud r (py "inputTokens") = Ok itok ->
        int_field ud r (py "outputTokens") = Ok otok ->
        float_field ud r (py "totalCost") = Ok cost ->
        int_field ud r (py "errorCount") = Ok errs ->
        parse_row ud r = Ok (Loaded (trace_of r conv lat itok otok cost errs)))
  /\ (raises (float_field ud r (py "latency"))
      \/ raises (int_field ud r (py "inputTokens"))
      \/ raises (int_field ud r (py "outputTokens"))
      \/ raises (float_field ud r (py "totalCost"))
      \/ raises (int_field ud r (py "errorCount")) ->
      parse_row ud r = Ok (Skipped ValueError)
      /\ forall rest, parse_traces ud (r :: rest) = parse_traces ud rest).
Proof.
  intros Hc Hne. split; [|split].
  - intros k Hk. unfold float_field, int_field.
    by rewrite (row_text_blank _ _ Hk).
  - intros lat itok otok cost errs F1 F2 F3 F4 F5. unfold parse_row.
    rewrite (row_trace_loaded _ _ _ _ _ _ _ _ Hc F1 F2 F3 F4 F5).
    by destruct conv.
  - intros H.
    assert (Hs : parse_row ud r = Ok (Skipped ValueError)).
    { unfold parse_row. by rewrite (row_trace_value_error _ _ _ Hc H). }
    split; [exact Hs|]. intros rest. by eapply parse_traces_skipped.
Qed.

Lemma C2_witness :
  (forall k, blank sample_row k ->
     float_field ascii_digits_only sample_row k = Ok float_zero
     /\ int_field ascii_digits_only sample_row k = Ok 0)
  /\ parse_row ascii_digits_only sample_row
     = Ok (Loaded (trace_of sample_row hi_hello float_zero 0 0 float_zero 0)).
Proof.
  edestruct (C2_numeric_fields ascii_digits_only sample_row hi_hello) as (Hz & Hl & _).
  - vm_compute. reflexivity.
  - discriminate.
  - split; [exact Hz|]. apply Hl; vm_compute; reflexivity.
Defined.

(** ** The decoder: fuel *)

Ltac fuel_step f g IH1 IH2 IH3 :=
  match goal with
  | H : context [scan_once f ?s] |- _ =>
      let E := fresh "E" in
      destruct (scan_once f s) as [[? ?]|] eqn:E; [apply IH1 in E; rewrite E | discriminate H]
  | H : context [parse_array f ?a ?s] |- _ =>
      let E := fresh "E" in
      destruct (parse_array f a s) as [[? ?]|] eqn:E; [apply IH2 in E; rewrite E | discriminate H]
  | H : context [parse_object f ?a ?s] |- _ =>
      let E := fresh "E" in
      destruct (parse_object f a s) as [[? ?]|] eqn:E; [apply IH3 in E; rewrite E | discriminate H]
  end.

Lemma fuel_succ f :
  (forall s v, scan_once f s = Ok v -> scan_once (S f) s = Ok v)
  /\ (forall acc s v, parse_array f acc s = Ok v -> parse_array (S f) acc s = Ok v)
  /\ (forall acc s v, parse_object f acc s = Ok v -> parse_object (S f) acc s = Ok v).
Proof.
  induction f as [|f (IH1 & IH2 & IH3)]; [repeat split; intros; discriminate|].
  repeat split.
  - intros s v H. set (g := S f). fold g in IH1, IH2, IH3.
    cbn [scan_once] in H. cbn [scan_once].
    unfold decode_error in *.
    repeat (first [ done | progress cbn [mbind res_bind] in * | fuel_step f g IH1 IH2 IH3
                  | case_match; simplify_eq ]).
  - intros acc s v H. set (g := S f). fold g in IH1, IH2, IH3.
    cbn [parse_array mbind res_bind] in H. cbn [parse_array mbind res_bind].
    unfold decode_error in *.
    repeat (first [ done | progress cbn [mbind res_bind] in * | fuel_step f g IH1 IH2 IH3
                  | case_match; simplify_eq ]).
  - intros acc s v H. set (g := S f). fold g in IH1, IH2, IH3.
    cbn [parse_object mbind res_bind] in H. cbn [parse_object mbind res_bind].
    unfold decode_error in *.
    repeat (first [ done | progress cbn [mbind res_bind] in * | fuel_step f g IH1 IH2 IH3
                  | case_match; simplify_eq ]).
Qed.

Lemma fuel_mono f g s v : (f <= g)%nat -> scan_once f s = Ok v -> scan_once g s = Ok v.
Proof.
  induction 1 as [|g _ IH]; [done|]. intros H. by apply fuel_succ, IH.
Qed.

(** A text without quote, backslash or control character. *)
Definition plain (s : pystr) : Prop :=
  Forall (fun c => is_quote c = false /\ is_char "\" c = false /\ (c <? 32)%N = false) s.

Lemma scan_units_plain s rest :
  plain s -> scan_units (s ++ quote :: rest) = Some (Raw <$> s, rest).
Proof.
  induction 1 as [|c s (Hq & Hb & Hc) _ IH]; [reflexivity|].
  cbn [scan_units Datatypes.app]. rewrite Hq, Hb, Hc, IH. reflexivity.
Qed.

Lemma join_surrogates_raw s : join_surrogates (Raw <$> s) = s.
Proof. induction s as [|c s IH]; [reflexivity|]. cbn. by rewrite IH. Qed.

Lemma scanstring_plain s rest :
  plain s -> scanstring (s ++ quote :: rest) = Some (s, rest).
Proof.
  intros H. unfold scanstring. rewrite (scan_units_plain _ _ H). cbn.
  by rewrite join_surrogates_raw.
Qed.


(** Steps of the scanner on a well-formed text. *)

Lemma scan_string f s rest :
  plain s -> scan_once (S f) (quote :: s ++ quote :: rest) = Ok (JStr s, rest).
Proof. intros H. cbn [scan_once]. change (is_quote quote) with true. cbv iota. by rewrite (scanstring_plain _ _ H). Qed.

Lemma scan_object_open f rest :
  scan_once (S f) (123%N :: quote :: rest) = parse_object f [] (quote :: rest).
Proof. reflexivity. Qed.

Lemma scan_array_open f rest :
  scan_once (S f) (91%N :: 123%N :: rest) = parse_array f [] (123%N :: rest).
Proof. reflexivity. Qed.

Lemma parse_array_last f acc s v rest :
  scan_once f s = Ok (v, 93%N :: rest) ->
  parse_array (S f) acc s = Ok (JArr (reverse (v :: acc)), rest).
Proof. intros H. cbn [parse_array]. rewrite H. reflexivity. Qed.

Lemma parse_object_more f acc k c r v rest :
  plain k -> is_json_ws c = false ->
  scan_once f (c :: r) = Ok (v, 44%N :: quote :: rest) ->
  parse_object (S f) acc (quote :: k ++ quote :: 58%N :: c :: r)
  = parse_object f (assoc_set k v acc) (quote :: rest).
Proof.
  intros Hk Hc H. cbn [parse_object]. change (is_quote quote) with true. cbv iota.
  rewrite (scanstring_plain _ _ Hk). cbn [skip_ws].
  change (is_json_ws 58) with false. cbv iota. change (is_char ":" 58%N) with true. cbv iota.
  cbn [skip_ws]. rewrite Hc, H. reflexivity.
Qed.

Lemma parse_object_last f acc k c r v rest :
  plain k -> is_json_ws c = false ->
  scan_once f (c :: r) = Ok (v, 125%N :: rest) ->
  parse_object (S f) acc (quote :: k ++ quote :: 58%N :: c :: r)
  = Ok (JObj (assoc_set k v acc), rest).
Proof.
  intros Hk Hc H. cbn [parse_object]. change (is_quote quote) with true. cbv iota.
  rewrite (scanstring_plain _ _ Hk). cbn [skip_ws].
  change (is_json_ws 58) with false. cbv iota. change (is_char ":" 58%N) with true. cbv iota.
  cbn [skip_ws]. rewrite Hc, H. reflexivity.
Qed.

Lemma plain_literal s :
  forallb (fun c => negb (is_quote c) && negb (is_char "\" c) && negb (c <? 32)%N) s = true ->
  plain s.
Proof.
  rewrite forallb_forall. intros H. apply Forall_forall. intros c Hc.
  apply list_elem_of_In, H in Hc.
  destruct (is_quote c), (is_char "\" c), (c <? 32)%N; done.
Qed.

(** The text of an [input] column with one message of type [ty]. *)
Definition typed_input (ty : pystr) : pystr :=
  js "{'messages':[{'type':'" ++ ty ++ js "','content':'x'}]}".

Definition typed_data (ty : json) : json :=
  JObj [(py "messages", JArr [JObj [(py "type", ty); (py "content", JStr (py "x"))]])].

Lemma typed_input_loads ty :
  plain ty -> json_loads (typed_input ty) = Ok (typed_data (JStr ty)).
Proof.
  intros Hp. unfold json_loads.
  assert (H : scan_once 8 (skip_ws (typed_input ty)) = Ok (typed_data (JStr ty), [])).
  { change (skip_ws (typed_input ty)) with
      (123%N :: quote :: py "messages" ++ quote :: 58%N :: 91%N :: 123%N :: quote ::
         py "type" ++ quote :: 58%N :: quote :: ty ++ quote :: 44%N :: quote ::
         py "content" ++ quote :: 58%N :: quote :: py "x" ++ quote :: 125%N :: 93%N :: [125%N]).
    pose (inner := JObj [(py "type", JStr ty); (py "content", JStr (py "x"))]).
    assert (Hin : scan_once 4
              (123%N :: quote :: py "type" ++ quote :: 58%N :: quote :: ty ++ quote ::
                 44%N :: quote :: py "content" ++ quote :: 58%N :: quote ::
                 py "x" ++ quote :: 125%N :: 93%N :: [125%N])
              = Ok (inner, 93%N :: [125%N])).
    { rewrite scan_object_open.
      erewrite (parse_object_more _ _ (py "type"));
        [| by apply plain_literal | reflexivity | by apply scan_string].
      erewrite (parse_object_last _ _ (py "content"));
        [reflexivity | by apply plain_literal | reflexivity |].
      apply scan_string. by apply plain_literal. }
    rewrite scan_object_open.
    rewrite (parse_object_last _ _ (py "messages") _ _ (JArr [inner]) []);
      [reflexivity | by apply plain_literal | reflexivity |].
    rewrite scan_array_open. by rewrite (parse_array_last _ [] _ _ _ Hin). }
  assert (Hl : (8 <= S (2 * length (typed_input ty)))%nat).
  { unfold typed_input. rewrite length_app.
    change (length (js "{'messages':[{'type':'")) with 22%nat. lia. }
  rewrite (fuel_mono 8 _ _ _ Hl H). reflexivity.
Qed.

Lemma typed_row_conversation (ty : pystr) :
  plain ty ->
  row_conversation {[ py "input" := Some (typed_input ty) ]}
  = Ok [Turn (JStr ty) (JStr (py "x"))].
Proof.
  intros Hp. unfold row_conversation, row_json.
  assert (Hi : row_text {[ py "input" := Some (typed_input ty) ]} (py "input")
               = Some (typed_input ty)).
  { unfold row_text. rewrite lookup_singleton_eq. reflexivity. }
  assert (Ho : row_text {[ py "input" := Some (typed_input ty) ]} (py "output") = None).
  { unfold row_text. by rewrite lookup_singleton_ne. }
  rewrite Hi, Ho.
  change (default (py "{}") (Some (typed_input ty))) with (typed_input ty).
  rewrite (typed_input_loads _ Hp). reflexivity.
Qed.

(** ** Roles *)

Definition text_length (v : json) : nat :=
  match v with JStr s => length s | _ => O end.

Lemma plain_letters n : plain (replicate n 97%N).
Proof. apply Forall_replicate. done. Qed.

(** The row with one input message of type [ty] and no other column. *)
Definition typed_row (ty : pystr) : row := {[ py "input" := Some (typed_input ty) ]}.

Lemma typed_row_loaded (ty : pystr) :
  plain ty ->
  parse_traces ascii_digits_only [typed_row ty]
  = Ok [trace_of (typed_row ty) [Turn (JStr ty) (JStr (py "x"))] float_zero 0 0 float_zero 0].
Proof.
  intros Hp.
  assert (Hb : forall k, k <> py "input" -> row_text (typed_row ty) k = None).
  { intros k Hk. unfold row_text, typed_row. by rewrite lookup_singleton_ne. }
  assert (Hf : forall k, k <> py "input" ->
             float_field ascii_digits_only (typed_row ty) k = Ok float_zero).
  { intros k Hk. unfold float_field. by rewrite Hb. }
  assert (Hz : forall k, k <> py "input" ->
             int_field ascii_digits_only (typed_row ty) k = Ok 0).
  { intros k Hk. unfold int_field. by rewrite Hb. }
  pose proof (typed_row_conversation _ Hp) as Hc. fold (typed_row ty) in Hc.
  erewrite parse_traces_loaded; [reflexivity|]. unfold parse_row.
  by rewrite (row_trace_loaded _ _ _ _ _ _ _ _ Hc
                (Hf (py "latency") ltac:(done)) (Hz (py "inputTokens") ltac:(done))
                (Hz (py "outputTokens") ltac:(done)) (Hf (py "totalCost") ltac:(done))
                (Hz (py "errorCount") ltac:(done))).
Qed.

(** The roles of the turns of the traces loaded from [rows] all lie in [roles]. *)
Definition roles_within (roles : list json) : Prop :=
  forall rows traces, parse_traces ascii_digits_only rows = Ok traces ->
    Forall (fun t => Forall (fun m => role m ∈ roles) (Trace.conversation t)) traces.

(** Claim C9, as stated, fails: no finite set holds the roles of all stored
    turns.  The type of a message is stored as it is, so for any candidate
    set there is a row whose message type, and hence stored role, lies
    outside it. *)
Lemma C9_roles_not_in_a_closed_set : ~ exists roles : list json, roles_within roles.
Proof.
  intros [roles H].
  pose (n := S (max_list (text_length <$> roles))).
  specialize (H _ _ (typed_row_loaded (replicate n 97%N) (plain_letters n))).
  apply Forall_cons_1 in H as [H _]. cbn in H. apply Forall_cons_1 in H as [H _].
  cbn in H.
  assert (Hle : (text_length (JStr (replicate n 97%N)) <= max_list (text_length <$> roles))%nat).
  { apply max_list_elem_of_le, list_elem_of_fmap. eauto. }
  cbn in Hle. rewrite length_replicate in Hle. lia.
Qed.

(** The messages of a decoded column: [for msg in data.get('messages', [])]. *)
Definition messages_of (data : json) : res (list json) :=
  ms ← get data (py "messages") (JArr []); iterate ms.

(** The turn [t] is the one built from the message [msg]: its role is
    [msg.get('type', dflt)] and its content the content read from [msg]. *)
Definition built_from (dflt : pystr) (content_of : json -> res json)
                      (t : turn) (msg : json) : Prop :=
  get msg (py "type") (JStr dflt) = Ok (role t) /\ content_of msg = Ok (content t).

(** [msg.get('content', '')]. *)
Definition input_content (msg : json) : res json := get msg (py "content") (JStr []).

Lemma input_turns_built msgs conv0 conv :
  input_turns msgs conv0 = Ok conv ->
  exists kept extra, conv = conv0 ++ extra /\ sublist kept msgs
    /\ Forall2 (built_from (py "human") input_content) extra kept.
Proof.
  revert conv0. induction msgs as [|msg rest IH]; intros conv0 H.
  - injection H as <-. exists [], []. by rewrite app_nil_r.
  - cbn [input_turns] in H.
    destruct (get msg (py "content") (JStr [])) as [c|] eqn:Ec; [|done].
    cbn [mbind res_bind] in H.
    destruct (truthy c && is_str c).
    + destruct (get msg (py "type") (JStr (py "human"))) as [r|] eqn:Er; [|done].
      cbn [mbind res_bind] in H. apply IH in H as (kept & extra & -> & Hk & Hx).
      exists (msg :: kept), (Turn r c :: extra). rewrite <- app_assoc.
      split; [done|]. split; [by constructor|]. by constructor.
    + apply IH in H as (kept & extra & -> & Hk & Hx). exists kept, extra.
      split; [done|]. split; [by constructor|done].
Qed.

Lemma output_turns_built msgs seen conv0 conv :
  output_turns msgs seen conv0 = Ok conv ->
  exists kept extra, conv = conv0 ++ extra /\ sublist kept msgs
    /\ Forall2 (built_from (py "ai") output_content) extra kept.
Proof.
  revert seen conv0. induction msgs as [|msg rest IH]; intros seen conv0 H.
  - injection H as <-. exists [], []. by rewrite app_nil_r.
  - cbn [output_turns] in H.
    destruct (output_content msg) as [c|] eqn:Ec; [|done].
    cbn [mbind res_bind] in H.
    destruct (if truthy c then negb <$> set_mem c seen else Ok false) as [[]|]; [| |done].
    + cbn [mbind res_bind] in H.
      destruct (get msg (py "type") (JStr (py "ai"))) as [r|] eqn:Er; [|done].
      cbn [mbind res_bind] in H. apply IH in H as (kept & extra & -> & Hk & Hx).
      exists (msg :: kept), (Turn r c :: extra). rewrite <- app_assoc.
      split; [done|]. split; [by constructor|]. by constructor.
    + cbn [mbind res_bind] in H. apply IH in H as (kept & extra & -> & Hk & Hx).
      exists kept, extra. split; [done|]. split; [by constructor|done].
Qed.

Lemma role_label_user r :
  role_label r = py "User" <-> r = JStr (py "human") \/ r = JStr (py "user").
Proof.
  unfold role_label, eq_str, str_eqb. destruct r; cbn; try (split; [discriminate | intros [|]; discriminate]).
  repeat case_bool_decide; subst; cbn; split; try done; try (intros _; by left); try (intros _; by right).
  intros [[=]|[=]]; done.
Qed.

(** The line of the transcript for one turn, given its content as cut. *)
Definition transcript_line (m : turn) (body : pystr) : pystr :=
  role_label (role m) ++ py ": " ++ body.

Lemma conversation_lines_labels py_str conv ls :
  conversation_lines py_str conv = Ok ls ->
  exists bodies,
    Forall2 (fun m body => truncated py_str (content m) = Ok body) conv bodies
    /\ ls = zip_with transcript_line conv bodies.
Proof.
  revert ls. induction conv as [|m conv IH]; intros ls H.
  - injection H as <-. by exists [].
  - cbn [conversation_lines] in H.
    destruct (truncated py_str (content m)) as [c|] eqn:Ec; [|done].
    cbn [mbind res_bind] in H.
    destruct (conversation_lines py_str conv) as [ls'|]; [|done].
    cbn [mbind res_bind] in H. injection H as <-.
    destruct (IH ls' eq_refl) as (bodies & Hb & ->).
    exists (c :: bodies). split; [by constructor|done].
Qed.

(** The turns [conv] are built from the messages of the decoded columns:
    from some of the input messages and then some of the output messages, in
    the order of the messages, one turn per message. *)
Definition built_turns (input_data output_data : json) (conv : list turn) : Prop :=
  exists ims oms kept_in kept_out conv_in conv_out,
    messages_of input_data = Ok ims /\ messages_of output_data = Ok oms
    /\ sublist kept_in ims /\ sublist kept_out oms
    /\ conv = conv_in ++ conv_out
    /\ Forall2 (built_from (py "human") input_content) conv_in kept_in
    /\ Forall2 (built_from (py "ai") output_content) conv_out kept_out.

Lemma conversation_of_built input_data output_data conv :
  conversation_of input_data output_data = Ok conv ->
  built_turns input_data output_data conv.
Proof.
  intros H. unfold conversation_of in H. unfold built_turns, messages_of.
  destruct (get input_data (py "messages") (JArr [])) as [im|]; [|done].
  destruct (get output_data (py "messages") (JArr [])) as [om|]; [|done].
  cbn [mbind res_bind] in H |- *.
  destruct (iterate im) as [ims|]; [|done]. cbn [mbind res_bind] in H.
  destruct (input_turns ims []) as [c1|] eqn:E1; [|done]. cbn [mbind res_bind] in H.
  destruct (iterate om) as [oms|]; [|done]. cbn [mbind res_bind] in H.
  apply input_turns_built in E1 as (k1 & x1 & -> & Hk1 & H1).
  apply output_turns_built in H as (k2 & x2 & -> & Hk2 & H2).
  cbn [Datatypes.app]. by exists ims, oms, k1, k2, x1, x2.
Qed.

(** Every trace [parse_traces] returns was loaded from one of the rows. *)
Lemma parse_traces_from_rows (ud : N -> option Z) rows traces :
  parse_traces ud rows = Ok traces ->
  Forall (fun t => exists r, r ∈ rows /\ parse_row ud r = Ok (Loaded t)) traces.
Proof.
  revert traces. induction rows as [|r rows IH]; intros traces H.
  - injection H as <-. constructor.
  - cbn [parse_traces] in H.
    destruct (parse_row ud r) as [o|] eqn:Er; [|done]. cbn [mbind res_bind] in H.
    destruct (parse_traces ud rows) as [ts|]; [|done]. cbn [mbind res_bind] in H.
    injection H as <-.
    assert (Hts : Forall (fun t => exists r0, r0 ∈ r :: rows
                                     /\ parse_row ud r0 = Ok (Loaded t)) ts).
    { eapply Forall_impl; [exact (IH ts eq_refl)|].
      intros t (r0 & Hin & Hr0). exists r0. split; [by right | done]. }
    destruct o as [t| |e]; [|done..].
    constructor; [|done]. exists r. split; [by left | done].
Qed.

(** Claim C9, amended.  The turns of every loaded trace are built from the
    messages of its row in their order, input messages first: each turn has
    for role the [type] of the message it is built from, taken verbatim
    (["human"] for an input message without type, ["ai"] for an output
    message without type), and for content the content of that message,
    flattened if it is an output message.  The roles are normalised only
    where a transcript is rendered: the line [get_conversation_text] renders
    for a turn starts with [User] when the turn's role is ["human"] or
    ["user"], and with [Assistant] for every other role. *)
Theorem C9_roles_stored_verbatim (ud : N -> option Z) (py_str : json -> pystr) (rows : list row)
    (traces : list trace) :
  parse_traces ud rows = Ok traces ->
  Forall (fun t =>
            exists r input_data output_data,
              r ∈ rows
              /\ row_json r (py "input") = Ok input_data
              /\ row_json r (py "output") = Ok output_data
              /\ built_turns input_data output_data (Trace.conversation t))
         traces
  /\ (forall t text,
        get_conversation_text py_str t = Ok text ->
        exists bodies,
          Forall2 (fun m body => truncated py_str (content m) = Ok body)
                  (Trace.conversation t) bodies
          /\ text = join (newline ++ newline)
                         (zip_with transcript_line (Trace.conversation t) bodies))
  /\ (forall m body,
        transcript_line m body = role_label (role m) ++ py ": " ++ body
        /\ (role_label (role m) = py "User" \/ role_label (role m) = py "Assistant")
        /\ (role_label (role m) = py "User"
            <-> role m = JStr (py "human") \/ role m = JStr (py "user"))).
Proof.
  intros H. split; [|split].
  - eapply Forall_impl; [exact (parse_traces_from_rows _ _ _ H)|].
    intros t (r & Hin & Hr). apply parse_row_loaded in Hr. unfold row_conversation in Hr.
    destruct (row_json r (py "input")) as [input_data|] eqn:Ei; [|done].
    destruct (row_json r (py "output")) as [output_data|] eqn:Eo; [|done].
    cbn [mbind res_bind] in Hr. exists r, input_data, output_data.
    split; [done|]. split; [done|]. split; [done|]. by apply conversation_of_built.
  - intros t text Ht. unfold get_conversation_text in Ht.
    destruct (conversation_lines py_str (Trace.conversation t)) as [ls|] eqn:El; [|done].
    cbn [mbind res_bind] in Ht. injection Ht as <-.
    destruct (conversation_lines_labels _ _ _ El) as (bodies & Hb & ->). by exists bodies.
  - intros m body. split; [done|]. split; [|apply role_label_user].
    unfold role_label. destruct (_ || _); [by left | by right].
Qed.

(** The trace loaded from a row with one input message of type ["tool"]. *)
Definition tool_trace : trace :=
  trace_of (typed_row (py "tool")) [Turn (JStr (py "tool")) (JStr (py "x"))]
           float_zero 0 0 float_zero 0.

Lemma C9_witness :
  parse_traces ascii_digits_only [typed_row (py "tool")] = Ok [tool_trace]
  /\ Forall (fun t =>
               exists r input_data output_data,
                 r ∈ [typed_row (py "tool")]
                 /\ row_json r (py "input") = Ok input_data
                 /\ row_json r (py "output") = Ok output_data
                 /\ built_turns input_data output_data (Trace.conversation t))
            [tool_trace]
  /\ (exists bodies,
        Forall2 (fun m body => truncated (fun _ => []) (content m) = Ok body)
                (Trace.conversation tool_trace) bodies
        /\ py "Assistant: x"
           = join (newline ++ newline)
                  (zip_with transcript_line (Trace.conversation tool_trace) bodies)).
Proof.
  assert (Hl : parse_traces ascii_digits_only [typed_row (py "tool")] = Ok [tool_trace]).
  { apply typed_row_loaded, plain_literal. reflexivity. }
  destruct (C9_roles_stored_verbatim ascii_digits_only (fun _ => []) _ _ Hl) as (H1 & H2 & _).
  split; [exact Hl|]. split; [exact H1|].
  apply (H2 tool_trace (py "Assistant: x") eq_refl).
Defined.

(** ** Fenced responses *)

(** The response that wraps [payload] in a [json] fence. *)
Definition fenced (payload : pystr) : pystr :=
  fence_json ++ newline ++ payload ++ newline ++ fence.

Lemma startswith_fence_json s : startswith fence_json s = true -> startswith fence s = true.
Proof.
  destruct s as [|a [|b [|c s]]]; try done.
  cbn. intros H. repeat (apply andb_prop in H as [? H]).
  by repeat (apply andb_true_intro; split).
Qed.

(** A fence cannot start in [p ++ newline ++ _] unless it starts in [p]. *)
Lemma startswith_fence_before_newline p rest :
  startswith fence (p ++ newline ++ rest) = true -> startswith fence p = true.
Proof.
  destruct p as [|a [|b [|c p]]]; cbn; rewrite ?andb_false_r; done.
Qed.

Lemma split_go_absent sep acc s :
  contains sep s = false -> split_go sep O acc s = [reverse acc ++ s].
Proof.
  revert acc. induction s as [|c s IH]; intros acc H.
  - cbn. by rewrite app_nil_r.
  - cbn [contains] in H. apply orb_false_elim in H as [Hs Hc].
    cbn [split_go]. rewrite Hs, (IH _ Hc), reverse_cons, <- app_assoc. reflexivity.
Qed.

Lemma split_fence_before_close acc p :
  contains fence p = false ->
  split_go fence O acc (p ++ newline ++ fence) = [reverse acc ++ p ++ newline; []].
Proof.
  revert acc. induction p as [|c p IH]; intros acc H.
  - change (split_go fence O acc ([] ++ newline ++ fence))
      with [reverse (10%N :: acc); []].
    by rewrite reverse_cons.
  - cbn [contains] in H. apply orb_false_elim in H as [Hs Hc].
    change ((c :: p) ++ newline ++ fence) with (c :: (p ++ newline ++ fence)).
    cbn [split_go].
    destruct (startswith fence (c :: p ++ newline ++ fence)) eqn:E.
    + apply (startswith_fence_before_newline (c :: p)) in E. congruence.
    + rewrite (IH _ Hc), reverse_cons, <- app_assoc. reflexivity.
Qed.

Lemma contains_fence_json_close p :
  contains fence p = false -> contains fence_json (p ++ newline ++ fence) = false.
Proof.
  induction p as [|c p IH]; intros H; [reflexivity|].
  cbn [contains] in H. apply orb_false_elim in H as [Hs Hc].
  change ((c :: p) ++ newline ++ fence) with (c :: (p ++ newline ++ fence)).
  cbn [contains]. rewrite (IH Hc), orb_false_r.
  destruct (startswith fence_json (c :: p ++ newline ++ fence)) eqn:E; [|done].
  apply startswith_fence_json, (startswith_fence_before_newline (c :: p)) in E.
  congruence.
Qed.

Lemma contains_fence_json p : contains fence p = false -> contains fence_json p = false.
Proof.
  induction p as [|c p IH]; intros H; [reflexivity|].
  cbn [contains] in H |- *. apply orb_false_elim in H as [Hs Hc].
  rewrite (IH Hc), orb_false_r.
  destruct (startswith fence_json (c :: p)) eqn:E; [|done].
  apply startswith_fence_json in E. congruence.
Qed.

Lemma clean_response_bare p : contains fence p = false -> clean_response p = Ok p.
Proof.
  intros H. unfold clean_response. by rewrite (contains_fence_json _ H), H.
Qed.

Lemma clean_response_fenced p :
  contains fence p = false -> clean_response (fenced p) = Ok (newline ++ p ++ newline).
Proof.
  intros H. unfold clean_response, fenced.
  change (contains fence_json (fence_json ++ newline ++ p ++ newline ++ fence)) with true.
  cbv iota.
  assert (Hn : contains fence (newline ++ p) = false) by exact H.
  assert (H1 : split fence_json (fence_json ++ newline ++ p ++ newline ++ fence)
               = [[]; newline ++ p ++ newline ++ fence]).
  { change (split fence_json (fence_json ++ newline ++ p ++ newline ++ fence))
      with ([] :: split_go fence_json O [] ((newline ++ p) ++ newline ++ fence)).
    by rewrite (split_go_absent _ _ _ (contains_fence_json_close _ Hn)). }
  rewrite H1. cbn [index lookup list_lookup mbind res_bind].
  change (newline ++ p ++ newline ++ fence) with ((newline ++ p) ++ newline ++ fence).
  unfold split. rewrite (split_fence_before_close _ _ Hn).
  cbn [index lookup list_lookup reverse]. by rewrite <- app_assoc.
Qed.

Lemma lstrip_app p q :
  lstrip (p ++ q) = if forallb is_space p then lstrip q else lstrip p ++ q.
Proof.
  induction p as [|c p IH]; [reflexivity|].
  cbn [lstrip forallb Datatypes.app]. destruct (is_space c); [exact IH | reflexivity].
Qed.

Lemma lstrip_all_space p : forallb is_space p = true -> lstrip p = [].
Proof.
  induction p as [|c p IH]; [reflexivity|]. cbn. destruct (is_space c); [exact IH | done].
Qed.

Lemma strip_between_newlines p : strip (newline ++ p ++ newline) = strip p.
Proof.
  unfold strip. change (lstrip (newline ++ p ++ newline)) with (lstrip (p ++ newline)).
  rewrite lstrip_app. destruct (forallb is_space p) eqn:E.
  - by rewrite (lstrip_all_space _ E).
  - by rewrite reverse_app.
Qed.

(** Claim C6, as stated, fails for a payload that holds three backticks
    itself.  The JSON text of the string [```1```] is such a payload: cleaned
    bare, what lies between its two fences is [1], which decodes to the
    number 1; wrapped in a [json] fence it is cut at its own first fence,
    leaving an unterminated string, and the decoding fails. *)
Lemma C6_payload_with_backticks :
  let payload := js "'```1```'" in
  json_loads payload = Ok (JStr (py "```1```"))
  /\ parse_response (Some payload) = Ok (JInt 1)
  /\ parse_response (Some (fenced payload)) = Raise JSONDecodeError.
Proof. vm_compute. repeat split. Qed.

(** Claim C6, amended.  For every payload that holds no run of three
    backticks, the response that wraps it in a [json] fence and the bare
    payload clean to texts with the same stripped form, so they decode to the
    same value or fail alike. *)
Theorem C6_fenced_parses_as_bare (payload : pystr) :
  contains fence payload = false ->
  parse_response (Some (fenced payload)) = parse_response (Some payload).
Proof.
  intros H. unfold parse_response.
  rewrite (clean_response_fenced _ H), (clean_response_bare _ H).
  cbn [mbind res_bind]. by rewrite strip_between_newlines.
Qed.

Lemma C6_witness :
  parse_response (Some (fenced (js "{'analyses': []}")))
  = parse_response (Some (js "{'analyses': []}")).
Proof. apply C6_fenced_parses_as_bare. reflexivity. Defined.

(** ** The merge of results into the traces *)

(** The values a trace id takes: [None] or a text. *)
Definition text_key (k : json) : Prop := k = JNull \/ exists s, k = JStr s.

Lemma json_of_text_key o : text_key (json_of_text o).
Proof. destruct o; [right; eauto | by left]. Qed.

Lemma key_eq_text k x : text_key k -> key_eq x k = true <-> x = k.
Proof.
  intros [-> | [s ->]]; [|apply key_eq_text_r].
  destruct x as [|b|z|[]|t|l|kv]; cbn; split; done.
Qed.

Lemma key_eq_text_sym k x : text_key k -> key_eq k x = true <-> x = k.
Proof.
  intros [-> | [s ->]]; [|apply key_eq_text_l].
  destruct x as [|b|z|[]|t|l|kv]; cbn; split; done.
Qed.

Lemma dict_get_set k k' v d :
  text_key k ->
  dict_get k (dict_set k' v d) = if key_eq k' k then Some v else dict_get k d.
Proof.
  intros Hk. induction d as [|[k2 v2] d IH]; [reflexivity|].
  cbn [dict_set]. destruct (key_eq k2 k') eqn:E2; cbn [dict_get].
  - destruct (key_eq k2 k) eqn:E.
    + apply (key_eq_text _ _ Hk) in E. subst k2.
      apply (key_eq_text_sym _ _ Hk) in E2. subst k'.
      by rewrite (proj2 (key_eq_text k k Hk) eq_refl).
    + destruct (key_eq k' k) eqn:E'; [|done].
      apply (key_eq_text _ _ Hk) in E'. subst k'. congruence.
  - rewrite IH. destruct (key_eq k2 k) eqn:E; [|done].
    apply (key_eq_text _ _ Hk) in E. subst k2.
    destruct (key_eq k' k) eqn:E'; [|done].
    apply (key_eq_text _ _ Hk) in E'. subst k'.
    by rewrite (proj2 (key_eq_text k k Hk) eq_refl) in E2.
Qed.

(** The entry [a] is about the trace with id [k]. *)
Definition names (k a : json) : bool :=
  match getitem a (py "trace_id") with
  | Ok k' => key_eq k' k
  | Raise _ => false
  end.

(** The last entry of the results about the trace with id [k]. *)
Definition last_entry (k : json) (all_analyses : list json) : option json :=
  last (filter (fun a => names k a = true) all_analyses).

(** An entry [{trace_id, score, reason}]. *)
Definition well_formed (a : json) : Prop :=
  exists k score reason,
    getitem a (py "trace_id") = Ok k /\ hashable k = true
    /\ getitem a (py "score") = Ok score /\ getitem a (py "reason") = Ok reason.

Lemma last_entry_snoc k all a :
  last_entry k (all ++ [a]) = if names k a then Some a else last_entry k all.
Proof.
  unfold last_entry. rewrite filter_app, filter_cons, filter_nil.
  destruct (names k a) eqn:E.
  - rewrite decide_True by done. by rewrite last_snoc.
  - rewrite decide_False by congruence. by rewrite app_nil_r.
Qed.

Lemma last_entry_elem k all a : last_entry k all = Some a -> a ∈ all /\ names k a = true.
Proof.
  unfold last_entry. intros H. apply last_Some_elem_of in H.
  by apply list_elem_of_filter in H as [? ?].
Qed.

Lemma analysis_map_from_spec all d :
  Forall well_formed all ->
  exists m, analysis_map_from d all = Ok m
    /\ forall k, text_key k ->
         dict_get k m = match last_entry k all with
                        | Some a => Some a
                        | None => dict_get k d
                        end.
Proof.
  intros Hall. revert d. induction Hall as [|a all (ka & sc & rs & Hk & Hh & _) _ IH]; intros d.
  - exists d. split; [reflexivity|]. done.
  - cbn [analysis_map_from]. rewrite Hk. cbn [mbind res_bind]. rewrite Hh.
    destruct (IH (dict_set ka a d)) as (m & Hm & Hget). exists m. split; [exact Hm|].
    intros k Htk. rewrite (Hget k Htk).
    assert (Hn : names k a = key_eq ka k) by (unfold names; by rewrite Hk).
    unfold last_entry. rewrite filter_cons, Hn.
    destruct (key_eq ka k) eqn:E.
    + rewrite decide_True by done.
      destruct (filter _ all) as [|b l] eqn:Ef.
      * cbn. rewrite (dict_get_set _ _ _ _ Htk), E. done.
      * change (last (a :: b :: l)) with (last (b :: l)).
        destruct (last (b :: l)) eqn:El; [done|]. by apply last_None in El.
    + rewrite decide_False by congruence.
      destruct (last (filter _ all)); [done|].
      by rewrite (dict_get_set _ _ _ _ Htk), E.
Qed.

(** What the merge makes of one trace. *)
Definition merged (category : pystr) (all_analyses : list json) (t : trace) : trace :=
  match last_entry (json_of_text (Trace.id t)) all_analyses with
  | Some a =>
      match getitem a (py "score"), getitem a (py "reason") with
      | Ok score, Ok reason =>
          Trace.set_analysis category reason (Trace.set_score category score t)
      | _, _ => t
      end
  | None => t
  end.

Lemma merge_loop_spec category all m traces :
  Forall well_formed all ->
  (forall k, text_key k -> dict_get k m = last_entry k all) ->
  merge_loop category m traces = (merged category all <$> traces, None).
Proof.
  intros Hall Hm. induction traces as [|t rest IH]; [reflexivity|].
  cbn [merge_loop fmap list_fmap]. unfold merged at 1.
  rewrite (Hm _ (json_of_text_key _)).
  destruct (last_entry _ all) as [a|] eqn:E.
  - apply last_entry_elem in E as [Hin _].
    rewrite Forall_forall in Hall. destruct (Hall a Hin) as (k & sc & rs & _ & _ & Hs & Hr).
    rewrite Hs, Hr, IH. reflexivity.
  - rewrite IH. reflexivity.
Qed.

Lemma merge_spec category all traces :
  Forall well_formed all ->
  exists m, analysis_map_of all = Ok m
    /\ (forall k, text_key k -> dict_get k m = last_entry k all)
    /\ merge_loop category m traces = (merged category all <$> traces, None).
Proof.
  intros Hall. destruct (analysis_map_from_spec all [] Hall) as (m & Hm & Hget).
  assert (Hg : forall k, text_key k -> dict_get k m = last_entry k all).
  { intros k Hk. rewrite (Hget k Hk). by destruct (last_entry k all). }
  exists m. split; [exact Hm|]. split; [exact Hg|]. by apply merge_loop_spec.
Qed.






(** [t'] is [t] but for its score and analysis in [category]. *)
Definition same_but (category : pystr) (t t' : trace) : Prop :=
  Trace.id t' = Trace.id t /\ Trace.timestamp t' = Trace.timestamp t
  /\ Trace.name t' = Trace.name t /\ Trace.session_id t' = Trace.session_id t
  /\ Trace.user_id t' = Trace.user_id t /\ Trace.conversation t' = Trace.conversation t
  /\ Trace.latency t' = Trace.latency t /\ Trace.input_tokens t' = Trace.input_tokens t
  /\ Trace.output_tokens t' = Trace.output_tokens t
  /\ Trace.total_cost t' = Trace.total_cost t /\ Trace.error_count t' = Trace.error_count t
  /\ (forall c, c <> category -> Trace.scores t' !! c = Trace.scores t !! c)
  /\ (forall c, c <> category -> Trace.analysis t' !! c = Trace.analysis t !! c).

Lemma same_but_refl category t : same_but category t t.
Proof. repeat split. Qed.

Lemma same_but_set_score category v t : same_but category t (Trace.set_score category v t).
Proof.
  repeat split; try done. intros c Hc. cbn. by rewrite lookup_insert_ne.
Qed.

Lemma same_but_set_both category v r t :
  same_but category t (Trace.set_analysis category r (Trace.set_score category v t)).
Proof.
  repeat split; try done; intros c Hc; cbn; by rewrite lookup_insert_ne.
Qed.

(** The frame of the merge loop, whatever the map holds and however the
    loop ends. *)
Lemma merge_loop_frame category m traces :
  Forall2 (same_but category) traces (merge_loop category m traces).1.
Proof.
  induction traces as [|t rest IH]; [constructor|].
  cbn [merge_loop]. destruct (dict_get _ m) as [a|].
  - destruct (getitem a (py "score")) as [sc|].
    + destruct (getitem a (py "reason")) as [rs|].
      * destruct (merge_loop category m rest) as [rest' e]. cbn in *.
        constructor; [apply same_but_set_both | exact IH].
      * cbn. constructor; [apply same_but_set_score|].
        apply Forall2_same_length_lookup_2; [done|]. intros i x y Hx Hy.
        rewrite Hx in Hy. injection Hy as <-. apply same_but_refl.
    + cbn. apply Forall2_same_length_lookup_2; [done|]. intros i x y Hx Hy.
      rewrite Hx in Hy. injection Hy as <-. apply same_but_refl.
  - destruct (merge_loop category m rest) as [rest' e]. cbn in *.
    constructor; [apply same_but_refl | exact IH].
Qed.




Lemma is_category_nonempty c : is_category c = true -> c <> [].
Proof. by intros H ->. Qed.

Lemma analyze_traces_run py_str gemini data st w c :
  get data (py "category") JNull = Ok (JStr c) -> is_category c = true ->
  analyze_traces py_str gemini data st w
  = match collect_analyses py_str gemini c (batches (traces_data st)) [] w with
    | (Raise e, w') => (Crashed e, st, w')
    | (Ok all_analyses, w') =>
        match analysis_map_of all_analyses with
        | Raise e => (Crashed e, st, w')
        | Ok analysis_map =>
            match merge_loop c analysis_map (traces_data st) with
            | (traces, Some e) =>
                (Crashed e, App traces (analysis_cache st) (translation_cache st), w')
            | (traces, None) =>
                (Analyzed (length all_analyses) c,
                 App traces (<[c := true]> (analysis_cache st)) (translation_cache st), w')
            end
        end
    end.
Proof.
  intros Hd Hc. unfold analyze_traces. rewrite Hd.
  destruct c as [|x c]; [done|]. cbn [truthy negb hashable is_list is_dict orb].
  by rewrite Hc.
Qed.


(** *** A sample run *)

(** A rendering for concrete runs, in which only texts are rendered. *)
Definition text_only (v : json) : pystr :=
  match v with JStr s => s | _ => [] end.

Definition sample_trace (i : pystr) (conv : list turn) : trace :=
  Trace.Make (Some i) (Some []) (Some []) (Some []) (Some []) conv
             float_zero 0 0 float_zero 0 ∅ ∅.

Definition trace_a : trace :=
  sample_trace (py "a") [Turn (JStr (py "human")) (JStr (py "hi"))].
Definition trace_b : trace :=
  sample_trace (py "b") [Turn (JStr (py "user")) (JStr (py "hola"))].

Definition sample_app : app := App [trace_a; trace_b] ∅ ∅.

Definition result_entry (i : pystr) (score : Z) (reason : pystr) : json :=
  JObj [(py "trace_id", JStr i); (py "score", JInt score); (py "reason", JStr reason)].

Definition sample_results : list json :=
  [result_entry (py "a") 10 (py "first"); result_entry (py "b") 30 (py "other");
   result_entry (py "a") 20 (py "second")].




(** *** [analyze_traces] *)


(** A service that scores every batch with the same three entries, two of
    them for the trace [a]. *)
Definition sample_gemini (n : nat) (rq : request) : reply :=
  match rq with
  | Score _ _ =>
      Response
        (Some (js ("{'analyses':[{'trace_id':'a','score':10,'reason':'first'},"
                   ++ "{'trace_id':'b','score':30,'reason':'other'},"
                   ++ "{'trace_id':'a','score':20,'reason':'second'}]}"))) []
  | _ => Fails
  end.

Definition sample_request : json := JObj [(py "category", JStr (py "showcase"))].

Lemma sample_collect :
  exists w', collect_analyses text_only sample_gemini (py "showcase")
                              (batches (traces_data sample_app)) [] []
             = (Ok sample_results, w').
Proof. eexists. vm_compute. reflexivity. Qed.





(** ** The trace list *)

Lemma py_lt_int a b : py_lt (JInt a) (JInt b) = Ok (a <? b).
Proof. reflexivity. Qed.

Section Sorting.
Context {A : Type}.
Variable key : A -> json.
(** Ranks that order the items as [<] orders their keys. *)
Variable rank : A -> Z.

Definition ranked (l : list A) : Prop :=
  forall x y, x ∈ l -> y ∈ l -> py_lt (key x) (key y) = Ok (rank x <? rank y).
Definition descending : list A -> Prop := StronglySorted (fun x y => rank y <= rank x).

Lemma ranked_subseteq l l' : l' ⊆ l -> ranked l -> ranked l'.
Proof. intros Hsub H x y Hx Hy. apply H; by apply Hsub. Qed.

Lemma insert_desc_spec x s :
  ranked (x :: s) -> descending s ->
  exists s', insert_desc key x s = Ok s'
    /\ s' ≡ₚ x :: s
    /\ descending s'
    /\ forall z, filter (fun y => rank y = z) s' = filter (fun y => rank y = z) (x :: s).
Proof.
  intros Hr Hd. induction s as [|y s IH].
  - exists [x]. repeat split; [done|repeat constructor].
  - apply StronglySorted_inv in Hd as [Hd Hall].
    cbn [insert_desc]. rewrite (Hr x y) by set_solver. cbn [mbind res_bind].
    destruct (Z.ltb_spec (rank x) (rank y)) as [Hlt|Hge].
    + destruct IH as (s' & -> & Hp & Hd' & Hf); [|done|].
      { eapply ranked_subseteq; [|exact Hr]. set_solver. }
      exists (y :: s').
      split; [done|]. split; [by rewrite Hp; apply Permutation_swap|]. split.
      * constructor; [done|]. rewrite Forall_forall in Hall |- *. intros u Hu.
        rewrite Hp in Hu. apply elem_of_cons in Hu as [->|Hu]; [lia|by apply Hall].
      * intros z. rewrite filter_cons, Hf, !filter_cons.
        repeat case_decide; try done; lia.
    + exists (x :: y :: s). repeat split; [done|].
      constructor; [by constructor|]. constructor; [done|].
      rewrite Forall_forall in Hall |- *. intros u Hu. specialize (Hall u Hu). lia.
Qed.

Lemma sort_desc_spec l :
  ranked l ->
  exists s, sort_desc key l = Ok s
    /\ s ≡ₚ l
    /\ descending s
    /\ forall z, filter (fun y => rank y = z) s = filter (fun y => rank y = z) l.
Proof.
  induction l as [|x l IH]; intros Hl.
  - exists []. repeat split; [done|constructor].
  - destruct IH as (s & Hs & Hp & Hd & Hf).
    { eapply ranked_subseteq; [|exact Hl]. set_solver. }
    cbn [sort_desc]. rewrite Hs. cbn [mbind res_bind].
    destruct (insert_desc_spec x s) as (s' & -> & Hp' & Hd' & Hf'); [|done|].
    { eapply ranked_subseteq; [|exact Hl]. intros u. rewrite !elem_of_cons, Hp. done. }
    exists s'. split; [done|]. split; [by rewrite Hp', Hp|]. split; [done|].
    intros z. rewrite Hf', !filter_cons, Hf. done.
Qed.

(** A descending list with the same members in the same order among equals
    is unique. *)
Lemma descending_stable_unique s1 s2 :
  descending s1 -> descending s2 ->
  (forall z, filter (fun y => rank y = z) s1 = filter (fun y => rank y = z) s2) ->
  s1 ≡ₚ s2 -> s1 = s2.
Proof.
  revert s2. induction s1 as [|x s1 IH]; intros s2 H1 H2 Hf Hp.
  - by apply Permutation_nil_l in Hp.
  - destruct s2 as [|y s2]; [by apply Permutation_nil_r in Hp|].
    apply StronglySorted_inv in H1 as [H1 Hx]. apply StronglySorted_inv in H2 as [H2 Hy].
    assert (Hr : rank x = rank y).
    { rewrite Forall_forall in Hx, Hy.
      assert (rank y <= rank x).
      { assert (Hin : y ∈ x :: s1) by (rewrite Hp; left).
        apply elem_of_cons in Hin as [->|Hin]; [lia|by apply Hx]. }
      assert (rank x <= rank y).
      { assert (Hin : x ∈ y :: s2) by (rewrite <- Hp; left).
        apply elem_of_cons in Hin as [->|Hin]; [lia|by apply Hy]. }
      lia. }
    pose proof (Hf (rank x)) as Hfx. rewrite !filter_cons in Hfx.
    rewrite decide_True in Hfx by done. rewrite decide_True in Hfx by done.
    injection Hfx as -> Hfx. f_equal. apply IH; [done..| |by apply (inj (y ::.))].
    intros z. specialize (Hf z). rewrite !filter_cons in Hf.
    case_decide; [by injection Hf|done].
Qed.

(** In a descending list of ranked items no key is less than a later one. *)
Lemma descending_keys s :
  ranked s -> descending s ->
  StronglySorted (fun x y => py_lt (key x) (key y) = Ok false) s.
Proof.
  intros Hr Hd. induction Hd as [|x s Hd IH Hall]; [constructor|].
  constructor.
  - apply IH. eapply ranked_subseteq; [|exact Hr]. set_solver.
  - rewrite Forall_forall in Hall |- *. intros y Hy.
    rewrite (Hr x y) by set_solver. f_equal. apply Z.ltb_ge. by apply Hall.
Qed.
End Sorting.

Lemma filter_ext_elem {A} (P Q : A -> Prop) `{Hp : !forall x, Decision (P x)}
    `{Hq : !forall x, Decision (Q x)} (l : list A) :
  (forall x, x ∈ l -> P x <-> Q x) -> filter P l = filter Q l.
Proof.
  induction l as [|x l IH]; intros H; [done|].
  rewrite !filter_cons, IH by (intros y Hy; apply H; by right).
  pose proof (H x ltac:(left)) as Hx.
  destruct (decide (P x)), (decide (Q x)); tauto.
Qed.

(** Neither score is less than the other: for numbers, equal scores. *)
Definition tied (c : pystr) (t u : trace) : bool :=
  match py_lt (score_of c t) (score_of c u), py_lt (score_of c u) (score_of c t) with
  | Ok false, Ok false => true
  | _, _ => false
  end.

(** The sample traces with a score for [showcase]. *)
Definition graded (score : json) (t : trace) : trace :=
  Trace.set_score (py "showcase") score t.

Definition trace_c : trace :=
  sample_trace (py "c") [Turn (JStr (py "human")) (JStr (py "hey"))].

(** Two traces, scored 10 and 30 for [showcase], loaded in this order. *)
Definition scored_a : trace := graded (JInt 10) trace_a.
Definition scored_b : trace := graded (JInt 30) trace_b.
Definition scored_app : app := App [scored_a; scored_b] ∅ ∅.

(** Claim C5, as stated, fails in three ways.  For a limit of zero the
    handler tests [if limit:], which 0 does not pass, so the whole ordering
    is returned and not its first 0 elements.  When two scores cannot be
    compared, here a text and an integer, the sort raises [TypeError] and
    the request returns no list.  When a NaN is among the scores, which
    compares false with every number, the sort leaves 1 before 2 on either
    side of it: the list returned is not in descending order. *)
Lemma C5_zero_limit_and_unranked_scores :
  (get_traces (Some (py "showcase")) (Some 0) scored_app
   = TraceList [scored_b; scored_a] 2 2
   /\ take 0 [scored_b; scored_a] = [])
  /\ get_traces (Some (py "showcase")) None
       (App [graded (JInt 10) trace_a; graded (JStr (py "high")) trace_b] ∅ ∅)
     = Crashed TypeError
  /\ (get_traces (Some (py "showcase")) None
        (App [graded (JInt 1) trace_a; graded (JFloat S754_nan) trace_b;
              graded (JInt 2) trace_c] ∅ ∅)
      = TraceList [graded (JInt 1) trace_a; graded (JFloat S754_nan) trace_b;
                   graded (JInt 2) trace_c] 3 3
      /\ py_lt (JInt 1) (JInt 2) = Ok true).
Proof. repeat split. Qed.

(** Claim C5, amended.  Let [c] be a valid category under which [<] orders
    the scores as a ranking does: any two scores of traces of the set can be
    compared, and the traces have ranks such that a score is less than
    another exactly when its rank is lower.  Then the trace list filtered by
    [c] is a list [sorted] cut by the limit, where [sorted] holds exactly the
    traces that carry a score for [c], has no trace before one of greater
    score, and keeps the traces of equal score in their load order.  With no
    limit and with a limit of 0 the whole of [sorted] is returned, with a
    positive limit [n] its first [n] elements, and with a negative limit all
    but its last [-n] elements. *)
Theorem C5_filtered_sorted_stable (c : pystr) (limit : option Z) (st : app)
    (rank : trace -> Z) :
  is_category c = true ->
  (forall t u, t ∈ traces_data st -> u ∈ traces_data st ->
     has_score c t = true -> has_score c u = true ->
     py_lt (score_of c t) (score_of c u) = Ok (rank t <? rank u)) ->
  exists sorted result,
    get_traces (Some c) limit st
    = TraceList result (length (traces_data st)) (length result)
    /\ sorted ≡ₚ filter (fun t => has_score c t = true) (traces_data st)
    /\ StronglySorted (fun t u => py_lt (score_of c t) (score_of c u) = Ok false) sorted
    /\ (forall t, t ∈ sorted ->
          filter (fun u => tied c t u = true) sorted
          = filter (fun u => tied c t u = true)
                   (filter (fun t => has_score c t = true) (traces_data st)))
    /\ (limit = None -> result = sorted)
    /\ (forall n, limit = Some n -> 0 < n -> result = take (Z.to_nat n) sorted)
    /\ (limit = Some 0 -> result = sorted)
    /\ (forall n, limit = Some n -> n < 0 ->
          result = take (length sorted - Z.to_nat (- n)) sorted).
Proof.
  intros Hc Hrank.
  set (scored := filter (fun t => has_score c t = true) (traces_data st)).
  assert (Hr : ranked (score_of c) rank scored).
  { intros t u Ht Hu. apply list_elem_of_filter in Ht as [? ?], Hu as [? ?].
    by apply Hrank. }
  destruct (sort_desc_spec (score_of c) rank scored Hr) as (sorted & Hs & Hp & Hd & Hf).
  assert (Hr' : ranked (score_of c) rank sorted).
  { eapply ranked_subseteq; [|exact Hr]. intros u. by rewrite Hp. }
  assert (Htied : forall t u, t ∈ scored -> u ∈ scored ->
                    tied c t u = true <-> rank u = rank t).
  { intros t u Ht Hu. unfold tied. rewrite (Hr t u Ht Hu), (Hr u t Hu Ht).
    destruct (Z.ltb_spec (rank t) (rank u)), (Z.ltb_spec (rank u) (rank t));
      split; intros; try done; lia. }
  exists sorted.
  exists (match limit with
          | Some n => if n =? 0 then sorted else slice_to n sorted
          | None => sorted
          end).
  split; [|split; [done|split; [by eapply descending_keys|split]]].
  - unfold get_traces. destruct c as [|x c]; [done|]. fold scored. by rewrite Hc, Hs.
  - intros t Ht. rewrite Hp in Ht.
    rewrite (filter_ext_elem _ (fun u => rank u = rank t) sorted)
      by (intros u Hu; apply Htied; [done|by rewrite <- Hp]).
    rewrite (filter_ext_elem _ (fun u => rank u = rank t) scored)
      by (intros u Hu; by apply Htied).
    apply Hf.
  - split; [by intros ->|]. split.
    { intros n -> Hn. destruct (Z.eqb_spec n 0) as [->|_]; [lia|].
      unfold slice_to. destruct (Z.leb_spec 0 n); [done|lia]. }
    split; [by intros ->|].
    intros n -> Hn. destruct (Z.eqb_spec n 0) as [->|_]; [lia|].
    unfold slice_to. destruct (Z.leb_spec 0 n); [lia|done].
Qed.

(** The score 65.5. *)
Definition sixty_five_and_a_half : float := float_of_decimal false 655 (-1).

(** Three traces scored 30, 65.5 and 90, an integer, a float and an integer. *)
Definition mixed_app : app :=
  App [graded (JInt 30) trace_a; graded (JFloat sixty_five_and_a_half) trace_b;
       graded (JInt 90) trace_c] ∅ ∅.

(** Twice the score of the sample traces. *)
Definition twice_score (t : trace) : Z :=
  match score_of (py "showcase") t with
  | JInt z => 2 * z
  | JFloat _ => 131
  | _ => 0
  end.

Lemma C5_witness :
  exists sorted result,
    get_traces (Some (py "showcase")) (Some 2) mixed_app = TraceList result 3 (length result)
    /\ sorted ≡ₚ traces_data mixed_app
    /\ StronglySorted (fun t u => py_lt (score_of (py "showcase") t)
                                        (score_of (py "showcase") u) = Ok false) sorted
    /\ result = take 2 sorted.
Proof.
  destruct (C5_filtered_sorted_stable (py "showcase") (Some 2) mixed_app twice_score eq_refl)
    as (sorted & result & H1 & H2 & H3 & _ & _ & H4 & _).
  - intros t u Ht Hu _ _. cbn [traces_data mixed_app] in Ht, Hu.
    rewrite !elem_of_cons, elem_of_nil in Ht, Hu.
    destruct Ht as [->|[->|[->|[]]]], Hu as [->|[->|[->|[]]]]; vm_compute; reflexivity.
  - exists sorted, result. split; [exact H1|]. split; [exact H2|]. split; [exact H3|].
    apply (H4 2 eq_refl). lia.
Defined.

(** ** The translation memo *)

Lemma translate_trace_cached gemini trace_id st w cached :
  translation_cache st !! trace_id = Some cached ->
  translate_trace gemini trace_id st w = (Translated cached, st, w).
Proof. intros H. unfold translate_trace. by rewrite H. Qed.

(** A request answered with a translation leaves it in the memo. *)
Lemma translate_trace_memoises gemini trace_id st w result st1 w1 :
  translate_trace gemini trace_id st w = (Translated result, st1, w1) ->
  translation_cache st1 !! trace_id = Some result.
Proof.
  unfold translate_trace. destruct (translation_cache st !! trace_id) as [cached|] eqn:Ec.
  - intros [= <- <- <-]. done.
  - destruct (find_trace trace_id st) as [t|]; [|done].
    match goal with |- context [mbind ?k ?m w] => destruct (mbind k m w) as [[r|e] w'] end;
      [|done].
    intros [= <- <- <-]. cbn. apply lookup_insert_eq.
Qed.

(** No request removes or replaces an entry of the memo. *)
Lemma translate_trace_keeps gemini trace_id st w k v :
  translation_cache st !! k = Some v ->
  translation_cache (translate_trace gemini trace_id st w).1.2 !! k = Some v.
Proof.
  intros Hk. unfold translate_trace.
  destruct (translation_cache st !! trace_id) as [cached|] eqn:Ec; [done|].
  destruct (find_trace trace_id st) as [t|]; [|done].
  match goal with |- context [mbind ?f ?m w] => destruct (mbind f m w) as [[r|e] w'] end;
    [|done].
  cbn. rewrite lookup_insert_ne; [done|]. intros <-. congruence.
Qed.

Lemma analyze_traces_keeps py_str gemini data st w :
  translation_cache (analyze_traces py_str gemini data st w).1.2 = translation_cache st.
Proof.
  unfold analyze_traces.
  destruct (get data (py "category") JNull) as [category|]; [|done].
  destruct (negb (truthy category)); [done|].
  destruct (negb (hashable category)); [done|].
  destruct category; try done.
  destruct (is_category _); [|done].
  destruct (collect_analyses _ _ _ _ _ _) as [[all|] w']; [|done].
  destruct (analysis_map_of all); [|done].
  by destruct (merge_loop _ _ _) as [traces [e|]].
Qed.

Lemma handle_keeps py_str gemini c st w k v :
  translation_cache st !! k = Some v ->
  translation_cache (handle py_str gemini c st w).1.2 !! k = Some v.
Proof.
  intros Hk. destruct c; cbn [handle fst snd]; try done.
  - by rewrite analyze_traces_keeps.
  - by apply translate_trace_keeps.
Qed.

Lemma serve_keeps py_str gemini cs st w k v :
  translation_cache st !! k = Some v ->
  translation_cache (serve py_str gemini cs st w).1 !! k = Some v.
Proof.
  revert st w. induction cs as [|c cs IH]; intros st w Hk; [done|].
  cbn [serve]. pose proof (handle_keeps py_str gemini c st w k v Hk) as H.
  destruct (handle py_str gemini c st w) as [[resp st'] w']. by apply IH.
Qed.

(** A service that fails at its first call and answers every later one. *)
Definition flaky_gemini (n : nat) (rq : request) : reply :=
  match n with
  | O => Fails
  | S _ => Response (Some (js "{'detected_language':'English','translations':[]}")) []
  end.

Definition no_translations : json :=
  JObj [(py "detected_language", JStr (py "English")); (py "translations", JArr [])].

Definition translate_a : request :=
  Translate (messages_to_translate 0 (Trace.conversation trace_a)).

(** Claim C8, as stated, fails when the first request fails: only a decoded
    translation is stored in the memo, so after a first request answered
    with status 500 the second request for the same id calls the service
    again, and its answer differs from the first. *)
Lemma C8_failed_request_not_memoised :
  translate_trace flaky_gemini (py "a") sample_app []
  = (Rejected 500 (TranslationFailed APIError), sample_app, [translate_a])
  /\ translate_trace flaky_gemini (py "a") sample_app [translate_a]
     = (Translated no_translations,
        App (traces_data sample_app) (analysis_cache sample_app)
            (<[py "a" := no_translations]> (translation_cache sample_app)),
        [translate_a; translate_a]).
Proof. split; reflexivity. Qed.

(** The request [translate_trace] sends for a trace. *)
Definition translation_request (t : trace) : request :=
  Translate (messages_to_translate 0 (Trace.conversation t)).

(** A request answered with status 500 found the trace, called the service
    once and left the state as it was. *)
Lemma translate_trace_failed gemini trace_id st w e st1 w1 :
  translate_trace gemini trace_id st w = (Rejected 500 (TranslationFailed e), st1, w1) ->
  st1 = st /\ translation_cache st !! trace_id = None
  /\ exists t, find_trace trace_id st = Some t /\ w1 = w ++ [translation_request t].
Proof.
  unfold translate_trace. destruct (translation_cache st !! trace_id) as [cached|]; [done|].
  destruct (find_trace trace_id st) as [t|]; [|done].
  unfold mbind at 1, io_bind, generate_content.
  destruct (gemini (length w) _) as [|text chunks].
  - intros [= <- <- <-]. split; [done|]. split; [done|]. by exists t.
  - unfold pure. destruct (parse_response text); [done|].
    intros [= <- <- <-]. split; [done|]. split; [done|]. by exists t.
Qed.

(** A request for a trace that is loaded and not in the memo calls the
    service once. *)
Lemma translate_trace_calls gemini trace_id st w t :
  translation_cache st !! trace_id = None -> find_trace trace_id st = Some t ->
  (translate_trace gemini trace_id st w).2 = w ++ [translation_request t].
Proof.
  intros Hc Ht. unfold translate_trace. rewrite Hc, Ht.
  unfold mbind at 1, io_bind, generate_content.
  destruct (gemini (length w) _) as [|text chunks]; [done|].
  unfold pure. by destruct (parse_response text).
Qed.

(** Claim C8, amended.  Once a translation request for an id was answered
    with a translation, every later translation request for that id,
    whatever requests the application served in between, is answered with
    the same translation from the memo: it makes no call to the service
    (the log is unchanged) and leaves the state as it is.  A request that
    fails (status 500) has called the service once and stores nothing: the
    state is as before it, the memo still has no entry for the id, and the
    next request for the id calls the service again. *)
Theorem C8_translation_memoised py_str gemini (trace_id : pystr) (st : app)
    (w : list request) :
  let '(resp, st1, w1) := translate_trace gemini trace_id st w in
  (forall result, resp = Translated result ->
     translation_cache st1 !! trace_id = Some result
     /\ forall cs,
          let '(st2, w2) := serve py_str gemini cs st1 w1 in
          translate_trace gemini trace_id st2 w2 = (Translated result, st2, w2))
  /\ (forall e, resp = Rejected 500 (TranslationFailed e) ->
        st1 = st
        /\ translation_cache st1 !! trace_id = None
        /\ exists t, find_trace trace_id st = Some t
             /\ w1 = w ++ [translation_request t]
             /\ (translate_trace gemini trace_id st1 w1).2
                = w1 ++ [translation_request t]).
Proof.
  destruct (translate_trace gemini trace_id st w) as [[resp st1] w1] eqn:E.
  split.
  - intros result ->. pose proof (translate_trace_memoises _ _ _ _ _ _ _ E) as H.
    split; [exact H|]. intros cs.
    pose proof (serve_keeps py_str gemini cs st1 w1 trace_id result H) as Hk.
    destruct (serve py_str gemini cs st1 w1) as [st2 w2].
    by apply translate_trace_cached.
  - intros e ->. destruct (translate_trace_failed _ _ _ _ _ _ _ E) as (-> & Hc & t & Ht & ->).
    split; [done|]. split; [done|]. exists t. split; [done|]. split; [done|].
    by apply translate_trace_calls.
Qed.

(** A service that answers every call. *)
Definition steady_gemini (n : nat) (rq : request) : reply :=
  Response (Some (js "{'detected_language':'English','translations':[]}")) [].

(** The sample state once the translation of [a] is in the memo. *)
Definition translated_app : app :=
  App (traces_data sample_app) (analysis_cache sample_app)
      (<[py "a" := no_translations]> (translation_cache sample_app)).

Lemma steady_first_request :
  translate_trace steady_gemini (py "a") sample_app []
  = (Translated no_translations, translated_app, [translate_a]).
Proof. reflexivity. Qed.

Lemma C8_witness :
  (let '(resp, st1, w1) := translate_trace steady_gemini (py "a") sample_app [] in
   let '(st2, w2) :=
     serve text_only steady_gemini [GetTranslation (py "b"); GetStatus] st1 w1 in
   resp = Translated no_translations
   /\ w1 = [translate_a]
   /\ translate_trace steady_gemini (py "a") st2 w2 = (resp, st2, w2))
  /\ (let '(resp, st1, w1) := translate_trace flaky_gemini (py "a") sample_app [] in
      resp = Rejected 500 (TranslationFailed APIError)
      /\ st1 = sample_app
      /\ (translate_trace flaky_gemini (py "a") st1 w1).2 = [translate_a; translate_a]).
Proof.
  split.
  - pose proof (C8_translation_memoised text_only steady_gemini (py "a") sample_app []) as H.
    rewrite steady_first_request in H |- *. destruct H as [H _].
    destruct (H no_translations eq_refl) as [_ Hs].
    specialize (Hs [GetTranslation (py "b"); GetStatus]).
    destruct (serve _ _ _ _ _) as [st2 w2]. done.
  - pose proof (C8_translation_memoised text_only flaky_gemini (py "a") sample_app []) as H.
    destruct (translate_trace flaky_gemini (py "a") sample_app []) as [[resp st1] w1] eqn:E.
    injection E as <- <- <-. destruct H as [_ H].
    destruct (H APIError eq_refl) as (_ & _ & t & Ht & _ & Hn).
    injection Ht as <-. split; [done|]. split; [done|]. exact Hn.
Defined.

(** ** The verification call *)

(** A field of a classification, with the default the code reads it with. *)
Definition classified (fields : list (pystr * json)) (k : string) (dflt : json) : json :=
  default dflt (assoc (py k) fields).

Lemma get_classified fields k dflt :
  get (JObj fields) (py k) dflt = Ok (classified fields k dflt).
Proof. reflexivity. Qed.

Lemma py_ge_num_int z b : py_ge_num (JInt z) b = Ok (b <=? z).
Proof.
  unfold py_ge_num, num_ge. cbn. f_equal.
  destruct (Z.compare_spec z b), (Z.leb_spec b z); done || lia.
Qed.

(** Steps of a computation that makes no call. *)
Lemma io_pure_Ok {A B} (a : A) (k : A -> io B) w : (pure (Ok a) ≫= k) w = k a w.
Proof. reflexivity. Qed.

Lemma io_pure_Raise {A B} e (k : A -> io B) w : (pure (Raise e) ≫= k) w = (Raise e, w).
Proof. reflexivity. Qed.

Lemma io_mret {A B} (a : A) (k : A -> io B) w : (mret a ≫= k) w = k a w.
Proof. reflexivity. Qed.

Ltac io_step :=
  first [ rewrite get_classified | rewrite io_pure_Ok | rewrite io_pure_Raise
        | rewrite io_mret ].

Section Verification.
Variable py_str : json -> pystr.
Variable gemini : nat -> request -> reply.

(** The search logs its request whether it succeeds or fails, and never raises. *)
Lemma search_wri_evidence_log topic region program w :
  exists evidence,
    search_wri_evidence py_str gemini topic region program w
    = (Ok evidence,
       w ++ [Search topic (py_str region)
                    (if truthy program then py_str program else default_programs)]).
Proof.
  unfold search_wri_evidence, try_except, mbind, io_bind, generate_content, pure.
  destruct (gemini _ _) as [|text chunks]; [by eexists|].
  destruct (parse_response text) as [result|]; [|by eexists].
  destruct (ground result chunks); by eexists.
Qed.

(** The request of the verification call a classification leads to, if any. *)
Definition verification_of (fields : list (pystr * json)) : list request :=
  let score := classified fields "score" (JInt 0) in
  let has_connection := classified fields "has_connection" JNull in
  let topic := classified fields "topic" (JStr []) in
  let region := classified fields "region" (JStr []) in
  let program := classified fields "wri_program" (JStr []) in
  let partner_type := classified fields "partner_type" (JStr []) in
  match py_ge_num score 50 with
  | Ok true =>
      if truthy has_connection then
        match join_values (py " ")
                (filter (fun v => truthy v = true)
                        (search_parts py_str topic region program partner_type)) with
        | Ok (c :: q) =>
            [Search (c :: q)
                    (py_str (if truthy region then region else JStr (py "global")))
                    (if truthy program then py_str program else default_programs)]
        | _ => []
        end
      else []
  | _ => []
  end.

Lemma verify_log fields w :
  (verify py_str gemini (JObj fields) w).2 = w ++ verification_of fields.
Proof.
  unfold verify, verification_of. repeat io_step.
  destruct (py_ge_num _ 50) as [[|]|e]; repeat io_step; rewrite ?app_nil_r; try done.
  destruct (truthy (classified fields "has_connection" JNull)); repeat io_step;
    rewrite ?app_nil_r; [|done].
  destruct (join_values _ _) as [[|c q]|e]; repeat io_step; rewrite ?app_nil_r;
    try done.
  unfold mbind, io_bind.
  destruct (search_wri_evidence_log (c :: q)
              (if truthy (classified fields "region" (JStr []))
               then classified fields "region" (JStr []) else JStr (py "global"))
              (classified fields "wri_program" (JStr [])) w) as [evidence ->].
  done.
Qed.

Lemma analyze_wri_trace_log t w conv_text text chunks fields :
  get_conversation_text py_str t = Ok conv_text ->
  gemini (length w) (Classify conv_text) = Response text chunks ->
  parse_response text = Ok (JObj fields) ->
  (analyze_wri_trace py_str gemini t w).2
  = w ++ Classify conv_text :: verification_of fields.
Proof.
  intros Hconv Hg Hp. unfold analyze_wri_trace. rewrite Hconv. io_step.
  unfold try_except. unfold mbind at 1, io_bind at 1, generate_content.
  rewrite Hg, Hp. io_step.
  pose proof (verify_log fields (w ++ [Classify conv_text])) as Hlog.
  unfold mbind at 1, io_bind at 1.
  destruct (verify py_str gemini (JObj fields) _) as [[[analysis' reason]|e] w'].
  - cbn [snd] in Hlog. subst w'. rewrite <- app_assoc. cbn [Datatypes.app].
    destruct (get analysis' (py "score") (JInt 0)) as [score|e]; by repeat io_step.
  - cbn [snd] in Hlog. subst w'. by rewrite <- app_assoc.
Qed.
End Verification.

(** A service whose classification has a score of 50 and a connection, and
    no other field. *)
Definition bare_gemini (n : nat) (rq : request) : reply :=
  match rq with
  | Classify _ => Response (Some (js "{'score':50,'has_connection':true}")) []
  | _ => Fails
  end.

(** Claim C4, as stated, fails for a classification with a score of 50 and
    a connection whose topic, region, program and partner type are all
    missing or empty: the search query is then empty and the test
    [if search_query:] skips the verification call, so the trace leads to no
    search call at all. *)
Lemma C4_no_call_without_query :
  analyze_wri_trace text_only bare_gemini trace_a []
  = (Ok (entry (Some (py "a")) (JInt 50)
               (JStr (py "No specific WRI connection identified."))),
     [Classify (py "User: hi")]).
Proof. reflexivity. Qed.

(** Claim C4, amended.  For a trace whose classification decodes to a
    dict, the calls the analysis of the trace adds to the log are the
    classification call and at most one search call.  There is no search
    call when the score is 49, and more generally when [score >= 50] does
    not hold, when [has_connection] is false, and when the search query is
    empty or cannot be built.  When the score is at least 50,
    [has_connection] is true and the search query is not empty, there is
    exactly one search call, for that query. *)
Theorem C4_verification_call py_str gemini (t : trace) (w : list request)
    (conv_text : pystr) (text : option pystr) (chunks : list (option web))
    (fields : list (pystr * json)) :
  get_conversation_text py_str t = Ok conv_text ->
  gemini (length w) (Classify conv_text) = Response text chunks ->
  parse_response text = Ok (JObj fields) ->
  let score := classified fields "score" (JInt 0) in
  let has_connection := classified fields "has_connection" JNull in
  let topic := classified fields "topic" (JStr []) in
  let region := classified fields "region" (JStr []) in
  let program := classified fields "wri_program" (JStr []) in
  let partner_type := classified fields "partner_type" (JStr []) in
  let search_query :=
    join_values (py " ")
      (filter (fun v => truthy v = true)
              (search_parts py_str topic region program partner_type)) in
  let log := (analyze_wri_trace py_str gemini t w).2 in
  (score = JInt 49 -> log = w ++ [Classify conv_text])
  /\ (py_ge_num score 50 <> Ok true -> log = w ++ [Classify conv_text])
  /\ (truthy has_connection = false -> log = w ++ [Classify conv_text])
  /\ (search_query = Ok [] -> log = w ++ [Classify conv_text])
  /\ (forall e, search_query = Raise e -> log = w ++ [Classify conv_text])
  /\ (forall c q,
        py_ge_num score 50 = Ok true -> truthy has_connection = true ->
        search_query = Ok (c :: q) ->
        log = w ++ [Classify conv_text;
                    Search (c :: q)
                           (py_str (if truthy region then region else JStr (py "global")))
                           (if truthy program then py_str program else default_programs)]).
Proof.
  intros Hconv Hg Hp. cbv zeta.
  rewrite (analyze_wri_trace_log _ _ _ _ _ _ _ _ Hconv Hg Hp).
  unfold verification_of.
  split; [|split; [|split; [|split; [|split]]]].
  - by intros ->.
  - intros H. by destruct (py_ge_num _ 50) as [[|]|e].
  - intros ->. by destruct (py_ge_num _ 50) as [[|]|e].
  - intros ->. destruct (py_ge_num _ 50) as [[|]|e]; [|done..].
    by destruct (truthy _).
  - intros e ->. destruct (py_ge_num _ 50) as [[|]|e']; [|done..].
    by destruct (truthy _).
  - intros c q -> -> ->. done.
Qed.

(** A service whose classification names a topic, and whose searches fail. *)
Definition topical_gemini (n : nat) (rq : request) : reply :=
  match rq with
  | Classify _ =>
      Response (Some (js "{'score':50,'has_connection':true,'topic':'forests'}")) []
  | _ => Fails
  end.

Lemma C4_witness :
  (analyze_wri_trace text_only topical_gemini trace_a []).2
  = [Classify (py "User: hi"); Search (py "forests") (py "global") default_programs].
Proof.
  refine (proj2 (proj2 (proj2 (proj2 (proj2
            (C4_verification_call text_only topical_gemini trace_a [] (py "User: hi")
               (Some (js "{'score':50,'has_connection':true,'topic':'forests'}")) []
               [(py "score", JInt 50); (py "has_connection", JBool true);
                (py "topic", JStr (py "forests"))]
               eq_refl eq_refl eq_refl)))))
            102%N (py "orests") eq_refl eq_refl eq_refl).
Defined.

(** ** Failures of the service *)

(** A reply the caller cannot use: the call raised, or its text does not
    decode after the cleaning. *)
Definition unusable (r : reply) : Prop :=
  match r with
  | Fails => True
  | Response text _ => exists e, parse_response text = Raise e
  end.

Definition analysis_error (t : trace) : json :=
  entry (Trace.id t) (JInt 0) (JStr (py "Analysis error")).

Definition no_connection : json := JStr (py "No specific WRI connection identified.").

Section Failures.
Variable py_str : json -> pystr.
Variable gemini : nat -> request -> reply.

Lemma analyze_trace_batch_unusable batch category text w :
  is_category category = true -> traces_text py_str 0 batch = Ok text ->
  unusable (gemini (length w) (Score category text)) ->
  analyze_trace_batch py_str gemini batch category w
  = (Ok (JArr []), w ++ [Score category text]).
Proof.
  intros Hc Ht Hu. unfold analyze_trace_batch. rewrite Hc, Ht. repeat io_step.
  unfold try_except, mbind at 1, io_bind at 1, generate_content.
  destruct (gemini _ _) as [|result_text chunks]; [done|].
  destruct Hu as [e He]. by rewrite He.
Qed.

(** The generic scorer raises nothing once the prompt is built. *)
Lemma analyze_trace_batch_returns batch category text w :
  is_category category = true -> traces_text py_str 0 batch = Ok text ->
  exists analyses,
    analyze_trace_batch py_str gemini batch category w
    = (Ok analyses, w ++ [Score category text]).
Proof.
  intros Hc Ht. unfold analyze_trace_batch. rewrite Hc, Ht. repeat io_step.
  unfold try_except, mbind at 1, io_bind at 1, generate_content.
  destruct (gemini _ _) as [|result_text chunks]; [by eexists|].
  destruct (parse_response result_text) as [result|e]; [|by eexists].
  repeat io_step. unfold pure. destruct (get result _ _); by eexists.
Qed.

Lemma collect_analyses_unusable category batch rest acc text w :
  is_category category = true -> str_eqb category wri_connections = false ->
  traces_text py_str 0 batch = Ok text ->
  unusable (gemini (length w) (Score category text)) ->
  collect_analyses py_str gemini category (batch :: rest) acc w
  = collect_analyses py_str gemini category rest acc (w ++ [Score category text]).
Proof.
  intros Hc Hw Ht Hu. cbn [collect_analyses]. unfold analyze_batch. rewrite Hw.
  unfold mbind at 1 2, io_bind.
  rewrite (analyze_trace_batch_unusable _ _ _ _ Hc Ht Hu).
  cbn [iterate pure]. by rewrite app_nil_r.
Qed.

Lemma analyze_wri_trace_unusable t conv_text w :
  get_conversation_text py_str t = Ok conv_text ->
  unusable (gemini (length w) (Classify conv_text)) ->
  analyze_wri_trace py_str gemini t w
  = (Ok (analysis_error t), w ++ [Classify conv_text]).
Proof.
  intros Ht Hu. unfold analyze_wri_trace. rewrite Ht. io_step.
  unfold try_except, mbind at 1, io_bind at 1, generate_content.
  destruct (gemini _ _) as [|result_text chunks]; [done|].
  destruct Hu as [e He]. by rewrite He.
Qed.

(** The analysis of one trace raises nothing once its transcript is rendered,
    and makes the classification call. *)
Lemma analyze_wri_trace_returns t conv_text w :
  get_conversation_text py_str t = Ok conv_text ->
  exists r w',
    analyze_wri_trace py_str gemini t w = (Ok r, w ++ Classify conv_text :: w').
Proof.
  intros Ht. unfold analyze_wri_trace. rewrite Ht. io_step.
  unfold try_except, mbind at 1, io_bind at 1, generate_content.
  destruct (gemini _ _) as [|result_text chunks]; [by exists (analysis_error t), []|].
  destruct (parse_response result_text) as [result|e];
    [|by exists (analysis_error t), []].
  io_step. unfold mbind at 1, io_bind at 1.
  assert (Hext : exists w', (verify py_str gemini result (w ++ [Classify conv_text])).2
                            = w ++ Classify conv_text :: w').
  { destruct result as [| | | | | |fields];
      try (exists []; reflexivity).
    exists (verification_of py_str fields). by rewrite verify_log, <- app_assoc. }
  destruct Hext as [w' Hw'].
  destruct (verify _ _ _ _) as [[[analysis' reason]|e] w1]; cbn [snd] in Hw'; subst w1.
  - destruct (get analysis' (py "score") (JInt 0)) as [score|e]; repeat io_step;
      by eexists _, _.
  - by eexists _, _.
Qed.

Lemma analyze_wri_connections_batch_returns traces w :
  Forall (fun t => exists conv_text, get_conversation_text py_str t = Ok conv_text) traces ->
  exists results w',
    analyze_wri_connections_batch py_str gemini traces w = (Ok results, w ++ w')
    /\ length results = length traces.
Proof.
  revert w. induction traces as [|t rest IH]; intros w Hall.
  - exists [], []. by rewrite app_nil_r.
  - apply Forall_cons in Hall as [[conv_text Ht] Hall].
    destruct (analyze_wri_trace_returns t conv_text w Ht) as (r & w1 & Hr).
    destruct (IH (w ++ Classify conv_text :: w1) Hall) as (rs & w2 & Hrs & Hlen).
    exists (r :: rs), (Classify conv_text :: w1 ++ w2).
    cbn [analyze_wri_connections_batch]. unfold mbind at 1, io_bind at 1. rewrite Hr.
    unfold mbind at 1, io_bind at 1. rewrite Hrs. cbn [mret io_ret length].
    split; [|by rewrite Hlen]. by rewrite <- app_assoc.
Qed.

Lemma search_wri_evidence_unusable topic region program w :
  unusable (gemini (length w)
              (Search topic (py_str region)
                      (if truthy program then py_str program else default_programs))) ->
  search_wri_evidence py_str gemini topic region program w
  = (Ok no_evidence,
     w ++ [Search topic (py_str region)
                  (if truthy program then py_str program else default_programs)]).
Proof.
  intros Hu. unfold search_wri_evidence, try_except, mbind at 1, io_bind at 1,
    generate_content.
  destruct (gemini _ _) as [|result_text chunks]; [done|].
  destruct Hu as [e He]. by rewrite He.
Qed.

Lemma apply_evidence_none analysis reason :
  apply_evidence py_str analysis no_evidence reason = Ok (analysis, reason).
Proof. reflexivity. Qed.

Lemma verify_unverified fields rq w :
  verification_of py_str fields = [rq] ->
  unusable (gemini (length w) rq) ->
  verify py_str gemini (JObj fields) w
  = (Ok (JObj fields, classified fields "story" no_connection), w ++ [rq]).
Proof.
  unfold verify, verification_of. repeat io_step.
  destruct (py_ge_num _ 50) as [[|]|e]; [|done..]. repeat io_step.
  destruct (truthy (classified fields "has_connection" JNull)); [|done]. repeat io_step.
  destruct (join_values _ _) as [[|c q]|e]; [done| |done]. repeat io_step.
  intros [= <-] Hu. unfold mbind at 1, io_bind at 1.
  rewrite (search_wri_evidence_unusable _ _ _ _ Hu). unfold pure.
  by rewrite apply_evidence_none.
Qed.

Lemma analyze_wri_trace_unverified t w conv_text text chunks fields rq :
  get_conversation_text py_str t = Ok conv_text ->
  gemini (length w) (Classify conv_text) = Response text chunks ->
  parse_response text = Ok (JObj fields) ->
  verification_of py_str fields = [rq] ->
  unusable (gemini (S (length w)) rq) ->
  analyze_wri_trace py_str gemini t w
  = (Ok (entry (Trace.id t) (classified fields "score" (JInt 0))
               (classified fields "story" no_connection)),
     w ++ [Classify conv_text; rq]).
Proof.
  intros Ht Hg Hp Hv Hu. unfold analyze_wri_trace. rewrite Ht. io_step.
  unfold try_except, mbind at 1, io_bind at 1, generate_content.
  rewrite Hg, Hp. io_step. unfold mbind at 1, io_bind at 1.
  rewrite (verify_unverified fields rq); [|done|].
  - repeat io_step. by rewrite <- app_assoc.
  - by rewrite length_app, Nat.add_1_r.
Qed.
End Failures.

(** A service whose classification scores 80 with a story, and whose
    searches fail. *)
Definition storied_gemini (n : nat) (rq : request) : reply :=
  match rq with
  | Classify _ =>
      Response
        (Some (js ("{'score':80,'has_connection':true,'topic':'forests',"
                   ++ "'story':'Restoration work.'}"))) []
  | _ => Fails
  end.

(** Claim C7, as stated, fails for the second call of the WRI pipeline: when
    the classification succeeds and the search call fails, the failure is
    absorbed by the search itself, and the result of the trace keeps the
    score and the story of the classification instead of score 0 and
    [Analysis error]. *)
Lemma C7_failed_search_keeps_score :
  storied_gemini 1 (Search (py "forests") (py "global") default_programs) = Fails
  /\ analyze_wri_trace text_only storied_gemini trace_a []
     = (Ok (entry (Some (py "a")) (JInt 80) (JStr (py "Restoration work."))),
        [Classify (py "User: hi");
         Search (py "forests") (py "global") default_programs]).
Proof. split; reflexivity. Qed.

(** Claim C7, amended.  When the call of the generic scorer fails or its
    text does not decode, the scorer returns the empty list and the
    orchestrator goes on with the remaining batches.  In the WRI pipeline,
    when the classification call of a trace fails or its text does not
    decode, the result of the trace is score 0 with [Analysis error] and the
    remaining traces are processed; when the classification decodes and the
    search call fails or does not decode, the result of the trace is the
    score and the story of the classification.  Once the prompts are built,
    neither analyser raises, whatever the service answers. *)
Theorem C7_failures_absorbed py_str gemini :
  (forall category batch rest acc text w,
      is_category category = true -> str_eqb category wri_connections = false ->
      traces_text py_str 0 batch = Ok text ->
      unusable (gemini (length w) (Score category text)) ->
      analyze_trace_batch py_str gemini batch category w
      = (Ok (JArr []), w ++ [Score category text])
      /\ collect_analyses py_str gemini category (batch :: rest) acc w
         = collect_analyses py_str gemini category rest acc (w ++ [Score category text]))
  /\ (forall t rest conv_text w,
        get_conversation_text py_str t = Ok conv_text ->
        unusable (gemini (length w) (Classify conv_text)) ->
        analyze_wri_trace py_str gemini t w
        = (Ok (analysis_error t), w ++ [Classify conv_text])
        /\ analyze_wri_connections_batch py_str gemini (t :: rest) w
           = (rs ← analyze_wri_connections_batch py_str gemini rest;
              mret (analysis_error t :: rs)) (w ++ [Classify conv_text]))
  /\ (forall t w conv_text text chunks fields rq,
        get_conversation_text py_str t = Ok conv_text ->
        gemini (length w) (Classify conv_text) = Response text chunks ->
        parse_response text = Ok (JObj fields) ->
        verification_of py_str fields = [rq] ->
        unusable (gemini (S (length w)) rq) ->
        analyze_wri_trace py_str gemini t w
        = (Ok (entry (Trace.id t) (classified fields "score" (JInt 0))
                     (classified fields "story" no_connection)),
           w ++ [Classify conv_text; rq]))
  /\ (forall batch category text w,
        is_category category = true -> traces_text py_str 0 batch = Ok text ->
        exists analyses,
          analyze_trace_batch py_str gemini batch category w
          = (Ok analyses, w ++ [Score category text]))
  /\ (forall traces w,
        Forall (fun t => exists conv_text, get_conversation_text py_str t = Ok conv_text)
               traces ->
        exists results w',
          analyze_wri_connections_batch py_str gemini traces w = (Ok results, w ++ w')
          /\ length results = length traces).
Proof.
  split; [|split; [|split; [|split]]].
  - intros category batch rest acc text w Hc Hw Ht Hu. split.
    + by apply analyze_trace_batch_unusable.
    + by apply collect_analyses_unusable.
  - intros t rest conv_text w Ht Hu.
    pose proof (analyze_wri_trace_unusable py_str gemini t conv_text w Ht Hu) as Hr.
    split; [exact Hr|].
    cbn [analyze_wri_connections_batch]. unfold mbind at 1, io_bind at 1. by rewrite Hr.
  - apply analyze_wri_trace_unverified.
  - apply analyze_trace_batch_returns.
  - apply analyze_wri_connections_batch_returns.
Qed.

(** A service whose every call fails. *)
Definition silent_gemini (n : nat) (rq : request) : reply := Fails.

Lemma C7_witness :
  analyze_wri_trace text_only silent_gemini trace_a []
  = (Ok (analysis_error trace_a), [Classify (py "User: hi")])
  /\ analyze_wri_connections_batch text_only silent_gemini [trace_a; trace_b] []
     = (Ok [analysis_error trace_a; analysis_error trace_b],
        [Classify (py "User: hi"); Classify (py "User: hola")]).
Proof.
  destruct (proj1 (proj2 (C7_failures_absorbed text_only silent_gemini))
              trace_a [trace_b] (py "User: hi") [] eq_refl I) as [H1 H2].
  split; [exact H1|]. rewrite H2. reflexivity.
Defined.

(** * Further properties *)

(** ** The dict of analysed categories *)

Lemma items_get_set l k v : items_get k (items_set k v l) = Some v.
Proof.
  induction l as [|[k' v'] l IH]; cbn [items_set items_get].
  - unfold str_eqb. by rewrite bool_decide_eq_true_2.
  - destruct (str_eqb k' k) eqn:E; cbn [items_get]; by rewrite E.
Qed.

Lemma items_get_set_ne l k k' v : k <> k' -> items_get k' (items_set k v l) = items_get k' l.
Proof.
  intros Hne. induction l as [|[k2 v2] l IH]; cbn [items_set items_get].
  - unfold str_eqb. by rewrite bool_decide_eq_false_2.
  - destruct (str_eqb k2 k) eqn:E; cbn [items_get]; [|by rewrite IH].
    destruct (str_eqb k2 k') eqn:E'; [|done].
    unfold str_eqb in E, E'. apply bool_decide_eq_true in E, E'. congruence.
Qed.

Lemma items_set_id l k v : items_get k l = Some v -> items_set k v l = l.
Proof.
  induction l as [|[k' v'] l IH]; [done|]. cbn [items_set items_get].
  destruct (str_eqb k' k); [by intros [= ->]|]. intros H. by rewrite IH.
Qed.

Lemma flags_lookup_insert (d : flags) k v : <[k := v]> d !! k = Some v.
Proof. apply items_get_set. Qed.

Lemma flags_lookup_insert_ne (d : flags) k k' v : k <> k' -> <[k := v]> d !! k' = d !! k'.
Proof. apply items_get_set_ne. Qed.

(** Setting a flag that is set changes nothing. *)
Lemma flags_insert_id (d : flags) k v : d !! k = Some v -> <[k := v]> d = d.
Proof.
  destruct d as [l]. unfold lookup, flags_lookup, insert, flags_insert. cbn [items].
  intros H. by rewrite items_set_id.
Qed.

Lemma flags_insert_insert (d : flags) k v : <[k := v]> (<[k := v]> d) = <[k := v]> d.
Proof. apply flags_insert_id, flags_lookup_insert. Qed.

Lemma elem_of_keys (d : flags) k : k ∈ keys d <-> is_Some (d !! k).
Proof.
  destruct d as [l]. unfold keys, lookup, flags_lookup. cbn [items].
  induction l as [|[k' v'] l IH]; cbn [items_get fmap list_fmap fst].
  - split; [by intros ?%elem_of_nil | by intros [? ?]].
  - rewrite elem_of_cons, IH.
    destruct (str_eqb k' k) eqn:E; unfold str_eqb in E;
      [apply bool_decide_eq_true in E | apply bool_decide_eq_false in E].
    + split; [by eauto | intros _; by left].
    + split; [intros [->|H]; done | intros H; by right].
Qed.

(** A new key goes to the end of the dict; a key the dict holds stays where
    it is. *)
Lemma keys_insert (d : flags) k v :
  keys (<[k := v]> d) = if bool_decide (k ∈ keys d) then keys d else keys d ++ [k].
Proof.
  destruct d as [l]. unfold keys, insert, flags_insert. cbn [items].
  induction l as [|[k' v'] l IH]; cbn [items_set fmap list_fmap fst].
  - by rewrite bool_decide_eq_false_2 by by intros ?%elem_of_nil.
  - destruct (str_eqb k' k) eqn:E; unfold str_eqb in E;
      [apply bool_decide_eq_true in E | apply bool_decide_eq_false in E];
      cbn [fmap list_fmap fst].
    + subst k'. by rewrite bool_decide_eq_true_2 by left.
    + rewrite IH. case_bool_decide as Hin.
      * by rewrite bool_decide_eq_true_2 by by right.
      * rewrite bool_decide_eq_false_2; [done|].
        intros [->|H]%elem_of_cons; done.
Qed.

(** ** What the parser stores *)

(** The turns the input loop appends: texts that are not empty. *)
Lemma input_turns_contents msgs conv0 conv :
  input_turns msgs conv0 = Ok conv ->
  exists extra, conv = conv0 ++ extra
    /\ Forall (fun m => exists c s, content m = JStr (c :: s)) extra.
Proof.
  revert conv0. induction msgs as [|msg rest IH]; intros conv0 H.
  - injection H as <-. exists []. by rewrite app_nil_r.
  - cbn [input_turns] in H.
    destruct (get msg (py "content") (JStr [])) as [c|] eqn:Ec; [|done].
    cbn [mbind res_bind] in H.
    destruct (truthy c && is_str c) eqn:Et.
    + destruct (get msg (py "type") (JStr (py "human"))) as [r|] eqn:Er; [|done].
      cbn [mbind res_bind] in H. apply IH in H as (extra & -> & Hx).
      exists (Turn r c :: extra). rewrite <- app_assoc. split; [done|].
      constructor; [|done]. apply andb_true_iff in Et as [Ht Hs].
      destruct c as [| | | |[|x s]| |]; try done. by exists x, s.
    + apply IH in H as (extra & -> & Hx). by exists extra.
Qed.

(** Every turn of [extra] has a content that is equal to none of [seen] and
    to none of the turns before it. *)
Fixpoint fresh_turns (seen : list json) (extra : list turn) : Prop :=
  match extra with
  | [] => True
  | m :: rest =>
      existsb (key_eq (content m)) seen = false
      /\ fresh_turns (seen ++ [content m]) rest
  end.

(** The turns the output loop appends: contents that are true, hashable and new. *)
Lemma output_turns_contents msgs seen conv0 conv :
  output_turns msgs seen conv0 = Ok conv ->
  exists extra, conv = conv0 ++ extra
    /\ Forall (fun m => truthy (content m) = true /\ hashable (content m) = true) extra
    /\ fresh_turns seen extra.
Proof.
  revert seen conv0. induction msgs as [|msg rest IH]; intros seen conv0 H.
  - injection H as <-. exists []. by rewrite app_nil_r.
  - cbn [output_turns] in H.
    destruct (output_content msg) as [c|] eqn:Ec; [|done].
    cbn [mbind res_bind] in H.
    destruct (truthy c) eqn:Et.
    + unfold set_mem in H. destruct (hashable c) eqn:Eh; [|done].
      cbn [fmap res_fmap mbind res_bind] in H.
      destruct (existsb (key_eq c) seen) eqn:Ee; cbn [negb] in H.
      * apply IH in H as (extra & -> & Hx). by exists extra.
      * destruct (get msg (py "type") (JStr (py "ai"))) as [r|] eqn:Er; [|done].
        cbn [mbind res_bind] in H. apply IH in H as (extra & -> & Hx & Hf).
        exists (Turn r c :: extra). rewrite <- app_assoc. split; [done|].
        split; [by constructor|]. done.
    + cbn [mbind res_bind] in H. apply IH in H as (extra & -> & Hx). by exists extra.
Qed.

Lemma fresh_turns_lookup seen extra j m' :
  fresh_turns seen extra -> extra !! j = Some m' ->
  forall x, x ∈ seen ++ (content <$> take j extra) -> key_eq (content m') x = false.
Proof.
  revert seen j. induction extra as [|m rest IH]; intros seen j Hf Hj x Hx; [done|].
  destruct Hf as [Hm Hf]. destruct j as [|j].
  - injection Hj as <-. cbn in Hx. rewrite app_nil_r in Hx.
    destruct (key_eq (content m) x) eqn:E; [|done].
    assert (existsb (key_eq (content m)) seen = true); [|congruence].
    apply existsb_exists. exists x. split; [by apply list_elem_of_In|done].
  - cbn in Hj. apply (IH _ _ Hf Hj). cbn in Hx.
    by rewrite <- app_assoc.
Qed.

(** The conversation splits into the turns of the input side and those of
    the output side. *)
Lemma conversation_of_parts input_data output_data conv :
  conversation_of input_data output_data = Ok conv ->
  exists ims oms ic oc,
    messages_of input_data = Ok ims /\ messages_of output_data = Ok oms
    /\ input_turns ims [] = Ok ic
    /\ output_turns oms (content <$> ic) ic = Ok (ic ++ oc)
    /\ conv = ic ++ oc.
Proof.
  unfold conversation_of, messages_of.
  destruct (get input_data _ _) as [im|]; [|done].
  destruct (get output_data _ _) as [om|]; [|done]. cbn [mbind res_bind].
  destruct (iterate im) as [ims|]; [|done]. cbn [mbind res_bind].
  destruct (input_turns ims []) as [ic|] eqn:Ei; [|done]. cbn [mbind res_bind].
  destruct (iterate om) as [oms|]; [|done]. cbn [mbind res_bind].
  intros H. destruct (output_turns_contents _ _ _ _ H) as (oc & -> & _).
  by exists ims, oms, ic, oc.
Qed.

Lemma conversation_of_contents input_data output_data conv :
  conversation_of input_data output_data = Ok conv ->
  Forall (fun m => truthy (content m) = true /\ hashable (content m) = true) conv.
Proof.
  intros H. destruct (conversation_of_parts _ _ _ H) as (ims & oms & ic & oc & _ & _ & Hi & Ho & ->).
  apply input_turns_contents in Hi as (extra & -> & Hx). cbn in *.
  apply output_turns_contents in Ho as (oc' & Hoc & Hy & _).
  apply app_inv_head in Hoc as <-.
  apply Forall_app. split; [|done].
  eapply Forall_impl; [exact Hx|]. intros m (c & s & ->). done.
Qed.

(** ** Rows that do not decode *)

(** What the decoder raises: a malformed document, or an integer with too
    many digits. *)
Definition decoder_error (e : exn) : Prop := e = JSONDecodeError \/ e = ValueError.

Lemma match_number_error s e : match_number s = Some (Raise e) -> e = ValueError.
Proof. unfold match_number. repeat case_match; congruence. Qed.

Lemma scan_errors f :
  (forall s e, scan_once f s = Raise e -> decoder_error e)
  /\ (forall acc s e, parse_array f acc s = Raise e -> decoder_error e)
  /\ (forall acc s e, parse_object f acc s = Raise e -> decoder_error e).
Proof.
  induction f as [|f (IH1 & IH2 & IH3)].
  { repeat split; intros; left; cbn in *; unfold decode_error in *; congruence. }
  repeat split.
  - intros s e H. cbn [scan_once] in H. unfold decode_error in H.
    repeat (case_match; simplify_eq); try (by left); eauto.
    right. by eapply match_number_error.
  - intros acc s e H. cbn [parse_array] in H. unfold decode_error in H.
    destruct (scan_once f s) as [[v r]|e'] eqn:E; cbn [mbind res_bind] in H.
    + repeat (case_match; simplify_eq); try (by left); eauto.
    + injection H as <-. eauto.
  - intros acc s e H. cbn [parse_object] in H. unfold decode_error in H.
    repeat (case_match; simplify_eq); try (by left).
    destruct (scan_once f _) as [[v r']|e'] eqn:E; cbn [mbind res_bind] in H.
    + repeat (case_match; simplify_eq); try (by left); eauto.
    + injection H as <-. eauto.
Qed.

Lemma json_loads_error s e : json_loads s = Raise e -> decoder_error e.
Proof.
  unfold json_loads.
  destruct (scan_once _ _) as [[v r]|e'] eqn:E; cbn [mbind res_bind].
  - unfold decode_error. case_match; [done|]. intros [= <-]. by left.
  - intros [= <-]. by eapply (proj1 (scan_errors _)).
Qed.

Lemma decoder_error_caught e : decoder_error e -> parser_catches e = true.
Proof. by intros [-> | ->]. Qed.

Lemma row_trace_undecoded (ud : N -> option Z) (r : row) :
  raises (row_json r (py "input")) \/ raises (row_json r (py "output")) ->
  exists e, row_trace ud r = Raise e /\ decoder_error e.
Proof.
  intros H. unfold row_trace, row_conversation.
  destruct (row_json r (py "input")) as [i|e] eqn:Ei.
  - destruct H as [[e H]|[e H]]; [done|]. rewrite H. exists e.
    split; [done|]. by eapply json_loads_error.
  - exists e. split; [done|]. by eapply json_loads_error.
Qed.

(** The text of a JSON column: [row.get(k, '{}') or '{}']. *)
Definition row_column (r : row) (k : pystr) : pystr := default (py "{}") (row_text r k).

(** The number of opening brackets and braces of a text, which bounds how
    deep its arrays and objects nest, and so how deep the decoder recurses. *)
Definition openings (s : pystr) : nat :=
  length (filter (fun c => is_char "{" c || is_char "[" c = true) s).

(** A text that nests well within the interpreter's recursion limit (1000
    frames by default, a few of them in use when the parser runs): on such
    a text the decoder never raises [RecursionError], which is the one
    exception of the decoder that [json_loads] leaves out. *)
Definition shallow (s : pystr) : Prop := (openings s <= 100)%nat.

(** Property X3.  A row whose [input] or [output] column does not decode,
    the texts of both columns being shallow, is skipped: what the decoder
    raises, [JSONDecodeError] or [ValueError], is caught by the handler, and
    the rows after it are parsed as if it were not there. *)
Theorem X3_undecoded_row_skipped (ud : N -> option Z) (r : row) (rest : list row) :
  shallow (row_column r (py "input")) -> shallow (row_column r (py "output")) ->
  raises (json_loads (row_column r (py "input")))
  \/ raises (json_loads (row_column r (py "output"))) ->
  (exists e, parse_row ud r = Ok (Skipped e) /\ (e = JSONDecodeError \/ e = ValueError))
  /\ parse_traces ud (r :: rest) = parse_traces ud rest.
Proof.
  intros _ _ H. destruct (row_trace_undecoded ud r H) as (e & He & Hd).
  assert (Hs : parse_row ud r = Ok (Skipped e)).
  { unfold parse_row. by rewrite He, (decoder_error_caught _ Hd). }
  split; [by exists e|]. by eapply parse_traces_skipped.
Qed.

(** A row whose input column is cut short, before a row that loads. *)
Definition truncated_row : row := <[py "input" := Some (js "{'messages':[")]> sample_row.

Lemma X3_witness :
  parse_traces ascii_digits_only [truncated_row; sample_row]
  = parse_traces ascii_digits_only [sample_row].
Proof.
  apply (X3_undecoded_row_skipped ascii_digits_only truncated_row [sample_row]).
  - unfold shallow. vm_compute. lia.
  - unfold shallow. vm_compute. lia.
  - left. exists JSONDecodeError. vm_compute. reflexivity.
Defined.

(** ** Columns that decode to something else than an object *)

Lemma row_trace_not_object (ud : N -> option Z) (r : row) input_data output_data :
  row_json r (py "input") = Ok input_data ->
  row_json r (py "output") = Ok output_data ->
  is_dict input_data && is_dict output_data = false ->
  row_trace ud r = Raise AttributeError.
Proof.
  intros Hi Ho Hd. unfold row_trace, row_conversation, conversation_of.
  rewrite Hi, Ho. cbn [mbind res_bind].
  destruct input_data; try done. destruct output_data; done.
Qed.

(** Property X4.  A row whose [input] and [output] columns both decode, one
    of them to a value that is not an object, ends the parsing: the call of
    [.get] on that value raises [AttributeError], which the handler does
    not catch, so a list of rows that holds such a row yields no trace at
    all. *)
Theorem X4_column_not_object_stops_load (ud : N -> option Z) (r : row) input_data output_data :
  row_json r (py "input") = Ok input_data ->
  row_json r (py "output") = Ok output_data ->
  is_dict input_data && is_dict output_data = false ->
  parse_row ud r = Raise AttributeError
  /\ forall before rest, raises (parse_traces ud (before ++ r :: rest)).
Proof.
  intros Hi Ho Hd.
  assert (Hr : parse_row ud r = Raise AttributeError).
  { unfold parse_row. by rewrite (row_trace_not_object ud r _ _ Hi Ho Hd). }
  split; [exact Hr|]. intros before rest.
  induction before as [|b before [e IH]]; cbn [Datatypes.app parse_traces].
  - rewrite Hr. by exists AttributeError.
  - destruct (parse_row ud b) as [o|e']; cbn [mbind res_bind]; [|by exists e'].
    rewrite IH. by exists e.
Qed.

(** A row whose input column is a JSON list. *)
Definition list_row : row := <[py "input" := Some (js "[]")]> sample_row.

Lemma X4_witness :
  parse_row ascii_digits_only list_row = Raise AttributeError
  /\ raises (parse_traces ascii_digits_only [sample_row; list_row; sample_row]).
Proof.
  destruct (X4_column_not_object_stops_load ascii_digits_only list_row (JArr [])
              (JObj [(py "messages",
                      JArr [JObj [(py "type", JStr (py "ai")); (py "content", JStr (py "hi"))];
                            JObj [(py "type", JStr (py "ai")); (py "content", JStr (py "hello"))]])]))
    as [H1 H2].
  - vm_compute. reflexivity.
  - vm_compute. reflexivity.
  - reflexivity.
  - split; [exact H1|]. apply (H2 [sample_row] [sample_row]).
Defined.

(** ** Loaded traces *)

Lemma parse_row_trace_of (ud : N -> option Z) (r : row) t :
  parse_row ud r = Ok (Loaded t) ->
  exists conv lat itok otok cost errs,
    row_conversation r = Ok conv /\ conv <> []
    /\ t = trace_of r conv lat itok otok cost errs.
Proof.
  unfold parse_row, row_trace.
  destruct (row_conversation r) as [conv|]; cbn [mbind res_bind];
    [|intros; by case_match].
  destruct (float_field ud r (py "latency")) as [lat|]; cbn [mbind res_bind];
    [|intros; by case_match].
  destruct (int_field ud r (py "inputTokens")) as [itok|]; cbn [mbind res_bind];
    [|intros; by case_match].
  destruct (int_field ud r (py "outputTokens")) as [otok|]; cbn [mbind res_bind];
    [|intros; by case_match].
  destruct (float_field ud r (py "totalCost")) as [cost|]; cbn [mbind res_bind];
    [|intros; by case_match].
  destruct (int_field ud r (py "errorCount")) as [errs|]; cbn [mbind res_bind];
    [|intros; by case_match].
  destruct conv as [|m conv]; [done|]. intros [= <-].
  by exists (m :: conv), lat, itok, otok, cost, errs.
Qed.

Lemma row_conversation_contents (r : row) conv :
  row_conversation r = Ok conv ->
  Forall (fun m => truthy (content m) = true /\ hashable (content m) = true) conv.
Proof.
  unfold row_conversation.
  destruct (row_json r (py "input")) as [i|]; [|done].
  destruct (row_json r (py "output")) as [o|]; [|done]. cbn [mbind res_bind].
  apply conversation_of_contents.
Qed.

(** What holds of a trace as the parser stores it. *)
Definition as_loaded (t : trace) : Prop :=
  Trace.conversation t <> []
  /\ Forall (fun m => truthy (content m) = true /\ hashable (content m) = true)
            (Trace.conversation t)
  /\ Trace.scores t = ∅ /\ Trace.analysis t = ∅.

(** Property X1.  Every trace the parser returns has a conversation that is
    not empty, in which the content of every turn is true and hashable, and
    has no score and no analysis yet; the ids of the returned traces follow
    the order of the rows they come from. *)
Theorem X1_loaded_traces (ud : N -> option Z) (rows : list row) (ts : list trace) :
  parse_traces ud rows = Ok ts ->
  Forall as_loaded ts
  /\ sublist (Trace.id <$> ts) ((fun r => row_get r (py "id")) <$> rows).
Proof.
  revert ts. induction rows as [|r rows IH]; intros ts H.
  - injection H as <-. split; constructor.
  - cbn [parse_traces] in H.
    destruct (parse_row ud r) as [o|] eqn:Er; [|done]. cbn [mbind res_bind] in H.
    destruct (parse_traces ud rows) as [ts'|]; [|done]. cbn [mbind res_bind] in H.
    injection H as <-. destruct (IH ts' eq_refl) as [Hall Hsub].
    destruct o as [t| |e]; [|split; [done|by constructor]..].
    destruct (parse_row_trace_of _ _ _ Er) as (conv & lat & itok & otok & cost & errs & Hc & Hne & ->).
    split.
    + constructor; [|done]. split; [done|]. split; [|done].
      by apply (row_conversation_contents r).
    + cbn. by constructor.
Qed.

Lemma X1_witness :
  Forall as_loaded [trace_of sample_row hi_hello float_zero 0 0 float_zero 0]
  /\ sublist (Trace.id <$> [trace_of sample_row hi_hello float_zero 0 0 float_zero 0])
             ((fun r => row_get r (py "id")) <$> [truncated_row; sample_row]).
Proof.
  apply (X1_loaded_traces ascii_digits_only [truncated_row; sample_row]).
  vm_compute. reflexivity.
Defined.

(** Property X2.  A conversation is the turns of the input messages
    followed by those of the output messages.  The content of an input turn
    is a text that is not empty; the content of an output turn is equal to
    the content of no turn before it, of the input side or of the output
    side. *)
Theorem X2_output_turns_are_new input_data output_data conv :
  conversation_of input_data output_data = Ok conv ->
  exists ims ic oc,
    messages_of input_data = Ok ims /\ input_turns ims [] = Ok ic
    /\ conv = ic ++ oc
    /\ Forall (fun m => exists c s, content m = JStr (c :: s)) ic
    /\ forall j m', oc !! j = Some m' ->
         forall m, m ∈ ic ++ take j oc -> key_eq (content m') (content m) = false.
Proof.
  intros H.
  destruct (conversation_of_parts _ _ _ H) as (ims & oms & ic & oc & Hi & Ho & Hic & Hoc & ->).
  exists ims, ic, oc. split; [done|]. split; [done|]. split; [done|]. split.
  - apply input_turns_contents in Hic as (extra & -> & Hx). done.
  - apply output_turns_contents in Hoc as (oc' & Heq & _ & Hf).
    apply app_inv_head in Heq as <-.
    intros j m' Hj m Hm. eapply fresh_turns_lookup; [exact Hf|exact Hj|].
    rewrite <- fmap_app. by apply list_elem_of_fmap_2.
Qed.

Lemma X2_witness :
  exists ims ic oc,
    messages_of (JObj [(py "messages",
                        JArr [JObj [(py "content", JStr (py "hi"))]])]) = Ok ims
    /\ input_turns ims [] = Ok ic
    /\ hi_hello = ic ++ oc
    /\ Forall (fun m => exists c s, content m = JStr (c :: s)) ic
    /\ forall j m', oc !! j = Some m' ->
         forall m, m ∈ ic ++ take j oc -> key_eq (content m') (content m) = false.
Proof.
  apply (X2_output_turns_are_new
           (JObj [(py "messages", JArr [JObj [(py "content", JStr (py "hi"))]])])
           (JObj [(py "messages",
                   JArr [JObj [(py "content", JStr (py "hi"))];
                         JObj [(py "content", JStr (py "hello"))]])])).
  reflexivity.
Defined.

(** ** Contents made of parts *)

(** Property X21.  An output message whose content is a list of parts has
    for content the texts of its text parts joined by newlines, every other
    part being ignored; when that text is empty the message gives no
    turn. *)
Theorem X21_content_of_parts (msg : json) (parts : list json) (texts : list pystr) :
  get msg (py "content") (JStr []) = Ok (JArr parts) ->
  Forall2 (fun p s => get p (py "text") (JStr []) = Ok (JStr s))
          (filter (fun p => is_text_part p = true) parts) texts ->
  output_content msg = Ok (JStr (join newline texts))
  /\ (join newline texts = [] ->
      forall rest seen conv,
        output_turns (msg :: rest) seen conv = output_turns rest seen conv).
Proof.
  intros Hc Ht.
  assert (Ho : output_content msg = Ok (JStr (join newline texts))).
  { unfold output_content. rewrite Hc. cbn [mbind res_bind].
    rewrite (text_parts_texts _ _ Ht). cbn [mbind res_bind].
    unfold join_values. by rewrite all_str_texts. }
  split; [exact Ho|]. intros Hj rest seen conv.
  cbn [output_turns]. rewrite Ho, Hj. reflexivity.
Qed.

(** A message of an assistant that calls a tool and says two things. *)
Definition parts_message : json :=
  JObj [(py "type", JStr (py "ai"));
        (py "content",
         JArr [JObj [(py "type", JStr (py "text")); (py "text", JStr (py "Looking."))];
               JObj [(py "type", JStr (py "tool_use")); (py "name", JStr (py "lookup"))];
               JStr (py "stray");
               JObj [(py "type", JStr (py "text")); (py "text", JStr (py "Found."))]])].

Lemma X21_witness :
  output_content parts_message = Ok (JStr (py "Looking." ++ newline ++ py "Found.")).
Proof.
  refine (proj1 (X21_content_of_parts parts_message _ [py "Looking."; py "Found."]
                   eq_refl _)).
  repeat constructor.
Defined.

(** ** A fenced block inside prose *)

(** A text without backtick. *)
Definition no_tick (s : pystr) : Prop := Forall (fun c => c <> 96%N) s.

(** No occurrence of [sep] starts inside [p] when [tail] follows it. *)
Fixpoint no_start (sep p tail : pystr) : bool :=
  match p with
  | [] => true
  | c :: p' => negb (startswith sep (p ++ tail)) && no_start sep p' tail
  end.

Lemma split_go_pass sep acc p tail :
  no_start sep p tail = true ->
  split_go sep O acc (p ++ tail) = split_go sep O (reverse p ++ acc) tail.
Proof.
  revert acc. induction p as [|c p IH]; intros acc H; [done|].
  cbn [no_start] in H. apply andb_prop in H as [Hs Hp].
  apply negb_true_iff in Hs. cbn [Datatypes.app split_go].
  change (c :: p ++ tail) with ((c :: p) ++ tail). rewrite Hs, (IH _ Hp).
  by rewrite reverse_cons, <- app_assoc.
Qed.

Lemma split_go_skip sep acc x rest :
  split_go sep (length x) acc (x ++ rest) = split_go sep O acc rest.
Proof. induction x as [|c x IH]; [done|]. exact IH. Qed.

Lemma startswith_app sep rest : startswith sep (sep ++ rest) = true.
Proof. induction sep as [|c sep IH]; [done|]. cbn. by rewrite N.eqb_refl. Qed.

Lemma split_go_hit sep acc rest :
  sep <> [] ->
  split_go sep O acc (sep ++ rest) = reverse acc :: split_go sep O [] rest.
Proof.
  intros Hne. destruct sep as [|c sep]; [done|].
  change ((c :: sep) ++ rest) with (c :: (sep ++ rest)). cbn [split_go].
  change (c :: sep ++ rest) with ((c :: sep) ++ rest). rewrite startswith_app.
  f_equal. apply split_go_skip.
Qed.

(** The pieces of a text in which [sep] first occurs right after [p]. *)
Lemma split_at_first sep p rest :
  sep <> [] -> no_start sep p (sep ++ rest) = true ->
  split sep (p ++ sep ++ rest) = p :: split sep rest.
Proof.
  intros Hne Hp. unfold split. rewrite (split_go_pass _ _ _ _ Hp), app_nil_r.
  by rewrite (split_go_hit _ _ _ Hne), reverse_involutive.
Qed.

Lemma contains_app sep p tail :
  no_start sep p tail = true -> contains sep (p ++ tail) = contains sep tail.
Proof.
  induction p as [|c p IH]; intros H; [done|].
  cbn [no_start] in H. apply andb_prop in H as [Hs Hp]. apply negb_true_iff in Hs.
  change ((c :: p) ++ tail) with (c :: (p ++ tail)). cbn [contains].
  change (c :: p ++ tail) with ((c :: p) ++ tail). by rewrite Hs, (IH Hp).
Qed.

Lemma startswith_fence_tick c s : startswith fence (c :: s) = true -> c = 96%N.
Proof.
  cbn. intros H. apply andb_prop in H as [H _]. apply N.eqb_eq in H. done.
Qed.

Lemma startswith_fence_ticks s :
  startswith fence s = true -> exists r, s = fence ++ r.
Proof.
  destruct s as [|a [|b [|c s]]]; cbn; rewrite ?andb_false_r; try done.
  intros H. repeat (apply andb_prop in H as [? H]).
  repeat match goal with E : (_ =? _)%N = true |- _ => apply N.eqb_eq in E end.
  subst. by exists s.
Qed.

(** Prose without backtick holds the start of no fence. *)
Lemma no_start_prose sep prose tail :
  (forall s, startswith sep s = true -> startswith fence s = true) ->
  no_tick prose -> no_start sep prose tail = true.
Proof.
  intros Hsep. induction 1 as [|c prose Hc _ IH]; [done|].
  cbn [no_start]. rewrite IH, andb_true_r. apply negb_true_iff.
  destruct (startswith sep ((c :: prose) ++ tail)) eqn:E; [|done].
  apply Hsep, startswith_fence_tick in E. done.
Qed.

Lemma no_tick_contains sep s :
  (forall s, startswith sep s = true -> startswith fence s = true) ->
  no_tick s -> contains sep s = false.
Proof.
  intros Hsep. induction 1 as [|c s Hc _ IH].
  - cbn. destruct (startswith sep []) eqn:E; [|done]. by apply Hsep in E.
  - cbn [contains]. rewrite IH, orb_false_r.
    destruct (startswith sep (c :: s)) eqn:E; [|done].
    apply Hsep, startswith_fence_tick in E. done.
Qed.

(** The payload between its two newlines holds the start of no fence. *)
Lemma no_start_block sep p tail :
  (forall s, startswith sep s = true -> startswith fence s = true) ->
  contains fence p = false -> no_start sep (newline ++ p ++ newline) tail = true.
Proof.
  intros Hsep H.
  assert (Hp : forall q, contains fence q = false ->
                 no_start sep (q ++ newline) tail = true).
  { induction q as [|c q IH]; intros Hq.
    - cbn. rewrite andb_true_r. apply negb_true_iff.
      destruct (startswith sep (10%N :: tail)) eqn:E; [|done].
      apply Hsep, startswith_fence_tick in E. done.
    - cbn [contains] in Hq. apply orb_false_elim in Hq as [Hs Hc].
      change ((c :: q) ++ newline) with (c :: (q ++ newline)). cbn [no_start].
      rewrite (IH Hc), andb_true_r. apply negb_true_iff.
      destruct (startswith sep _) eqn:E; [|done]. apply Hsep in E.
      change ((c :: q ++ newline) ++ tail) with (((c :: q) ++ newline) ++ tail) in E.
      rewrite <- app_assoc in E.
      apply (startswith_fence_before_newline (c :: q)) in E. congruence. }
  change (newline ++ p ++ newline) with (10%N :: (p ++ newline)). cbn [no_start].
  rewrite (Hp p H), andb_true_r. apply negb_true_iff.
  destruct (startswith sep _) eqn:E; [|done].
  apply Hsep, startswith_fence_tick in E. done.
Qed.

Lemma startswith_contains sep s : startswith sep s = true -> contains sep s = true.
Proof. intros H. destruct s; cbn [contains]; by rewrite H. Qed.

Lemma startswith_prefix p s : startswith p s = true -> exists r, s = p ++ r.
Proof.
  revert s. induction p as [|a p IH]; intros s H; [by exists s|].
  destruct s as [|b s]; [done|]. cbn in H. apply andb_prop in H as [Hab H].
  apply N.eqb_eq in Hab as ->. destruct (IH _ H) as [r ->]. by exists r.
Qed.

Lemma fence_starts_fence s : startswith fence s = true -> startswith fence s = true.
Proof. done. Qed.

Lemma contains_block p : contains fence p = false ->
  contains fence (newline ++ p ++ newline) = false.
Proof.
  intros H.
  pose proof (contains_app _ _ _ (no_start_block fence p [] fence_starts_fence H)) as Hc.
  by rewrite app_nil_r in Hc.
Qed.

(** After the closing fence, text without backtick that does not start with
    [json] completes no [json] fence. *)
Lemma contains_fence_json_after after :
  no_tick after -> startswith (py "json") after = false ->
  contains fence_json (fence ++ after) = false.
Proof.
  intros Ht Hj.
  assert (Hc : contains fence_json after = false)
    by (apply no_tick_contains; [apply startswith_fence_json | done]).
  change (fence ++ after) with (96%N :: 96%N :: 96%N :: after).
  cbn [contains]. rewrite Hc, !orb_false_r.
  change (startswith fence_json (96%N :: 96%N :: 96%N :: after))
    with (startswith (py "json") after).
  rewrite Hj. destruct after as [|a after]; [done|].
  apply Forall_cons in Ht as [Ha Ht].
  assert (H2 : startswith fence_json (96%N :: 96%N :: a :: after) = false).
  { destruct (startswith fence_json (96%N :: 96%N :: a :: after)) eqn:E; [|done].
    apply startswith_fence_json, startswith_fence_ticks in E as [r E].
    change (fence ++ r) with (96%N :: 96%N :: 96%N :: r) in E.
    injection E as E _. congruence. }
  assert (H1 : startswith fence_json (96%N :: a :: after) = false).
  { destruct (startswith fence_json (96%N :: a :: after)) eqn:E; [|done].
    apply startswith_fence_json, startswith_fence_ticks in E as [r E].
    change (fence ++ r) with (96%N :: 96%N :: 96%N :: r) in E.
    injection E as E _. congruence. }
  by rewrite H2, H1.
Qed.

Lemma clean_response_json_block prose payload after :
  no_tick prose -> no_tick after -> contains fence payload = false ->
  clean_response (prose ++ fence_json ++ newline ++ payload ++ newline ++ fence ++ after)
  = Ok (newline ++ payload ++ newline).
Proof.
  intros Hp Ha Hc. unfold clean_response.
  set (block := newline ++ payload ++ newline).
  assert (Et : prose ++ fence_json ++ newline ++ payload ++ newline ++ fence ++ after
               = prose ++ fence_json ++ block ++ fence ++ after).
  { unfold block. by rewrite <- !app_assoc. }
  rewrite Et. clear Et.
  rewrite (contains_app fence_json prose), (startswith_contains _ _ (startswith_app _ _))
    by (apply no_start_prose; [apply startswith_fence_json | done]).
  rewrite split_at_first;
    [|done|apply no_start_prose; [apply startswith_fence_json | done]].
  cbn [index lookup list_lookup mbind res_bind].
  assert (Hb : contains fence block = false) by by apply contains_block.
  assert (Hpiece : exists piece rest,
             split fence_json (block ++ fence ++ after) = piece :: rest
             /\ split fence piece !! 0%nat = Some block).
  { destruct (startswith (py "json") after) eqn:Ej.
    - apply startswith_prefix in Ej as [a' ->].
      exists block, (split fence_json a'). split.
      + change (fence ++ py "json" ++ a') with (fence_json ++ a').
        apply split_at_first; [done|].
        apply no_start_block; [apply startswith_fence_json | done].
      + unfold split. by rewrite (split_go_absent _ _ _ Hb).
    - exists (block ++ fence ++ after), []. split.
      + unfold split. apply split_go_absent.
        rewrite (contains_app fence_json block)
          by (apply no_start_block; [apply startswith_fence_json | done]).
        by apply contains_fence_json_after.
      + rewrite split_at_first; [done|done|].
        by apply no_start_block. }
  destruct Hpiece as (piece & rest & -> & Hs).
  cbn [index lookup list_lookup mbind res_bind]. unfold index. by rewrite Hs.
Qed.

Lemma clean_response_plain_block prose payload after :
  no_tick prose -> no_tick after -> contains fence payload = false ->
  startswith (py "json") after = false ->
  clean_response (prose ++ fence ++ newline ++ payload ++ newline ++ fence ++ after)
  = Ok (newline ++ payload ++ newline).
Proof.
  intros Hp Ha Hc Hj. unfold clean_response.
  set (block := newline ++ payload ++ newline).
  assert (Et : prose ++ fence ++ newline ++ payload ++ newline ++ fence ++ after
               = prose ++ fence ++ block ++ fence ++ after).
  { unfold block. by rewrite <- !app_assoc. }
  rewrite Et. clear Et.
  assert (Hb : contains fence block = false) by by apply contains_block.
  assert (Hno : contains fence_json (prose ++ fence ++ block ++ fence ++ after) = false).
  { rewrite (contains_app fence_json prose)
      by (apply no_start_prose; [apply startswith_fence_json | done]).
    assert (Hrest : contains fence_json (block ++ fence ++ after) = false).
    { rewrite (contains_app fence_json block)
        by (apply no_start_block; [apply startswith_fence_json | done]).
      by apply contains_fence_json_after. }
    change (fence ++ block ++ fence ++ after)
      with (96%N :: 96%N :: 96%N :: 10%N :: (payload ++ newline) ++ fence ++ after).
    change (block ++ fence ++ after)
      with (10%N :: (payload ++ newline) ++ fence ++ after) in Hrest.
    cbn [contains] in Hrest |- *. apply orb_false_elim in Hrest as [_ Hrest].
    rewrite Hrest. reflexivity. }
  rewrite Hno.
  rewrite (contains_app fence prose), (startswith_contains _ _ (startswith_app _ _))
    by by apply no_start_prose.
  rewrite split_at_first; [|done|by apply no_start_prose].
  rewrite split_at_first; [|done|by apply no_start_block].
  cbn [index lookup list_lookup mbind res_bind].
  unfold split. by rewrite (split_go_absent _ _ _ Hb).
Qed.

(** Property X5.  A response that holds one fenced block between prose
    without backticks decodes as the payload of the block, for a block
    tagged [json] and, when the text after the block does not start with
    [json], for a block without tag. *)
Theorem X5_fenced_block_in_prose (prose payload after : pystr) :
  no_tick prose -> no_tick after -> contains fence payload = false ->
  parse_response
    (Some (prose ++ fence_json ++ newline ++ payload ++ newline ++ fence ++ after))
  = json_loads (strip payload)
  /\ (startswith (py "json") after = false ->
      parse_response
        (Some (prose ++ fence ++ newline ++ payload ++ newline ++ fence ++ after))
      = json_loads (strip payload)).
Proof.
  intros Hp Ha Hc. split.
  - unfold parse_response. rewrite clean_response_json_block by done.
    cbn [mbind res_bind]. by rewrite strip_between_newlines.
  - intros Hj. unfold parse_response. rewrite clean_response_plain_block by done.
    cbn [mbind res_bind]. by rewrite strip_between_newlines.
Qed.

Lemma X5_witness :
  parse_response
    (Some (py "Here you are:" ++ fence_json ++ newline ++ js "{'score': 7}" ++ newline
           ++ fence ++ py " Done."))
  = json_loads (strip (js "{'score': 7}")).
Proof.
  refine (proj1 (X5_fenced_block_in_prose (py "Here you are:") (js "{'score': 7}")
                   (py " Done.") _ _ eq_refl)).
  - apply (bool_decide_unpack _). vm_compute. exact I.
  - apply (bool_decide_unpack _). vm_compute. exact I.
Defined.

(** ** Batches *)

Lemma concat_chunks {A} (n m : nat) (l : list A) :
  concat ((fun k => take n (drop (n * k) l)) <$> seq 0 m) = take (n * m) l.
Proof.
  induction m as [|m IH].
  - by rewrite Nat.mul_0_r.
  - rewrite seq_S, fmap_app, concat_app, IH. cbn [fmap list_fmap concat plus].
    rewrite app_nil_r, take_take_drop. f_equal. lia.
Qed.

Lemma batch_count_covers (n : nat) :
  (n <= batch_size * ((n + (batch_size - 1)) / batch_size))%nat.
Proof.
  unfold batch_size.
  pose proof (Nat.div_mod_eq (n + (5 - 1)) 5) as H.
  pose proof (Nat.mod_upper_bound (n + (5 - 1)) 5). lia.
Qed.

Lemma batch_count_tight (n k : nat) :
  (k < (n + (batch_size - 1)) / batch_size)%nat -> (batch_size * k < n)%nat.
Proof.
  unfold batch_size. intros Hk.
  pose proof (Nat.div_mod_eq (n + (5 - 1)) 5) as H.
  pose proof (Nat.mod_upper_bound (n + (5 - 1)) 5). lia.
Qed.

(** Property X8.  The batches of an analysis run are the traces in order,
    cut in groups: put end to end they are the trace list, each holds
    between one and five traces, there are [(n + 4) / 5] of them for [n]
    traces, and every batch but the last is full. *)
Theorem X8_batches_partition (traces : list trace) :
  concat (batches traces) = traces
  /\ Forall (fun batch => (1 <= length batch <= batch_size)%nat) (batches traces)
  /\ length (batches traces) = ((length traces + (batch_size - 1)) / batch_size)%nat
  /\ (forall i batch, batches traces !! S i = Some batch ->
        exists full, batches traces !! i = Some full /\ length full = batch_size).
Proof.
  unfold batches. split; [|split; [|split]].
  - rewrite concat_chunks. apply take_ge, batch_count_covers.
  - apply Forall_fmap, Forall_forall. intros k Hk. cbn.
    apply elem_of_seq in Hk as [_ Hk]. apply batch_count_tight in Hk.
    rewrite length_take, length_drop. unfold batch_size in *. lia.
  - by rewrite length_fmap, length_seq.
  - intros i batch Hb. rewrite list_lookup_fmap in Hb |- *.
    destruct (seq 0 _ !! S i) as [k|] eqn:Ek; [|done].
    apply lookup_seq in Ek as [-> Hlt].
    rewrite (proj2 (lookup_seq 0 _ i i)) by lia. cbn.
    eexists. split; [done|].
    pose proof (batch_count_tight _ _ Hlt) as Hn.
    rewrite length_take, length_drop. unfold batch_size in *. lia.
Qed.

Lemma elem_of_concat {A} (x : A) (ls : list (list A)) :
  x ∈ concat ls -> exists l, l ∈ ls /\ x ∈ l.
Proof.
  induction ls as [|l ls IH]; cbn; [by intros ?%elem_of_nil|].
  intros [H|H]%elem_of_app.
  - exists l. split; [left|done].
  - destruct (IH H) as (l' & Hl & Hx). exists l'. split; [by right|done].
Qed.

Lemma elem_of_batches (traces : list trace) t :
  t ∈ traces -> exists batch, batch ∈ batches traces /\ t ∈ batch.
Proof.
  intros Ht.
  assert (Hc : concat (batches traces) = traces).
  { unfold batches. rewrite concat_chunks. apply take_ge, batch_count_covers. }
  rewrite <- Hc in Ht. by apply elem_of_concat in Ht.
Qed.

(** ** Transcripts *)

Lemma length_role_label r : (length (role_label r) <= 9)%nat.
Proof. unfold role_label. destruct (_ || _); cbn; lia. Qed.

Lemma length_join_le sep (ls : list pystr) (b : nat) :
  Forall (fun l => (length l <= b)%nat) ls ->
  (length (join sep ls) <= length ls * (b + length sep))%nat.
Proof.
  induction 1 as [|l ls Hl Hls IH]; [done|].
  cbn [join]. destruct ls as [|l' ls].
  - cbn. lia.
  - rewrite !length_app. cbn [length] in *. lia.
Qed.

Section Transcripts.
Variable py_str : json -> pystr.

Lemma conversation_lines_texts conv :
  Forall (fun m => is_str (content m) = true) conv ->
  exists ls, conversation_lines py_str conv = Ok ls
    /\ length ls = length conv
    /\ Forall (fun l => (length l <= 2011)%nat) ls.
Proof.
  induction 1 as [|m conv Hm _ (ls & IH & Hlen & Hls)].
  - by exists [].
  - cbn [conversation_lines]. destruct (content m) as [| | | |s| |]; try done.
    cbn [truncated mbind res_bind]. rewrite IH. cbn [mbind res_bind].
    eexists. split; [done|]. split; [cbn; by rewrite Hlen|].
    constructor; [|done]. rewrite !length_app, length_take.
    pose proof (length_role_label (role m)).
    change (length (py ": ")) with 2%nat. lia.
Qed.

Lemma truncated_error c e : truncated py_str c = Raise e -> e = TypeError.
Proof. destruct c; cbn; congruence. Qed.

Lemma conversation_lines_error conv e :
  conversation_lines py_str conv = Raise e -> e = TypeError.
Proof.
  induction conv as [|m conv IH]; [done|]. cbn [conversation_lines].
  destruct (truncated py_str (content m)) eqn:Et; cbn [mbind res_bind].
  - destruct (conversation_lines py_str conv); cbn [mbind res_bind]; [done|].
    intros [= <-]. by apply IH.
  - intros [= <-]. by eapply truncated_error.
Qed.

Lemma conversation_lines_number conv m :
  m ∈ conv -> is_Some (as_num (content m)) ->
  conversation_lines py_str conv = Raise TypeError.
Proof.
  intros Hm Hn. induction Hm as [m conv|m m' conv Hm IH]; cbn [conversation_lines].
  - destruct (content m); try done; by destruct Hn.
  - destruct (truncated py_str (content m')) eqn:Et; cbn [mbind res_bind].
    + by rewrite IH.
    + by rewrite (truncated_error _ _ Et).
Qed.

Lemma get_conversation_text_error t e :
  get_conversation_text py_str t = Raise e -> e = TypeError.
Proof.
  unfold get_conversation_text.
  destruct (conversation_lines py_str _) eqn:E; cbn [mbind res_bind]; [done|].
  intros [= <-]. by eapply conversation_lines_error.
Qed.

Lemma get_conversation_text_number t m :
  m ∈ Trace.conversation t -> is_Some (as_num (content m)) ->
  get_conversation_text py_str t = Raise TypeError.
Proof.
  intros Hm Hn. unfold get_conversation_text.
  by rewrite (conversation_lines_number _ _ Hm Hn).
Qed.

Lemma traces_text_error i batch e :
  traces_text py_str i batch = Raise e -> e = TypeError.
Proof.
  revert i. induction batch as [|t batch IH]; intros i; [done|]. cbn [traces_text].
  destruct (get_conversation_text py_str t) eqn:Et; cbn [mbind res_bind].
  - destruct (traces_text py_str (S i) batch) eqn:Er; cbn [mbind res_bind]; [done|].
    intros [= <-]. by eapply IH.
  - intros [= <-]. by eapply get_conversation_text_error.
Qed.

Lemma traces_text_number i batch t m :
  t ∈ batch -> m ∈ Trace.conversation t -> is_Some (as_num (content m)) ->
  traces_text py_str i batch = Raise TypeError.
Proof.
  intros Ht Hm Hn. revert i.
  induction Ht as [t batch|t t' batch Ht IH]; intros i; cbn [traces_text].
  - by rewrite (get_conversation_text_number _ _ Hm Hn).
  - destruct (get_conversation_text py_str t') eqn:Et; cbn [mbind res_bind].
    + by rewrite IH.
    + by rewrite (get_conversation_text_error _ _ Et).
Qed.
End Transcripts.

(** Property X6.  The transcript of a trace whose contents are texts is
    rendered, and is at most 2013 code points long per turn, whatever the
    length of the messages: each content is cut at 2000. *)
Theorem X6_transcript_bounded py_str (t : trace) :
  Forall (fun m => is_str (content m) = true) (Trace.conversation t) ->
  exists text,
    get_conversation_text py_str t = Ok text
    /\ (length text <= 2013 * length (Trace.conversation t))%nat.
Proof.
  intros H. destruct (conversation_lines_texts py_str _ H) as (ls & Hl & Hlen & Hls).
  unfold get_conversation_text. rewrite Hl. cbn [mbind res_bind].
  eexists. split; [done|].
  pose proof (length_join_le (newline ++ newline) ls 2011 Hls) as Hj.
  rewrite Hlen in Hj. change (length (newline ++ newline)) with 2%nat in Hj. lia.
Qed.

Lemma X6_witness :
  exists text,
    get_conversation_text text_only trace_a = Ok text /\ (length text <= 2013 * 1)%nat.
Proof.
  apply (X6_transcript_bounded text_only trace_a). repeat constructor.
Defined.

(** ** A content that is not text *)

Section Poison.
Variable py_str : json -> pystr.
Variable gemini : nat -> request -> reply.

Lemma analyze_wri_trace_raises t e w :
  get_conversation_text py_str t = Raise e ->
  analyze_wri_trace py_str gemini t w = (Raise e, w).
Proof. intros H. unfold analyze_wri_trace. by rewrite H. Qed.

Lemma analyze_wri_trace_outcome t w :
  (exists r w', analyze_wri_trace py_str gemini t w = (Ok r, w'))
  \/ analyze_wri_trace py_str gemini t w = (Raise TypeError, w).
Proof.
  destruct (get_conversation_text py_str t) as [conv_text|e] eqn:E.
  - left. destruct (analyze_wri_trace_returns py_str gemini t conv_text w E)
      as (r & w' & H). eauto.
  - right. rewrite (get_conversation_text_error _ _ _ E) in E.
    by apply analyze_wri_trace_raises.
Qed.

Lemma analyze_wri_connections_batch_error batch w e w' :
  analyze_wri_connections_batch py_str gemini batch w = (Raise e, w') -> e = TypeError.
Proof.
  revert w. induction batch as [|t batch IH]; intros w; [done|].
  cbn [analyze_wri_connections_batch]. unfold mbind at 1, io_bind at 1.
  destruct (analyze_wri_trace_outcome t w) as [(r & w1 & ->)| ->]; [|congruence].
  unfold mbind at 1, io_bind at 1.
  destruct (analyze_wri_connections_batch py_str gemini batch w1) as [[rs|e'] w2] eqn:E;
    [done|].
  intros [= <- <-]. by eapply IH.
Qed.

Lemma analyze_wri_connections_batch_number batch t m w :
  t ∈ batch -> m ∈ Trace.conversation t -> is_Some (as_num (content m)) ->
  exists w', analyze_wri_connections_batch py_str gemini batch w = (Raise TypeError, w').
Proof.
  intros Ht Hm Hn. revert w.
  induction Ht as [t batch|t t' batch Ht IH]; intros w;
    cbn [analyze_wri_connections_batch]; unfold mbind at 1, io_bind at 1.
  - rewrite (analyze_wri_trace_raises t TypeError); [by eexists|].
    by eapply get_conversation_text_number.
  - destruct (analyze_wri_trace_outcome t' w) as [(r & w1 & ->)| ->]; [|by eexists].
    unfold mbind at 1, io_bind at 1. destruct (IH Hm w1) as [w' ->]. by eexists.
Qed.

Lemma analyze_batch_error category batch w e w' :
  is_category category = true ->
  analyze_batch py_str gemini category batch w = (Raise e, w') -> e = TypeError.
Proof.
  intros Hc. unfold analyze_batch. destruct (str_eqb category wri_connections).
  - apply analyze_wri_connections_batch_error.
  - unfold mbind at 1, io_bind at 1.
    destruct (traces_text py_str 0 batch) as [text|e'] eqn:Et.
    + destruct (analyze_trace_batch_returns py_str gemini batch category text w Hc Et)
        as [analyses ->].
      unfold pure. destruct analyses; cbn; congruence.
    + unfold analyze_trace_batch. rewrite Hc, Et.
      rewrite io_pure_Ok, io_pure_Raise. intros [= <- <-].
      by eapply traces_text_error.
Qed.

Lemma analyze_batch_number category batch t m w :
  is_category category = true ->
  t ∈ batch -> m ∈ Trace.conversation t -> is_Some (as_num (content m)) ->
  exists w', analyze_batch py_str gemini category batch w = (Raise TypeError, w').
Proof.
  intros Hc Ht Hm Hn. unfold analyze_batch. destruct (str_eqb category wri_connections).
  - by eapply analyze_wri_connections_batch_number.
  - unfold mbind at 1, io_bind at 1. unfold analyze_trace_batch.
    rewrite Hc, (traces_text_number py_str 0 batch t m Ht Hm Hn).
    rewrite io_pure_Ok, io_pure_Raise. by eexists.
Qed.

Lemma collect_analyses_number category bs acc batch t m w :
  is_category category = true ->
  batch ∈ bs -> t ∈ batch -> m ∈ Trace.conversation t -> is_Some (as_num (content m)) ->
  exists w', collect_analyses py_str gemini category bs acc w = (Raise TypeError, w').
Proof.
  intros Hc Hb Ht Hm Hn. revert acc w.
  induction Hb as [batch bs|batch b' bs Hb IH]; intros acc w;
    cbn [collect_analyses]; unfold mbind at 1, io_bind at 1.
  - destruct (analyze_batch_number category batch t m w Hc Ht Hm Hn) as [w' ->].
    by eexists.
  - destruct (analyze_batch py_str gemini category b' w) as [[analyses|e] w1] eqn:E.
    + by apply IH.
    + rewrite (analyze_batch_error _ _ _ _ _ Hc E). by eexists.
Qed.
End Poison.

(** Property X7.  A turn whose content is a number or a boolean makes the
    rendering of its trace raise [TypeError]; as the rendering is outside
    the [try] blocks of both analysers, every analysis request for a valid
    category then ends with that exception and leaves the state as it
    was. *)
Theorem X7_number_content_stops_analysis py_str gemini (data : json) (st : app)
    (w : list request) (c : pystr) (t : trace) (m : turn) :
  get data (py "category") JNull = Ok (JStr c) -> is_category c = true ->
  t ∈ traces_data st -> m ∈ Trace.conversation t -> is_Some (as_num (content m)) ->
  get_conversation_text py_str t = Raise TypeError
  /\ exists w', analyze_traces py_str gemini data st w = (Crashed TypeError, st, w').
Proof.
  intros Hd Hc Ht Hm Hn. split; [by eapply get_conversation_text_number|].
  rewrite (analyze_traces_run _ _ _ _ _ _ Hd Hc).
  destruct (elem_of_batches _ _ Ht) as (batch & Hb & Htb).
  destruct (collect_analyses_number py_str gemini c _ [] batch t m w Hc Hb Htb Hm Hn)
    as [w' ->].
  by exists w'.
Qed.

(** A row whose output message has the number 5 for content. *)
Definition number_row : row :=
  <[py "id" := Some (py "n1")]>
    (<[py "output" := Some (js "{'messages':[{'type':'ai','content':5}]}")]> ∅).

Definition number_trace : trace :=
  trace_of number_row [Turn (JStr (py "ai")) (JInt 5)] float_zero 0 0 float_zero 0.

Lemma number_row_loaded :
  parse_traces ascii_digits_only [number_row] = Ok [number_trace].
Proof. vm_compute. reflexivity. Qed.

Lemma X7_witness :
  get_conversation_text text_only number_trace = Raise TypeError
  /\ exists w', analyze_traces text_only sample_gemini sample_request
                  (App [trace_a; number_trace] ∅ ∅) []
                = (Crashed TypeError, App [trace_a; number_trace] ∅ ∅, w').
Proof.
  apply (X7_number_content_stops_analysis text_only sample_gemini sample_request
           (App [trace_a; number_trace] ∅ ∅) [] (py "showcase") number_trace
           (Turn (JStr (py "ai")) (JInt 5)) eq_refl eq_refl).
  - right. left.
  - left.
  - by eexists.
Defined.

(** ** Requests the analysis refuses *)

(** Property X9.  An analysis request whose body is an object without a
    valid category changes nothing and calls nothing.  It is answered with
    status 400, unless the category is a non-empty list or object, which
    cannot be looked up in the table of categories: the request then ends
    with [TypeError]. *)
Theorem X9_invalid_category py_str gemini (fields : list (pystr * json)) (st : app)
    (w : list request) :
  let category := default JNull (assoc (py "category") fields) in
  (forall c, category = JStr c -> is_category c = false) ->
  analyze_traces py_str gemini (JObj fields) st w
  = (if negb (truthy category) || hashable category
     then Rejected 400 InvalidCategory else Crashed TypeError, st, w).
Proof.
  intros category H. unfold analyze_traces. cbn [get]. fold category.
  destruct (negb (truthy category)); [done|]. cbn [orb].
  destruct (hashable category) eqn:Eh; cbn [negb]; [|done].
  destruct category as [| | | |c| |] eqn:Ec; try done.
  by rewrite (H c eq_refl).
Qed.

Lemma X9_witness :
  analyze_traces text_only sample_gemini (JObj [(py "category", JStr (py "other"))])
                 sample_app []
  = (Rejected 400 InvalidCategory, sample_app, [])
  /\ analyze_traces text_only sample_gemini (JObj []) sample_app []
     = (Rejected 400 InvalidCategory, sample_app, [])
  /\ analyze_traces text_only sample_gemini
                    (JObj [(py "category", JArr [JStr (py "showcase")])]) sample_app []
     = (Crashed TypeError, sample_app, []).
Proof.
  split; [|split].
  - apply (X9_invalid_category text_only sample_gemini [(py "category", JStr (py "other"))]).
    intros c [= <-]. reflexivity.
  - apply (X9_invalid_category text_only sample_gemini []). intros c [=].
  - apply (X9_invalid_category text_only sample_gemini
             [(py "category", JArr [JStr (py "showcase")])]). intros c [=].
Defined.

(** ** A run of the WRI pipeline *)

Definition is_search (rq : request) : Prop :=
  match rq with Search _ _ _ => True | _ => False end.

(** The requests of one trace after its classification: at most one search. *)
Definition at_most_one_search (extra : list request) : Prop :=
  (length extra <= 1)%nat /\ Forall is_search extra.

(** A result of the pipeline for the trace [t]. *)
Definition entry_of (t : trace) (r : json) : Prop :=
  exists score reason, r = entry (Trace.id t) score reason.

Lemma entry_well_formed t r : entry_of t r -> well_formed r.
Proof.
  intros (score & reason & ->). exists (json_of_text (Trace.id t)), score, reason.
  repeat split; try reflexivity. by destruct (Trace.id t).
Qed.

Lemma entry_names t r : entry_of t r -> names (json_of_text (Trace.id t)) r = true.
Proof.
  intros (score & reason & ->). unfold names.
  change (getitem (entry (Trace.id t) score reason) (py "trace_id"))
    with (Ok (json_of_text (Trace.id t))).
  apply key_eq_text; [apply json_of_text_key | done].
Qed.

Section WriRun.
Variable py_str : json -> pystr.
Variable gemini : nat -> request -> reply.

Lemma verification_of_shape fields : at_most_one_search (verification_of py_str fields).
Proof.
  unfold verification_of, at_most_one_search.
  repeat case_match; cbn; split; try lia; repeat constructor.
Qed.

Lemma analyze_wri_trace_entry t conv_text w :
  get_conversation_text py_str t = Ok conv_text ->
  exists r extra,
    analyze_wri_trace py_str gemini t w = (Ok r, w ++ Classify conv_text :: extra)
    /\ entry_of t r /\ at_most_one_search extra.
Proof.
  intros Ht. unfold analyze_wri_trace. rewrite Ht. io_step.
  unfold try_except, mbind at 1, io_bind at 1, generate_content.
  assert (Herr : entry_of t (entry (Trace.id t) (JInt 0) (JStr (py "Analysis error"))))
    by (by eexists _, _).
  assert (Hnil : at_most_one_search []) by (split; [cbn; lia | constructor]).
  destruct (gemini _ _) as [|result_text chunks]; [by eexists _, []|].
  destruct (parse_response result_text) as [result|e]; [|by eexists _, []].
  io_step. unfold mbind at 1, io_bind at 1.
  assert (Hext : exists extra, (verify py_str gemini result (w ++ [Classify conv_text])).2
                               = w ++ Classify conv_text :: extra
                               /\ at_most_one_search extra).
  { destruct result as [| | | | | |fields];
      try (exists []; split; [reflexivity | exact Hnil]).
    exists (verification_of py_str fields).
    split; [by rewrite verify_log, <- app_assoc | apply verification_of_shape]. }
  destruct Hext as (extra & Hw' & Hx).
  destruct (verify _ _ _ _) as [[[analysis' reason]|e] w1]; cbn [snd] in Hw'; subst w1.
  - destruct (get analysis' (py "score") (JInt 0)) as [score|e]; repeat io_step.
    + eexists _, extra. split; [done|]. split; [by eexists _, _ | done].
    + by eexists _, extra.
  - by eexists _, extra.
Qed.

Lemma analyze_wri_connections_batch_entries traces w :
  Forall (fun t => exists conv_text, get_conversation_text py_str t = Ok conv_text) traces ->
  exists results reqs,
    analyze_wri_connections_batch py_str gemini traces w = (Ok results, w ++ reqs)
    /\ Forall2 entry_of traces results
    /\ (length traces <= length reqs <= 2 * length traces)%nat.
Proof.
  revert w. induction traces as [|t rest IH]; intros w Hall.
  - exists [], []. rewrite app_nil_r. repeat split; [constructor|done..].
  - apply Forall_cons in Hall as [[conv_text Ht] Hall].
    destruct (analyze_wri_trace_entry t conv_text w Ht) as (r & extra & Hr & He & Hx1 & Hx2).
    destruct (IH (w ++ Classify conv_text :: extra) Hall) as (rs & reqs & Hrs & Hf & Hlen).
    exists (r :: rs), (Classify conv_text :: extra ++ reqs).
    cbn [analyze_wri_connections_batch]. unfold mbind at 1, io_bind at 1. rewrite Hr.
    unfold mbind at 1, io_bind at 1. rewrite Hrs. cbn [mret io_ret].
    split; [by rewrite <- app_assoc|]. split; [by constructor|].
    cbn [length]. rewrite length_app. lia.
Qed.

Lemma collect_analyses_wri bs acc w :
  Forall (fun t => exists conv_text, get_conversation_text py_str t = Ok conv_text)
         (concat bs) ->
  exists results reqs,
    collect_analyses py_str gemini wri_connections bs acc w = (Ok (acc ++ results), w ++ reqs)
    /\ Forall2 entry_of (concat bs) results
    /\ (length (concat bs) <= length reqs <= 2 * length (concat bs))%nat.
Proof.
  revert acc w. induction bs as [|b bs IH]; intros acc w Hall.
  - exists [], []. rewrite !app_nil_r. repeat split; [constructor|done..].
  - cbn [concat] in Hall. apply Forall_app in Hall as [Hb Hall].
    destruct (analyze_wri_connections_batch_entries b w Hb) as (rs & reqs & Hrs & Hf & Hlen).
    destruct (IH (acc ++ rs) (w ++ reqs) Hall) as (rs' & reqs' & Hrs' & Hf' & Hlen').
    exists (rs ++ rs'), (reqs ++ reqs').
    cbn [collect_analyses]. unfold mbind at 1, io_bind at 1, analyze_batch.
    change (str_eqb wri_connections wri_connections) with true. cbv iota.
    rewrite Hrs, Hrs', <- !app_assoc. split; [done|].
    split; [by apply Forall2_app|]. cbn [concat]. rewrite !length_app. lia.
Qed.
End WriRun.

Lemma last_entry_named k all a :
  a ∈ all -> names k a = true -> is_Some (last_entry k all).
Proof.
  intros Ha Hn. unfold last_entry.
  destruct (last (filter _ all)) eqn:E; [done|]. apply last_None in E.
  assert (Hin : a ∈ filter (fun a => names k a = true) all)
    by by apply list_elem_of_filter.
  rewrite E in Hin. by apply elem_of_nil in Hin.
Qed.

(** Property X10.  When the transcripts of all traces render, a run of the
    WRI pipeline always succeeds, whatever the service answers: it reports
    one result per trace, makes between one and two calls per trace, leaves
    every trace with a score and an analysis for [wri_connections], and
    flags the category as analysed. *)
Theorem X10_wri_run_scores_every_trace py_str gemini (data : json) (st : app)
    (w : list request) :
  get data (py "category") JNull = Ok (JStr wri_connections) ->
  Forall (fun t => exists conv_text, get_conversation_text py_str t = Ok conv_text)
         (traces_data st) ->
  exists st' reqs,
    analyze_traces py_str gemini data st w
    = (Analyzed (length (traces_data st)) wri_connections, st', w ++ reqs)
    /\ (length (traces_data st) <= length reqs <= 2 * length (traces_data st))%nat
    /\ length (traces_data st') = length (traces_data st)
    /\ Forall (fun t => has_score wri_connections t = true
                        /\ is_Some (Trace.analysis t !! wri_connections))
              (traces_data st')
    /\ analysis_cache st' !! wri_connections = Some true.
Proof.
  intros Hd Hall. rewrite (analyze_traces_run _ _ _ _ _ _ Hd eq_refl).
  assert (Hc : concat (batches (traces_data st)) = traces_data st).
  { unfold batches. rewrite concat_chunks. apply take_ge, batch_count_covers. }
  destruct (collect_analyses_wri py_str gemini (batches (traces_data st)) [] w)
    as (all & reqs & -> & Hf & Hlen); [by rewrite Hc|].
  rewrite Hc in Hf, Hlen. cbn [Datatypes.app].
  assert (Hwf : Forall well_formed all).
  { apply Forall_forall. intros r Hr.
    apply list_elem_of_lookup in Hr as [i Hi].
    destruct (Forall2_lookup_r _ _ _ _ _ Hf Hi) as (t & _ & He).
    by eapply entry_well_formed. }
  destruct (merge_spec wri_connections all (traces_data st) Hwf) as (m & -> & _ & ->).
  exists (App (merged wri_connections all <$> traces_data st)
              (<[wri_connections := true]> (analysis_cache st)) (translation_cache st)), reqs.
  rewrite (Forall2_length _ _ _ Hf). split; [done|].
  split; [by rewrite <- (Forall2_length _ _ _ Hf)|].
  split; [cbn; by rewrite length_fmap, (Forall2_length _ _ _ Hf)|].
  split; [|cbn [analysis_cache]; apply flags_lookup_insert].
  cbn [traces_data]. apply Forall_fmap, Forall_forall. intros t Ht. cbn.
  apply list_elem_of_lookup in Ht as [i Hi].
  destruct (Forall2_lookup_l _ _ _ _ _ Hf Hi) as (r & Hr & He).
  assert (Hin : r ∈ all) by by eapply list_elem_of_lookup_2.
  destruct (last_entry_named _ _ _ Hin (entry_names _ _ He)) as [a Ha].
  destruct (last_entry_elem _ _ _ Ha) as [Hina _].
  rewrite Forall_forall in Hwf.
  destruct (Hwf a Hina) as (k & sc & rs & _ & _ & Hs & Hrs).
  unfold merged, has_score. rewrite Ha, Hs, Hrs. cbn.
  rewrite !lookup_insert_eq. split; [by apply bool_decide_eq_true|done].
Qed.

Definition wri_request : json := JObj [(py "category", JStr wri_connections)].

Lemma X10_witness :
  exists st' reqs,
    analyze_traces text_only silent_gemini wri_request sample_app []
    = (Analyzed (length (traces_data sample_app)) wri_connections, st', [] ++ reqs)
    /\ (length (traces_data sample_app) <= length reqs
        <= 2 * length (traces_data sample_app))%nat
    /\ length (traces_data st') = length (traces_data sample_app)
    /\ Forall (fun t => has_score wri_connections t = true
                        /\ is_Some (Trace.analysis t !! wri_connections))
              (traces_data st')
    /\ analysis_cache st' !! wri_connections = Some true.
Proof.
  apply (X10_wri_run_scores_every_trace text_only silent_gemini wri_request sample_app []
           eq_refl).
  repeat constructor; by eexists.
Defined.

(** ** The calls of a run of the generic scorer *)

Definition is_score (category : pystr) (rq : request) : Prop :=
  exists text, rq = Score category text.

Section GenericRun.
Variable py_str : json -> pystr.
Variable gemini : nat -> request -> reply.

Lemma traces_text_renders i batch :
  Forall (fun t => exists conv_text, get_conversation_text py_str t = Ok conv_text) batch ->
  exists text, traces_text py_str i batch = Ok text.
Proof.
  intros H. revert i. induction H as [|t batch [conv_text Ht] _ IH]; intros i.
  - by eexists.
  - cbn [traces_text]. rewrite Ht. cbn [mbind res_bind].
    destruct (IH (S i)) as [more ->]. by eexists.
Qed.

Lemma analyze_batch_generic category batch w :
  is_category category = true -> str_eqb category wri_connections = false ->
  Forall (fun t => exists conv_text, get_conversation_text py_str t = Ok conv_text) batch ->
  exists r rq,
    analyze_batch py_str gemini category batch w = (r, w ++ [rq]) /\ is_score category rq.
Proof.
  intros Hc Hw Hb. unfold analyze_batch. rewrite Hw.
  destruct (traces_text_renders 0 batch Hb) as [text Ht].
  destruct (analyze_trace_batch_returns py_str gemini batch category text w Hc Ht)
    as [analyses Ha].
  unfold mbind at 1, io_bind at 1. rewrite Ha. unfold pure.
  eexists _, _. split; [done|]. by exists text.
Qed.

Lemma collect_analyses_generic category bs acc w :
  is_category category = true -> str_eqb category wri_connections = false ->
  Forall (fun t => exists conv_text, get_conversation_text py_str t = Ok conv_text)
         (concat bs) ->
  exists r reqs,
    collect_analyses py_str gemini category bs acc w = (r, w ++ reqs)
    /\ Forall (is_score category) reqs
    /\ (length reqs <= length bs)%nat
    /\ (forall all, r = Ok all -> length reqs = length bs).
Proof.
  intros Hc Hw. revert acc w. induction bs as [|b bs IH]; intros acc w Hall.
  - exists (Ok acc), []. rewrite app_nil_r. repeat split; [constructor|done..].
  - cbn [concat] in Hall. apply Forall_app in Hall as [Hb Hall].
    destruct (analyze_batch_generic category b w Hc Hw Hb) as (r & rq & Hr & Hrq).
    cbn [collect_analyses]. unfold mbind at 1, io_bind at 1. rewrite Hr.
    destruct r as [analyses|e].
    + destruct (IH (acc ++ analyses) (w ++ [rq]) Hall) as (r' & reqs & -> & Hf & Hlen & Hok).
      exists r', (rq :: reqs). rewrite <- app_assoc. split; [done|].
      split; [by constructor|]. cbn [length]. split; [lia|].
      intros all Hall'. by rewrite (Hok all Hall').
    + exists (Raise e), [rq]. split; [done|]. split; [by repeat constructor|].
      cbn [length]. split; [lia|done].
Qed.
End GenericRun.

(** Property X11.  A run of the generic scorer makes one call per batch:
    when the transcripts render, the requests it adds to the log are scoring
    requests for its category, at most [(n + 4) / 5] of them for [n] traces,
    and exactly that many when the run succeeds. *)
Theorem X11_one_call_per_batch py_str gemini (data : json) (st : app) (w : list request)
    (c : pystr) :
  get data (py "category") JNull = Ok (JStr c) -> is_category c = true ->
  c <> wri_connections ->
  Forall (fun t => exists conv_text, get_conversation_text py_str t = Ok conv_text)
         (traces_data st) ->
  exists resp st' reqs,
    analyze_traces py_str gemini data st w = (resp, st', w ++ reqs)
    /\ Forall (is_score c) reqs
    /\ (length reqs <= (length (traces_data st) + 4) / 5)%nat
    /\ (forall n c', resp = Analyzed n c' ->
          length reqs = ((length (traces_data st) + 4) / 5)%nat).
Proof.
  intros Hd Hc Hw Hall. rewrite (analyze_traces_run _ _ _ _ _ _ Hd Hc).
  assert (Hcat : concat (batches (traces_data st)) = traces_data st).
  { unfold batches. rewrite concat_chunks. apply take_ge, batch_count_covers. }
  assert (Hnum : length (batches (traces_data st))
                 = ((length (traces_data st) + 4) / 5)%nat).
  { unfold batches. by rewrite length_fmap, length_seq. }
  destruct (collect_analyses_generic py_str gemini c (batches (traces_data st)) [] w Hc)
    as (r & reqs & -> & Hf & Hlen & Hok); [|by rewrite Hcat|].
  { unfold str_eqb. by apply bool_decide_eq_false. }
  rewrite Hnum in Hlen, Hok.
  destruct r as [all|e]; [|by eexists _, _, reqs].
  specialize (Hok all eq_refl).
  destruct (analysis_map_of all) as [m|e]; [|by eexists _, _, reqs].
  destruct (merge_loop c m (traces_data st)) as [traces' [e|]]; by eexists _, _, reqs.
Qed.

Lemma X11_witness :
  exists resp st' reqs,
    analyze_traces text_only sample_gemini sample_request sample_app []
    = (resp, st', [] ++ reqs)
    /\ Forall (is_score (py "showcase")) reqs
    /\ (length reqs <= (length (traces_data sample_app) + 4) / 5)%nat
    /\ (forall n c', resp = Analyzed n c' ->
          length reqs = ((length (traces_data sample_app) + 4) / 5)%nat).
Proof.
  apply (X11_one_call_per_batch text_only sample_gemini sample_request sample_app []
           (py "showcase") eq_refl eq_refl).
  - discriminate.
  - repeat constructor; by eexists.
Defined.

(** ** The lookup of one trace *)

Lemma head_filter_Some {A} (P : A -> Prop) `{Hdec : !forall x, Decision (P x)} (l : list A) x :
  head (filter P l) = Some x <->
  exists before after, l = before ++ x :: after /\ P x /\ Forall (fun y => ~ P y) before.
Proof.
  induction l as [|y l IH].
  - split; [done|]. intros (b & a & H & _). by destruct b.
  - rewrite filter_cons. destruct (decide (P y)) as [Hy|Hy].
    + cbn. split.
      * intros [= ->]. by exists [], l.
      * intros (b & a & H & Hx & Hb). destruct b as [|z b].
        -- by injection H as ->.
        -- injection H as -> _. by apply Forall_cons in Hb as [? _].
    + rewrite IH. split.
      * intros (b & a & -> & Hx & Hb). exists (y :: b), a. by repeat constructor.
      * intros (b & a & H & Hx & Hb). destruct b as [|z b].
        -- injection H as -> _. done.
        -- injection H as -> ->. apply Forall_cons in Hb as [_ Hb]. by exists b, a.
Qed.

Lemma head_filter_None {A} (P : A -> Prop) `{Hdec : !forall x, Decision (P x)} (l : list A) :
  head (filter P l) = None <-> Forall (fun y => ~ P y) l.
Proof.
  induction l as [|y l IH]; [by split; [constructor|]|].
  rewrite filter_cons. destruct (decide (P y)) as [Hy|Hy].
  - cbn. split; [done|]. by intros [? _]%Forall_cons.
  - rewrite IH. split; [by constructor|]. by intros [_ ?]%Forall_cons.
Qed.

(** Property X13.  The lookup of a trace by id answers with the first trace
    in load order that has this id, and with status 404 exactly when no
    trace has it. *)
Theorem X13_get_trace_first_match (trace_id : pystr) (st : app) :
  (forall t, get_trace trace_id st = TraceDetail t <->
     exists before after,
       traces_data st = before ++ t :: after /\ Trace.id t = Some trace_id
       /\ Forall (fun u => Trace.id u <> Some trace_id) before)
  /\ (get_trace trace_id st = Rejected 404 TraceNotFound <->
      Forall (fun u => Trace.id u <> Some trace_id) (traces_data st)).
Proof.
  unfold get_trace, find_trace. split.
  - intros t.
    pose proof (head_filter_Some (fun u => Trace.id u = Some trace_id)
                  (traces_data st) t) as Hh.
    cbv beta in Hh. rewrite <- Hh.
    destruct (head _) as [u|]; split; congruence.
  - pose proof (head_filter_None (fun u => Trace.id u = Some trace_id)
                  (traces_data st)) as Hh.
    cbv beta in Hh. rewrite <- Hh.
    destruct (head _) as [u|]; split; congruence.
Qed.

(** ** The trace list *)

Lemma insert_desc_perm {A} (key : A -> json) x s s' :
  insert_desc key x s = Ok s' -> s' ≡ₚ x :: s.
Proof.
  revert s'. induction s as [|y s IH]; intros s'; cbn [insert_desc].
  - by intros [= <-].
  - destruct (py_lt (key x) (key y)) as [[|]|]; cbn [mbind res_bind]; [| |done].
    + destruct (insert_desc key x s) as [s1|]; cbn; [|done].
      intros [= <-]. rewrite (IH s1 eq_refl). apply Permutation_swap.
    + by intros [= <-].
Qed.

Lemma sort_desc_perm {A} (key : A -> json) l s : sort_desc key l = Ok s -> s ≡ₚ l.
Proof.
  revert s. induction l as [|x l IH]; intros s; cbn [sort_desc].
  - by intros [= <-].
  - destruct (sort_desc key l) as [s1|]; cbn [mbind res_bind]; [|done].
    intros H%insert_desc_perm. by rewrite H, (IH s1 eq_refl).
Qed.

Lemma slice_to_sublist {A} n (l : list A) : sublist (slice_to n l) l.
Proof. unfold slice_to. destruct (0 <=? n); apply sublist_take. Qed.

(** Property X15.  In every trace list the handler returns, [total] is the
    number of loaded traces, [filtered] the number of returned ones and at
    most [total], and the returned traces are among the loaded ones, none
    more often than it is loaded.  Under a valid filter every returned trace
    has a score for the category; under no filter or an unknown one the
    traces come in load order, all of them when the limit is absent or 0. *)
Theorem X15_trace_list_counts (category : option pystr) (limit : option Z) (st : app)
    result total filtered :
  get_traces category limit st = TraceList result total filtered ->
  total = length (traces_data st) /\ filtered = length result
  /\ result ⊆+ traces_data st /\ (filtered <= total)%nat
  /\ (forall c, category = Some c -> is_category c = true ->
        Forall (fun t => has_score c t = true) result)
  /\ ((forall c, category = Some c -> is_category c = false) ->
        sublist result (traces_data st)
        /\ ((limit = None \/ limit = Some 0) -> result = traces_data st)).
Proof.
  unfold get_traces.
  set (sorted := match category with
                 | Some (c :: cs) => if is_category (c :: cs) then _ else _
                 | _ => _ end).
  destruct sorted as [s|e] eqn:Es; [|done]. intros [= <- <- <-].
  set (cut := match limit with Some n => if n =? 0 then s else slice_to n s | None => s end).
  assert (Hcut : sublist cut s).
  { unfold cut. destruct limit as [n|]; [|done].
    destruct (n =? 0); [done|apply slice_to_sublist]. }
  assert (Hs : s ⊆+ traces_data st
               /\ (forall c, category = Some c -> is_category c = true ->
                     Forall (fun t => has_score c t = true) s)
               /\ ((forall c, category = Some c -> is_category c = false) ->
                     s = traces_data st)).
  { subst sorted. destruct category as [[|c cs]|].
    - injection Es as <-. split; [done|]. split; [|done]. by intros c [= <-].
    - destruct (is_category (c :: cs)) eqn:Ec.
      + apply sort_desc_perm in Es. split; [|split].
        * rewrite Es. apply sublist_submseteq, sublist_filter.
        * intros c' [= <-] _. apply Forall_forall. intros t Ht. rewrite Es in Ht.
          by apply list_elem_of_filter in Ht as [? _].
        * intros H. by rewrite (H _ eq_refl) in Ec.
      + injection Es as <-. split; [done|]. split; [|done].
        intros c' [= <-]. congruence.
    - injection Es as <-. split; [done|]. split; [|done]. done. }
  destruct Hs as (Hsub & Hscore & Hall).
  assert (Hres : cut ⊆+ traces_data st).
  { etrans; [by apply sublist_submseteq|done]. }
  split; [done|]. split; [done|]. split; [done|].
  split; [by apply submseteq_length|]. split.
  - intros c Hc Hv.
    specialize (Hscore c Hc Hv). rewrite Forall_forall in Hscore |- *.
    intros t Ht. apply Hscore.
    eapply elem_of_submseteq; [exact Ht | by apply sublist_submseteq].
  - intros H. rewrite (Hall H) in Hcut. split; [done|].
    unfold cut. rewrite (Hall H). by intros [-> | ->].
Qed.

Lemma X15_witness :
  2%nat = length (traces_data scored_app) /\ 1%nat = length [scored_b]
  /\ [scored_b] ⊆+ traces_data scored_app /\ (1 <= 2)%nat
  /\ (forall c, Some (py "showcase") = Some c -> is_category c = true ->
        Forall (fun t => has_score c t = true) [scored_b])
  /\ ((forall c, Some (py "showcase") = Some c -> is_category c = false) ->
        sublist [scored_b] (traces_data scored_app)
        /\ ((Some 1 = None \/ Some 1 = Some 0) -> [scored_b] = traces_data scored_app)).
Proof.
  apply (X15_trace_list_counts (Some (py "showcase")) (Some 1) scored_app).
  reflexivity.
Defined.

(** ** The top traces *)

Lemma is_category_cases c :
  is_category c = true ->
  c = py "showcase" \/ c = py "product_features" \/ c = py "research_areas"
  \/ c = py "dataset_priorities" \/ c = wri_connections.
Proof.
  unfold is_category, INTEREST_CATEGORIES. cbn [existsb fst]. unfold str_eqb.
  repeat case_bool_decide; subst; cbn; intros; try done; eauto 10.
Qed.

Lemma category_name c :
  is_category c = true ->
  exists category_name,
    assoc c ((fun p => (p.1, JStr p.2)) <$> INTEREST_CATEGORIES) = Some (JStr category_name).
Proof.
  intros [->|[->|[->|[->| ->]]]]%is_category_cases; by eexists.
Qed.

Lemma category_unknown c :
  is_category c = false ->
  assoc c ((fun p => (p.1, JStr p.2)) <$> INTEREST_CATEGORIES) = None.
Proof.
  unfold is_category, INTEREST_CATEGORIES. cbn [existsb fst fmap list_fmap assoc snd].
  intros H. repeat (apply orb_false_elim in H as [-> H]). done.
Qed.

(** Property X14.  For a valid category the top traces are the trace list
    filtered by this category and cut at 10, and a failure of the one is a
    failure of the other.  For any other category the top traces are
    refused with status 400, whereas the trace list ignores the filter and
    returns every trace. *)
Theorem X14_top_traces_are_the_first_ten (category : pystr) (st : app) :
  (is_category category = true ->
     exists category_name,
       match get_traces (Some category) (Some 10) st with
       | TraceList result _ _ =>
           get_top_traces category st = TopTraces category category_name result
           /\ (length result <= 10)%nat
       | other => get_top_traces category st = other
       end)
  /\ (is_category category = false ->
      get_top_traces category st = Rejected 400 InvalidCategory
      /\ get_traces (Some category) None st
         = TraceList (traces_data st) (length (traces_data st)) (length (traces_data st))).
Proof.
  split.
  - intros Hc. destruct (category_name _ Hc) as [name Hn]. exists name.
    unfold get_top_traces, get_traces. rewrite Hn.
    destruct category as [|x cs]; [done|]. rewrite Hc.
    destruct (sort_desc _ _) as [s|e]; [|done].
    change (10 =? 0) with false. cbv iota. unfold slice_to.
    change (0 <=? 10) with true. cbv iota. change (Z.to_nat 10) with 10%nat.
    split; [done|]. rewrite length_take. lia.
  - intros Hc. unfold get_top_traces, get_traces. rewrite (category_unknown _ Hc).
    split; [done|]. destruct category as [|x cs]; [done|]. by rewrite Hc.
Qed.

Lemma X14_witness :
  exists category_name,
    get_top_traces (py "showcase") scored_app
    = TopTraces (py "showcase") category_name [scored_b; scored_a]
    /\ (length [scored_b; scored_a] <= 10)%nat.
Proof.
  apply (proj1 (X14_top_traces_are_the_first_ten (py "showcase") scored_app) eq_refl).
Defined.

(** ** The analysis status *)

(** The categories a status response lists as analysed. *)
Definition listed (r : response) : list pystr :=
  match r with Status analyzed _ => analyzed | _ => [] end.

(** The listing after a request answered with [resp], from the listing
    [l] before it: a run that answers [Analyzed] adds its category at the
    end, unless the listing holds it. *)
Definition listed_after (resp : response) (l : list pystr) : list pystr :=
  match resp with
  | Analyzed _ category => if bool_decide (category ∈ l) then l else l ++ [category]
  | _ => l
  end.

Section Status.
Variable py_str : json -> pystr.
Variable gemini : nat -> request -> reply.

(** The flags of the categories: only a run that answers [Analyzed] sets
    one, that of its category, which is a valid one. *)
Lemma handle_analysis_cache c st w :
  match (handle py_str gemini c st w).1.1 with
  | Analyzed n category =>
      is_category category = true
      /\ analysis_cache (handle py_str gemini c st w).1.2
         = <[category := true]> (analysis_cache st)
  | _ => analysis_cache (handle py_str gemini c st w).1.2 = analysis_cache st
  end.
Proof.
  destruct c; cbn [handle fst snd]; try done.
  - unfold get_traces. by repeat case_match.
  - unfold get_trace. by destruct (find_trace trace_id st).
  - unfold analyze_traces.
    destruct (get data (py "category") JNull) as [category|]; [|done].
    destruct (negb (truthy category)); [done|].
    destruct (negb (hashable category)); [done|].
    destruct category as [| | | |c| |]; try done.
    destruct (is_category c) eqn:Ec; [|done].
    destruct (collect_analyses _ _ _ _ _ _) as [[all|] w']; [|done].
    destruct (analysis_map_of all); [|done].
    by destruct (merge_loop _ _ _) as [traces [e|]].
  - unfold get_top_traces. by repeat case_match.
  - unfold translate_trace.
    destruct (translation_cache st !! trace_id); [done|].
    destruct (find_trace trace_id st); [|done].
    match goal with |- context [mbind ?f ?m w] => destruct (mbind f m w) as [[r|e] w'] end;
      done.
Qed.

(** One request: the keys of the flags after it. *)
Lemma handle_keys c st w :
  keys (analysis_cache (handle py_str gemini c st w).1.2)
  = listed_after (handle py_str gemini c st w).1.1 (keys (analysis_cache st))
  /\ match (handle py_str gemini c st w).1.1 with
     | Analyzed _ category => is_category category = true
     | _ => True
     end.
Proof.
  pose proof (handle_analysis_cache c st w) as H.
  destruct ((handle py_str gemini c st w).1.1); cbn [listed_after];
    try (split; [by rewrite H | done]).
  destruct H as [Hc ->]. split; [apply keys_insert | done].
Qed.

Lemma listed_after_prefix resp l : l `prefix_of` listed_after resp l.
Proof.
  destruct resp; cbn [listed_after]; try done.
  case_bool_decide; [done|]. by apply prefix_app_r.
Qed.

Lemma listed_after_NoDup resp l : NoDup l -> NoDup (listed_after resp l).
Proof.
  intros Hl. destruct resp; cbn [listed_after]; try done.
  case_bool_decide as Hin; [done|]. apply NoDup_app. split; [done|].
  split; [|apply NoDup_singleton]. intros x Hx ->%list_elem_of_singleton. done.
Qed.

Lemma serve_keys cs st w :
  NoDup (keys (analysis_cache st)) ->
  Forall (fun k => is_category k = true) (keys (analysis_cache st)) ->
  keys (analysis_cache st) `prefix_of` keys (analysis_cache (serve py_str gemini cs st w).1)
  /\ NoDup (keys (analysis_cache (serve py_str gemini cs st w).1))
  /\ Forall (fun k => is_category k = true)
            (keys (analysis_cache (serve py_str gemini cs st w).1)).
Proof.
  revert st w. induction cs as [|c cs IH]; intros st w Hnd Hval; [done|].
  cbn [serve]. destruct (handle_keys c st w) as [Hk Hc].
  destruct (handle py_str gemini c st w) as [[resp st'] w']. cbn [fst snd] in Hk, Hc.
  destruct (IH st' w') as (IH1 & IH2 & IH3).
  - rewrite Hk. by apply listed_after_NoDup.
  - rewrite Hk. destruct resp; cbn [listed_after]; try done.
    case_bool_decide; [done|]. apply Forall_app. split; [done|]. by constructor.
  - split; [|done]. etrans; [|exact IH1]. rewrite Hk. apply listed_after_prefix.
Qed.
End Status.

(** Property X12.  The analysis status lists the categories in the order
    of their first successful run.  Starting from a status that lists valid
    categories, each once, the listing after any sequence of requests
    extends the listing before it, and holds valid categories only, each
    once; a request changes the listing only when it is an analysis answered
    [Analyzed] for a category that is not listed, which is then added at the
    end. *)
Theorem X12_status_lists_in_order_of_first_run py_str gemini (cs : list api_call)
    (st : app) (w : list request) :
  NoDup (listed (analysis_status st)) ->
  Forall (fun k => is_category k = true) (listed (analysis_status st)) ->
  let '(st', w') := serve py_str gemini cs st w in
  listed (analysis_status st) `prefix_of` listed (analysis_status st')
  /\ NoDup (listed (analysis_status st'))
  /\ Forall (fun k => is_category k = true) (listed (analysis_status st'))
  /\ (forall c,
        let '(resp, st'', _) := handle py_str gemini c st' w' in
        listed (analysis_status st'') = listed_after resp (listed (analysis_status st'))).
Proof.
  cbn [analysis_status listed]. intros Hnd Hval.
  destruct (serve_keys py_str gemini cs st w Hnd Hval) as (H1 & H2 & H3).
  destruct (serve py_str gemini cs st w) as [st' w']. cbn [fst] in H1, H2, H3.
  split; [done|]. split; [done|]. split; [done|].
  intros c. destruct (handle_keys py_str gemini c st' w') as [Hk _].
  by destruct (handle py_str gemini c st' w') as [[resp st''] w''].
Qed.

(** A service that scores every batch of every category with an empty list
    of analyses. *)
Definition empty_gemini (n : nat) (rq : request) : reply :=
  match rq with
  | Score _ _ => Response (Some (js "{'analyses':[]}")) []
  | _ => Fails
  end.

Definition request_for (c : string) : json := JObj [(py "category", JStr (py c))].

Lemma X12_witness :
  let '(st', w') :=
    serve text_only empty_gemini
          [Analyze (request_for "showcase"); Analyze (request_for "research_areas");
           GetStatus; Analyze (request_for "showcase")] sample_app [] in
  analysis_status st' = Status [py "showcase"; py "research_areas"] (INTEREST_CATEGORIES.*1)
  /\ ([] `prefix_of` listed (analysis_status st')
      /\ NoDup (listed (analysis_status st'))
      /\ Forall (fun k => is_category k = true) (listed (analysis_status st'))
      /\ (forall c,
            let '(resp, st'', _) := handle text_only empty_gemini c st' w' in
            listed (analysis_status st'')
            = listed_after resp (listed (analysis_status st')))).
Proof.
  split; [reflexivity|].
  apply (X12_status_lists_in_order_of_first_run text_only empty_gemini
           [Analyze (request_for "showcase"); Analyze (request_for "research_areas");
            GetStatus; Analyze (request_for "showcase")] sample_app []).
  - constructor.
  - constructor.
Defined.

(** ** What the requests leave of the traces *)

(** [t'] is [t] with scores and analyses added or replaced under valid
    categories only. *)
Definition annotated (t t' : trace) : Prop :=
  Trace.id t' = Trace.id t /\ Trace.timestamp t' = Trace.timestamp t
  /\ Trace.name t' = Trace.name t /\ Trace.session_id t' = Trace.session_id t
  /\ Trace.user_id t' = Trace.user_id t /\ Trace.conversation t' = Trace.conversation t
  /\ Trace.latency t' = Trace.latency t /\ Trace.input_tokens t' = Trace.input_tokens t
  /\ Trace.output_tokens t' = Trace.output_tokens t
  /\ Trace.total_cost t' = Trace.total_cost t /\ Trace.error_count t' = Trace.error_count t
  /\ (forall c, is_category c = false -> Trace.scores t' !! c = Trace.scores t !! c)
  /\ (forall c, is_category c = false -> Trace.analysis t' !! c = Trace.analysis t !! c).

Lemma annotated_refl t : annotated t t.
Proof. repeat split. Qed.

Lemma annotated_trans t1 t2 t3 : annotated t1 t2 -> annotated t2 t3 -> annotated t1 t3.
Proof.
  intros (?&?&?&?&?&?&?&?&?&?&?&Hs&Ha) (?&?&?&?&?&?&?&?&?&?&?&Hs'&Ha').
  repeat split; try congruence.
  - intros c Hc. by rewrite Hs', Hs.
  - intros c Hc. by rewrite Ha', Ha.
Qed.

Lemma same_but_annotated category t t' :
  is_category category = true -> same_but category t t' -> annotated t t'.
Proof.
  intros Hc (?&?&?&?&?&?&?&?&?&?&?&Hs&Ha). repeat split; try done.
  - intros c Hn. apply Hs. congruence.
  - intros c Hn. apply Ha. congruence.
Qed.

Lemma Forall2_annotated_refl (l : list trace) : Forall2 annotated l l.
Proof. induction l; constructor; [apply annotated_refl | done]. Qed.

Lemma Forall2_annotated_trans (l1 l2 l3 : list trace) :
  Forall2 annotated l1 l2 -> Forall2 annotated l2 l3 -> Forall2 annotated l1 l3.
Proof.
  intros H. revert l3. induction H as [|t1 t2 l1 l2 Ht _ IH]; intros l3 H3.
  - by apply Forall2_nil_inv_l in H3 as ->.
  - apply Forall2_cons_inv_l in H3 as (t3 & l3' & Ht3 & Hl3 & ->).
    constructor; [by eapply annotated_trans | by apply IH].
Qed.

Section Frame.
Variable py_str : json -> pystr.
Variable gemini : nat -> request -> reply.

Lemma handle_annotates c st w :
  Forall2 annotated (traces_data st) (traces_data (handle py_str gemini c st w).1.2).
Proof.
  destruct c; cbn [handle fst snd]; try apply Forall2_annotated_refl.
  - unfold analyze_traces.
    destruct (get data (py "category") JNull) as [category|];
      [|apply Forall2_annotated_refl].
    destruct (negb (truthy category)); [apply Forall2_annotated_refl|].
    destruct (negb (hashable category)); [apply Forall2_annotated_refl|].
    destruct category as [| | | |c| |]; try apply Forall2_annotated_refl.
    destruct (is_category c) eqn:Ec; [|apply Forall2_annotated_refl].
    destruct (collect_analyses _ _ _ _ _ _) as [[all|] w'];
      [|apply Forall2_annotated_refl].
    destruct (analysis_map_of all) as [m|]; [|apply Forall2_annotated_refl].
    pose proof (merge_loop_frame c m (traces_data st)) as Hf.
    assert (Ha : Forall2 annotated (traces_data st) (merge_loop c m (traces_data st)).1).
    { eapply Forall2_impl; [exact Hf|]. intros t t'. by apply same_but_annotated. }
    by destruct (merge_loop _ _ _) as [traces [e|]].
  - unfold translate_trace.
    destruct (translation_cache st !! trace_id); [apply Forall2_annotated_refl|].
    destruct (find_trace trace_id st); [|apply Forall2_annotated_refl].
    match goal with |- context [mbind ?f ?m w] => destruct (mbind f m w) as [[r|e] w'] end;
      apply Forall2_annotated_refl.
Qed.

Lemma serve_annotates cs st w :
  Forall2 annotated (traces_data st) (traces_data (serve py_str gemini cs st w).1).
Proof.
  revert st w. induction cs as [|c cs IH]; intros st w; [apply Forall2_annotated_refl|].
  cbn [serve]. pose proof (handle_annotates c st w) as Hh.
  destruct (handle py_str gemini c st w) as [[resp st'] w']. cbn [fst snd] in Hh.
  eapply Forall2_annotated_trans; [exact Hh | apply IH].
Qed.

(** Every memoised translation is that of a loaded trace. *)
Definition memo_of_loaded (st : app) : Prop :=
  forall k, is_Some (translation_cache st !! k) ->
            exists t, t ∈ traces_data st /\ Trace.id t = Some k.

Lemma annotated_ids (l l' : list trace) k :
  Forall2 annotated l l' ->
  (exists t, t ∈ l /\ Trace.id t = Some k) -> exists t, t ∈ l' /\ Trace.id t = Some k.
Proof.
  intros Hf (t & Ht & Hk). apply list_elem_of_lookup in Ht as [i Hi].
  destruct (Forall2_lookup_l _ _ _ _ _ Hf Hi) as (t' & Hi' & Ha).
  exists t'. split; [by eapply list_elem_of_lookup_2|]. destruct Ha as [-> _]. done.
Qed.

Lemma find_trace_Some trace_id st t :
  find_trace trace_id st = Some t -> t ∈ traces_data st /\ Trace.id t = Some trace_id.
Proof.
  unfold find_trace. intros H.
  apply (head_filter_Some (fun u => Trace.id u = Some trace_id)) in H
    as (b & a & -> & Hid & _).
  split; [|done]. apply elem_of_app. right. left.
Qed.

Lemma handle_memo c st w :
  memo_of_loaded st -> memo_of_loaded (handle py_str gemini c st w).1.2.
Proof.
  intros Hst. pose proof (handle_annotates c st w) as Hann.
  assert (Hkeep : translation_cache (handle py_str gemini c st w).1.2 = translation_cache st
                  -> memo_of_loaded (handle py_str gemini c st w).1.2).
  { intros He k Hk. rewrite He in Hk. eapply annotated_ids; [exact Hann | by apply Hst]. }
  destruct c; cbn [handle fst snd] in *; try (by apply Hkeep).
  - apply Hkeep, analyze_traces_keeps.
  - clear Hkeep Hann. unfold translate_trace.
    destruct (translation_cache st !! trace_id) eqn:Ec; [done|].
    destruct (find_trace trace_id st) as [t|] eqn:Ef; [|done].
    match goal with |- context [mbind ?f ?m w] => destruct (mbind f m w) as [[r|e] w'] end;
      [|done].
    cbn. intros k Hk. cbn in Hk. destruct (decide (k = trace_id)) as [->|Hne].
    + exists t. by apply find_trace_Some.
    + rewrite lookup_insert_ne in Hk by done. by apply Hst.
Qed.

Lemma serve_memo cs st w :
  memo_of_loaded st -> memo_of_loaded (serve py_str gemini cs st w).1.
Proof.
  revert st w. induction cs as [|c cs IH]; intros st w Hst; [done|].
  cbn [serve]. pose proof (handle_memo c st w Hst) as Hh.
  destruct (handle py_str gemini c st w) as [[resp st'] w']. by apply IH.
Qed.
End Frame.

(** Property X16.  No sequence of requests adds, removes or reorders a
    trace, or changes a field of a trace other than its scores and analyses
    under valid categories.  If the scores are under valid categories to
    start with, they are so ever after. *)
Theorem X16_requests_only_annotate py_str gemini (cs : list api_call) (st : app)
    (w : list request) :
  Forall2 annotated (traces_data st) (traces_data (serve py_str gemini cs st w).1)
  /\ (Forall (fun t => forall c, is_Some (Trace.scores t !! c) -> is_category c = true)
             (traces_data st) ->
      Forall (fun t => forall c, is_Some (Trace.scores t !! c) -> is_category c = true)
             (traces_data (serve py_str gemini cs st w).1)).
Proof.
  pose proof (serve_annotates py_str gemini cs st w) as Ha. split; [exact Ha|].
  intros Hst. apply Forall_forall. intros t' Ht'.
  apply list_elem_of_lookup in Ht' as [i Hi].
  destruct (Forall2_lookup_r _ _ _ _ _ Ha Hi) as (t & Hti & Hann).
  intros c Hc. destruct (is_category c) eqn:Ec; [done|].
  destruct Hann as (_&_&_&_&_&_&_&_&_&_&_&Hs&_). rewrite (Hs c Ec) in Hc.
  rewrite Forall_forall in Hst. rewrite <- Ec. apply (Hst t); [|done].
  by eapply list_elem_of_lookup_2.
Qed.

(** Property X17.  When every memoised translation belongs to a loaded
    trace, which holds of the empty memo, a translation request for an id
    that no loaded trace has is answered with status 404 after any sequence
    of requests, without a call to the service and without a change of
    state; so is the lookup of that id. *)
Theorem X17_unknown_trace_never_translated py_str gemini (cs : list api_call) (st : app)
    (w : list request) (trace_id : pystr) :
  memo_of_loaded st ->
  Forall (fun t => Trace.id t <> Some trace_id) (traces_data st) ->
  let '(st', w') := serve py_str gemini cs st w in
  translate_trace gemini trace_id st' w' = (Rejected 404 TraceNotFound, st', w')
  /\ get_trace trace_id st' = Rejected 404 TraceNotFound.
Proof.
  intros Hst Hid.
  pose proof (serve_memo py_str gemini cs st w Hst) as Hm.
  pose proof (serve_annotates py_str gemini cs st w) as Ha.
  destruct (serve py_str gemini cs st w) as [st' w']. cbn [fst] in *.
  assert (Hid' : Forall (fun t => Trace.id t <> Some trace_id) (traces_data st')).
  { apply Forall_forall. intros t' Ht'. apply list_elem_of_lookup in Ht' as [i Hi].
    destruct (Forall2_lookup_r _ _ _ _ _ Ha Hi) as (t & Hti & Hann).
    destruct Hann as [-> _]. rewrite Forall_forall in Hid. apply Hid.
    by eapply list_elem_of_lookup_2. }
  assert (Hf : find_trace trace_id st' = None).
  { unfold find_trace.
    by apply (head_filter_None (fun u => Trace.id u = Some trace_id)). }
  split.
  - unfold translate_trace.
    destruct (translation_cache st' !! trace_id) as [cached|] eqn:Ec; [|by rewrite Hf].
    destruct (Hm trace_id) as (t & Ht & Hk); [by eexists|].
    rewrite Forall_forall in Hid'. by destruct (Hid' t Ht).
  - unfold get_trace. by rewrite Hf.
Qed.

Lemma X17_witness :
  let '(st', w') :=
    serve text_only steady_gemini [GetTranslation (py "a"); Analyze sample_request]
          sample_app [] in
  translate_trace steady_gemini (py "zz") st' w' = (Rejected 404 TraceNotFound, st', w')
  /\ get_trace (py "zz") st' = Rejected 404 TraceNotFound.
Proof.
  apply (X17_unknown_trace_never_translated text_only steady_gemini
           [GetTranslation (py "a"); Analyze sample_request] sample_app [] (py "zz")).
  - intros k [v Hk]. done.
  - repeat constructor; discriminate.
Defined.

Lemma X16_witness :
  Forall (fun t => forall c, is_Some (Trace.scores t !! c) -> is_category c = true)
         (traces_data (serve text_only sample_gemini [Analyze sample_request]
                             sample_app []).1).
Proof.
  apply (proj2 (X16_requests_only_annotate text_only sample_gemini
                  [Analyze sample_request] sample_app [])).
  repeat constructor; intros c [v H]; done.
Defined.

(** ** Grounded evidence *)

Lemma str_eqb_refl s : str_eqb s s = true.
Proof. unfold str_eqb. by apply bool_decide_eq_true. Qed.

Lemma assoc_set_eq k v fields : assoc k (assoc_set k v fields) = Some v.
Proof.
  induction fields as [|[k' v'] fields IH]; cbn [assoc_set assoc].
  - by rewrite str_eqb_refl.
  - destruct (str_eqb k k') eqn:E; cbn [assoc]; [by rewrite str_eqb_refl|].
    by rewrite E.
Qed.

Lemma assoc_set_ne k k' v fields :
  k <> k' -> assoc k (assoc_set k' v fields) = assoc k fields.
Proof.
  intros Hne. assert (Hk : str_eqb k k' = false) by by apply bool_decide_eq_false.
  induction fields as [|[k2 v2] fields IH]; cbn [assoc_set assoc].
  - by rewrite Hk.
  - destruct (str_eqb k' k2) eqn:E; cbn [assoc].
    + apply bool_decide_eq_true in E as <-. by rewrite Hk.
    + by rewrite IH.
Qed.

(** Property X19.  The first grounding chunk that has a web source
    overrides the answer of the search: [url] becomes its URI, [found]
    becomes true and [title] its title, every other key of the answer stays;
    without such a chunk the answer is returned as it is; with one, an
    answer that is not an object cannot be updated and [TypeError] is
    raised. *)
Theorem X19_grounding_overrides (result : json) (chunks : list (option web)) :
  (forall wb, first_web chunks = Some wb <->
     exists before after,
       chunks = before ++ Some wb :: after /\ Forall (fun c => c = None) before)
  /\ (first_web chunks = None -> ground result chunks = Ok result)
  /\ (forall wb fields,
        first_web chunks = Some wb -> result = JObj fields ->
        exists fields',
          ground result chunks = Ok (JObj fields')
          /\ assoc (py "url") fields' = Some (json_of_text (uri wb))
          /\ assoc (py "found") fields' = Some (JBool true)
          /\ assoc (py "title") fields' = Some (json_of_text (title wb))
          /\ forall k, k <> py "url" -> k <> py "found" -> k <> py "title" ->
               assoc k fields' = assoc k fields)
  /\ (forall wb, first_web chunks = Some wb -> is_dict result = false ->
        ground result chunks = Raise TypeError).
Proof.
  split; [|split; [|split]].
  - intros wb. unfold first_web. split.
    + intros H. destruct (head (filter is_Some chunks)) as [[wb'|]|] eqn:E; try done.
      injection H as ->.
      apply (head_filter_Some (@is_Some web)) in E as (b & a & -> & _ & Hb).
      exists b, a. split; [done|]. eapply Forall_impl; [exact Hb|].
      intros [x|] Hx; [|done]. destruct Hx. by eexists.
    + intros (b & a & -> & Hb).
      assert (E : head (filter is_Some (b ++ Some wb :: a)) = Some (Some wb)).
      { apply (head_filter_Some (@is_Some web)). exists b, a. split; [done|]. split; [by eexists|].
        eapply Forall_impl; [exact Hb|]. intros x -> [y Hy]. done. }
      by rewrite E.
  - intros H. unfold ground. by rewrite H.
  - intros wb fields H ->. unfold ground. rewrite H. cbn [setitem mbind res_bind].
    eexists. split; [done|]. split; [|split; [|split]].
    + rewrite assoc_set_ne, assoc_set_ne by done. apply assoc_set_eq.
    + rewrite assoc_set_ne by done. apply assoc_set_eq.
    + apply assoc_set_eq.
    + intros k H1 H2 H3. by rewrite !assoc_set_ne.
  - intros wb H Hd. unfold ground. rewrite H. by destruct result.
Qed.

Section Evidence.
Variable py_str : json -> pystr.
Variable gemini : nat -> request -> reply.

Lemma search_wri_evidence_answer topic region program w text chunks result :
  gemini (length w)
         (Search topic (py_str region)
                 (if truthy program then py_str program else default_programs))
  = Response text chunks ->
  parse_response text = Ok result ->
  search_wri_evidence py_str gemini topic region program w
  = (Ok (match ground result chunks with Ok evidence => evidence | Raise _ => no_evidence end),
     w ++ [Search topic (py_str region)
                  (if truthy program then py_str program else default_programs)]).
Proof.
  intros Hg Hp. unfold search_wri_evidence, try_except, mbind at 1, io_bind at 1,
    generate_content.
  rewrite Hg, Hp. io_step. unfold pure. by destruct (ground result chunks).
Qed.

(** The verification, when the search is answered with [evidence]. *)
Lemma verify_answered fields rq w text chunks result :
  verification_of py_str fields = [rq] ->
  gemini (length w) rq = Response text chunks ->
  parse_response text = Ok result ->
  verify py_str gemini (JObj fields) w
  = (apply_evidence py_str (JObj fields)
       (match ground result chunks with Ok evidence => evidence | Raise _ => no_evidence end)
       (classified fields "story" no_connection),
     w ++ [rq]).
Proof.
  unfold verify, verification_of. repeat io_step.
  destruct (py_ge_num _ 50) as [[|]|e]; [|done..]. repeat io_step.
  destruct (truthy (classified fields "has_connection" JNull)); [|done]. repeat io_step.
  destruct (join_values _ _) as [[|c q]|e]; [done| |done]. repeat io_step.
  intros [= <-] Hg Hp. unfold mbind at 1, io_bind at 1.
  by rewrite (search_wri_evidence_answer _ _ _ _ _ _ _ Hg Hp).
Qed.

Lemma analyze_wri_trace_answered t w conv_text text chunks fields rq text2 chunks2 result :
  get_conversation_text py_str t = Ok conv_text ->
  gemini (length w) (Classify conv_text) = Response text chunks ->
  parse_response text = Ok (JObj fields) ->
  verification_of py_str fields = [rq] ->
  gemini (S (length w)) rq = Response text2 chunks2 ->
  parse_response text2 = Ok result ->
  analyze_wri_trace py_str gemini t w
  = (match apply_evidence py_str (JObj fields)
             (match ground result chunks2 with
              | Ok evidence => evidence | Raise _ => no_evidence end)
             (classified fields "story" no_connection) with
     | Ok (analysis', reason) =>
         match get analysis' (py "score") (JInt 0) with
         | Ok score => Ok (entry (Trace.id t) score reason)
         | Raise _ => Ok (analysis_error t)
         end
     | Raise _ => Ok (analysis_error t)
     end,
     w ++ [Classify conv_text; rq]).
Proof.
  intros Ht Hg Hp Hv Hg2 Hp2. unfold analyze_wri_trace. rewrite Ht. io_step.
  unfold try_except, mbind at 1, io_bind at 1, generate_content.
  rewrite Hg, Hp. io_step. unfold mbind at 1, io_bind at 1.
  rewrite (verify_answered fields rq _ text2 chunks2 result Hv); [|  |done].
  2: { by rewrite length_app, Nat.add_1_r. }
  rewrite <- app_assoc. cbn [Datatypes.app].
  destruct (apply_evidence _ _ _ _) as [[analysis' reason]|e]; [|done].
  destruct (get analysis' (py "score") (JInt 0)) as [score|e]; by repeat io_step.
Qed.
End Evidence.

Lemma py_min_int_int a z : py_min_int a (JInt z) = Ok (JInt (Z.min a z)).
Proof.
  unfold py_min_int. rewrite py_lt_int. cbn [mbind res_bind].
  destruct (Z.ltb_spec z a); f_equal; f_equal; lia.
Qed.

(** Property X18.  When the search of a trace is answered with evidence
    whose [found] and [url] are true, the result of the trace is the score
    of the classification plus 5, capped at 100, for an integer score, and
    its reason is the story followed by the URL and, if there is one, the
    source in parentheses. *)
Theorem X18_verified_hit_boosts_score py_str gemini (t : trace) (w : list request)
    conv_text text chunks fields rq text2 chunks2 result efields (s : Z) (url : json) :
  get_conversation_text py_str t = Ok conv_text ->
  gemini (length w) (Classify conv_text) = Response text chunks ->
  parse_response text = Ok (JObj fields) ->
  verification_of py_str fields = [rq] ->
  gemini (S (length w)) rq = Response text2 chunks2 ->
  parse_response text2 = Ok result ->
  ground result chunks2 = Ok (JObj efields) ->
  classified fields "score" (JInt 0) = JInt s ->
  truthy (classified efields "found" JNull) = true ->
  assoc (py "url") efields = Some url -> truthy url = true ->
  let story := classified fields "story" (JStr []) in
  let source := classified efields "source" (JStr []) in
  let source_text := if truthy source then py " (" ++ py_str source ++ py ")" else [] in
  analyze_wri_trace py_str gemini t w
  = (Ok (entry (Trace.id t) (JInt (Z.min 100 (s + 5)))
               (JStr (py_str story ++ py " See: " ++ py_str url ++ source_text))),
     w ++ [Classify conv_text; rq]).
Proof.
  intros Ht Hg Hp Hv Hg2 Hp2 Hgr Hs Hf Hu Htu. cbv zeta.
  rewrite (analyze_wri_trace_answered py_str gemini t w conv_text text chunks fields rq
             text2 chunks2 result Ht Hg Hp Hv Hg2 Hp2), Hgr.
  assert (Hcu : classified efields "url" JNull = url) by (unfold classified; by rewrite Hu).
  unfold apply_evidence. rewrite ?get_classified. cbn [mbind res_bind]. rewrite Hf.
  cbv iota. rewrite ?get_classified. cbn [mbind res_bind].
  rewrite Hcu, Htu. cbn [getitem]. rewrite Hu. cbn [mbind res_bind].
  rewrite ?get_classified. cbn [mbind res_bind]. rewrite Hs.
  change (py_add_int (JInt s) 5) with (Ok (JInt (s + 5)) : res json).
  cbn [mbind res_bind]. rewrite py_min_int_int. cbn [mbind res_bind setitem get].
  by rewrite assoc_set_eq.
Qed.

(** A service whose classification scores 98 and whose search is answered
    without a URL of its own, with one grounded source. *)
Definition grounded_gemini (n : nat) (rq : request) : reply :=
  match rq with
  | Classify _ =>
      Response
        (Some (js ("{'score':98,'has_connection':true,'topic':'forests',"
                   ++ "'story':'Restoration work.'}"))) []
  | Search _ _ _ =>
      Response (Some (js "{'found':false,'url':null,'source':'Reuters'}"))
               [None; Some (Web (Some (py "https://wri.org/x")) None)]
  | _ => Fails
  end.

Lemma X18_witness :
  analyze_wri_trace text_only grounded_gemini trace_a []
  = (Ok (entry (Some (py "a")) (JInt 100)
               (JStr (py "Restoration work. See: https://wri.org/x (Reuters)"))),
     [Classify (py "User: hi"); Search (py "forests") (py "global") default_programs]).
Proof.
  etrans.
  - apply (X18_verified_hit_boosts_score text_only grounded_gemini trace_a []
             (py "User: hi")
             (Some (js ("{'score':98,'has_connection':true,'topic':'forests',"
                        ++ "'story':'Restoration work.'}"))) []
             [(py "score", JInt 98); (py "has_connection", JBool true);
              (py "topic", JStr (py "forests")); (py "story", JStr (py "Restoration work."))]
             (Search (py "forests") (py "global") default_programs)
             (Some (js "{'found':false,'url':null,'source':'Reuters'}"))
             [None; Some (Web (Some (py "https://wri.org/x")) None)]
             (JObj [(py "found", JBool false); (py "url", JNull);
                    (py "source", JStr (py "Reuters"))])
             [(py "found", JBool true); (py "url", JStr (py "https://wri.org/x"));
              (py "source", JStr (py "Reuters")); (py "title", JNull)]
             98 (JStr (py "https://wri.org/x")));
      reflexivity.
  - reflexivity.
Defined.

(** Property X20.  When the search of a trace is answered with JSON that is
    not an object and no grounding chunk has a web source, the result of the
    trace is score 0 with [Analysis error], although its classification
    succeeded. *)
Theorem X20_search_answer_not_object py_str gemini (t : trace) (w : list request)
    conv_text text chunks fields rq text2 chunks2 result :
  get_conversation_text py_str t = Ok conv_text ->
  gemini (length w) (Classify conv_text) = Response text chunks ->
  parse_response text = Ok (JObj fields) ->
  verification_of py_str fields = [rq] ->
  gemini (S (length w)) rq = Response text2 chunks2 ->
  parse_response text2 = Ok result ->
  is_dict result = false -> first_web chunks2 = None ->
  analyze_wri_trace py_str gemini t w
  = (Ok (analysis_error t), w ++ [Classify conv_text; rq]).
Proof.
  intros Ht Hg Hp Hv Hg2 Hp2 Hd Hw.
  rewrite (analyze_wri_trace_answered py_str gemini t w conv_text text chunks fields rq
             text2 chunks2 result Ht Hg Hp Hv Hg2 Hp2).
  unfold ground. rewrite Hw. by destruct result.
Qed.

(** A service whose search is answered with a JSON list. *)
Definition listing_gemini (n : nat) (rq : request) : reply :=
  match rq with
  | Classify _ =>
      Response
        (Some (js ("{'score':98,'has_connection':true,'topic':'forests',"
                   ++ "'story':'Restoration work.'}"))) []
  | Search _ _ _ => Response (Some (js "[]")) []
  | _ => Fails
  end.

Lemma X20_witness :
  analyze_wri_trace text_only listing_gemini trace_a []
  = (Ok (analysis_error trace_a),
     [] ++ [Classify (py "User: hi");
            Search (py "forests") (py "global") default_programs]).
Proof.
  apply (X20_search_answer_not_object text_only listing_gemini trace_a []
           (py "User: hi")
           (Some (js ("{'score':98,'has_connection':true,'topic':'forests',"
                      ++ "'story':'Restoration work.'}"))) []
           [(py "score", JInt 98); (py "has_connection", JBool true);
            (py "topic", JStr (py "forests")); (py "story", JStr (py "Restoration work."))]
           (Search (py "forests") (py "global") default_programs)
           (Some (js "[]")) [] (JArr []));
    reflexivity.
Defined.

(** ** Runs one after the other *)

Lemma merged_id category all t : Trace.id (merged category all t) = Trace.id t.
Proof. unfold merged. by repeat case_match. Qed.

Lemma last_entry_app k all1 all2 :
  last_entry k (all1 ++ all2)
  = match last_entry k all2 with Some a => Some a | None => last_entry k all1 end.
Proof. unfold last_entry. by rewrite filter_app, last_app. Qed.

Lemma set_twice category s1 r1 s2 r2 t :
  Trace.set_analysis category r2
    (Trace.set_score category s2
       (Trace.set_analysis category r1 (Trace.set_score category s1 t)))
  = Trace.set_analysis category r2 (Trace.set_score category s2 t).
Proof.
  unfold Trace.set_analysis, Trace.set_score. cbn. by rewrite !insert_insert_eq.
Qed.

(** Two merges under one category are the merge of the two result lists,
    the second after the first. *)
Lemma merged_app category all1 all2 t :
  Forall well_formed all1 -> Forall well_formed all2 ->
  merged category all2 (merged category all1 t) = merged category (all1 ++ all2) t.
Proof.
  intros H1 H2. unfold merged at 1 3. rewrite merged_id, last_entry_app.
  destruct (last_entry _ all2) as [a2|] eqn:E2; [|done].
  apply last_entry_elem in E2 as [Hin2 _]. rewrite Forall_forall in H2.
  destruct (H2 a2 Hin2) as (k2 & s2 & r2 & _ & _ & Hs2 & Hr2). rewrite Hs2, Hr2.
  unfold merged. destruct (last_entry _ all1) as [a1|] eqn:E1; [|done].
  apply last_entry_elem in E1 as [Hin1 _]. rewrite Forall_forall in H1.
  destruct (H1 a1 Hin1) as (k1 & s1 & r1 & _ & _ & Hs1 & Hr1). rewrite Hs1, Hr1.
  apply set_twice.
Qed.

Lemma merged_twice category all t :
  Forall well_formed all -> merged category (all ++ all) t = merged category all t.
Proof.
  intros H. unfold merged. rewrite last_entry_app. by destruct (last_entry _ all).
Qed.

(** Property X22.  Two successful runs for one category, one after the
    other, leave the traces as one merge of the results of the first
    followed by those of the second: what the second run covers is
    replaced, what it does not cover stays from the first.  A second run
    that collects the same results leaves the state as the first left
    it. *)
Theorem X22_second_run_merges_over_first py_str gemini (data : json) (st : app)
    (w w1 w2 : list request) (c : pystr) (all1 all2 : list json) :
  get data (py "category") JNull = Ok (JStr c) -> is_category c = true ->
  collect_analyses py_str gemini c (batches (traces_data st)) [] w = (Ok all1, w1) ->
  Forall well_formed all1 ->
  let st1 := (analyze_traces py_str gemini data st w).1.2 in
  collect_analyses py_str gemini c (batches (traces_data st1)) [] w1 = (Ok all2, w2) ->
  Forall well_formed all2 ->
  analyze_traces py_str gemini data st1 w1
  = (Analyzed (length all2) c,
     App (merged c (all1 ++ all2) <$> traces_data st)
         (<[c := true]> (analysis_cache st)) (translation_cache st),
     w2)
  /\ (all2 = all1 -> (analyze_traces py_str gemini data st1 w1).1.2 = st1).
Proof.
  intros Hd Hc Hcol1 Hwf1 st1 Hcol2 Hwf2.
  assert (Hst1 : st1 = App (merged c all1 <$> traces_data st)
                           (<[c := true]> (analysis_cache st)) (translation_cache st)).
  { unfold st1. rewrite (analyze_traces_run _ _ _ _ _ _ Hd Hc), Hcol1.
    by destruct (merge_spec c all1 (traces_data st) Hwf1) as (m & -> & _ & ->). }
  assert (Hrun : analyze_traces py_str gemini data st1 w1
                 = (Analyzed (length all2) c,
                    App (merged c (all1 ++ all2) <$> traces_data st)
                        (<[c := true]> (analysis_cache st)) (translation_cache st), w2)).
  { rewrite (analyze_traces_run _ _ _ _ _ _ Hd Hc), Hcol2.
    destruct (merge_spec c all2 (traces_data st1) Hwf2) as (m & -> & _ & ->).
    rewrite Hst1. cbn [traces_data analysis_cache translation_cache].
    rewrite flags_insert_insert, <- list_fmap_compose. do 2 f_equal. f_equal.
    apply list_fmap_ext. intros i t _. cbn. by apply merged_app. }
  split; [exact Hrun|]. intros ->. rewrite Hrun, Hst1. cbn [fst snd]. f_equal.
  apply list_fmap_ext. intros i t _. by apply merged_twice.
Qed.

(** What the loop body makes of one trace, and the exception it raises, if
    it does. *)
Definition merge_one (category : pystr) (analysis_map : pydict) (t : trace)
  : trace * option exn :=
  match dict_get (json_of_text (Trace.id t)) analysis_map with
  | None => (t, None)
  | Some analysis =>
      match getitem analysis (py "score") with
      | Raise e => (t, Some e)
      | Ok score =>
          let t1 := Trace.set_score category score t in
          match getitem analysis (py "reason") with
          | Raise e => (t1, Some e)
          | Ok reason => (Trace.set_analysis category reason t1, None)
          end
      end
  end.

Lemma merge_loop_cons category m t rest :
  merge_loop category m (t :: rest)
  = match merge_one category m t with
    | (t', None) => (t' :: (merge_loop category m rest).1, (merge_loop category m rest).2)
    | (t', Some e) => (t' :: rest, Some e)
    end.
Proof.
  cbn [merge_loop]. unfold merge_one.
  destruct (dict_get _ m) as [a|].
  - destruct (getitem a (py "score")); [|done].
    destruct (getitem a (py "reason")); [|done].
    by destruct (merge_loop category m rest).
  - by destruct (merge_loop category m rest).
Qed.

Lemma merge_one_id category m t : Trace.id (merge_one category m t).1 = Trace.id t.
Proof. unfold merge_one. by repeat case_match. Qed.

(** Whether the loop body raises on a trace depends on the id of the trace
    alone. *)
Lemma merge_one_raises category m t u :
  Trace.id u = Trace.id t -> (merge_one category m u).2 = (merge_one category m t).2.
Proof. unfold merge_one. intros ->. by repeat case_match. Qed.

Lemma merge_one_comm c1 c2 m1 m2 t :
  c1 <> c2 ->
  (merge_one c2 m2 (merge_one c1 m1 t).1).1 = (merge_one c1 m1 (merge_one c2 m2 t).1).1.
Proof.
  intros Hne. unfold merge_one at 1 3. rewrite !merge_one_id. unfold merge_one.
  destruct (dict_get _ m2) as [a2|]; destruct (dict_get _ m1) as [a1|]; try done.
  destruct (getitem a2 (py "score")) as [s2|]; try done;
    destruct (getitem a2 (py "reason")) as [r2|]; try done;
    destruct (getitem a1 (py "score")) as [s1|]; try done;
    destruct (getitem a1 (py "reason")) as [r1|]; try done;
    unfold Trace.set_analysis, Trace.set_score; cbn;
    f_equal; by apply insert_insert_ne.
Qed.

Lemma merge_loop_ids category m traces :
  Trace.id <$> (merge_loop category m traces).1 = Trace.id <$> traces.
Proof.
  induction traces as [|t rest IH]; [done|].
  rewrite merge_loop_cons. pose proof (merge_one_id category m t) as Hid.
  destruct (merge_one category m t) as [t' [e|]]; cbn in *; by rewrite ?IH, Hid.
Qed.

(** Where the loop stops depends on the ids of the traces alone. *)
Lemma merge_loop_raises category m traces traces' :
  Trace.id <$> traces' = Trace.id <$> traces ->
  (merge_loop category m traces').2 = (merge_loop category m traces).2.
Proof.
  revert traces'. induction traces as [|t rest IH]; intros [|u rest'] H; try done.
  injection H as Hu Hrest. rewrite !merge_loop_cons.
  pose proof (merge_one_raises category m t u Hu) as Hr.
  destruct (merge_one category m u) as [u' [e|]], (merge_one category m t) as [t' [e'|]];
    cbn in Hr |- *; try done.
  by apply IH.
Qed.

Lemma merge_loop_comm c1 c2 m1 m2 traces :
  c1 <> c2 ->
  (merge_loop c2 m2 (merge_loop c1 m1 traces).1).1
  = (merge_loop c1 m1 (merge_loop c2 m2 traces).1).1.
Proof.
  intros Hne. induction traces as [|t rest IH]; [done|].
  rewrite (merge_loop_cons c1 m1 t rest), (merge_loop_cons c2 m2 t rest).
  pose proof (merge_one_comm c1 c2 m1 m2 t Hne) as Hc.
  pose proof (merge_one_raises c2 m2 t (merge_one c1 m1 t).1 (merge_one_id _ _ _)) as H2.
  pose proof (merge_one_raises c1 m1 t (merge_one c2 m2 t).1 (merge_one_id _ _ _)) as H1.
  destruct (merge_one c1 m1 t) as [t1 [e1|]] eqn:E1,
           (merge_one c2 m2 t) as [t2 [e2|]] eqn:E2;
    cbn [fst snd] in *; rewrite !merge_loop_cons;
    destruct (merge_one c2 m2 t1) as [t12 o12], (merge_one c1 m1 t2) as [t21 o21];
    cbn [fst snd] in *; subst; cbn [fst snd]; by rewrite ?IH.
Qed.

(** Property X23.  The merges of the results of two different categories
    can be made in either order: the traces end up the same, also when a
    merge stops on an entry without score or reason, and whether and where a
    merge stops does not depend on the other merge. *)
Theorem X23_categories_merge_in_either_order (c1 c2 : pystr) (m1 m2 : pydict)
    (traces : list trace) :
  c1 <> c2 ->
  (merge_loop c2 m2 (merge_loop c1 m1 traces).1).1
  = (merge_loop c1 m1 (merge_loop c2 m2 traces).1).1
  /\ (merge_loop c1 m1 (merge_loop c2 m2 traces).1).2 = (merge_loop c1 m1 traces).2
  /\ (merge_loop c2 m2 (merge_loop c1 m1 traces).1).2 = (merge_loop c2 m2 traces).2.
Proof.
  intros Hne. split; [by apply merge_loop_comm|].
  split; apply merge_loop_raises, merge_loop_ids.
Qed.

Lemma sample_entries_well_formed : Forall well_formed sample_results.
Proof. repeat constructor; eexists _, _, _; repeat split; reflexivity. Qed.

Lemma X22_witness :
  exists w1 w2,
    analyze_traces text_only sample_gemini sample_request
      (analyze_traces text_only sample_gemini sample_request sample_app []).1.2 w1
    = (Analyzed (length sample_results) (py "showcase"),
       App (merged (py "showcase") (sample_results ++ sample_results)
              <$> traces_data sample_app)
           (<[py "showcase" := true]> (analysis_cache sample_app))
           (translation_cache sample_app),
       w2).
Proof.
  destruct sample_collect as [w1 H1].
  assert (H2 : exists w2,
             collect_analyses text_only sample_gemini (py "showcase")
               (batches (traces_data
                  (analyze_traces text_only sample_gemini sample_request sample_app []).1.2))
               [] w1
             = (Ok sample_results, w2)).
  { eexists. vm_compute. reflexivity. }
  destruct H2 as [w2 H2]. exists w1, w2.
  apply (X22_second_run_merges_over_first text_only sample_gemini sample_request
           sample_app [] w1 w2 (py "showcase") sample_results sample_results
           eq_refl eq_refl H1 sample_entries_well_formed H2 sample_entries_well_formed).
Defined.

(** An entry for [a] that has no reason: the merge that meets it stops
    there. *)
Definition scored_only : json := JObj [(py "trace_id", JStr (py "a")); (py "score", JInt 7)].

Lemma X23_witness :
  (merge_loop (py "showcase") [(JStr (py "b"), result_entry (py "b") 30 (py "other"))]
     (merge_loop wri_connections [(JStr (py "a"), scored_only)] [trace_a; trace_b]).1).1
  = (merge_loop wri_connections [(JStr (py "a"), scored_only)]
       (merge_loop (py "showcase") [(JStr (py "b"), result_entry (py "b") 30 (py "other"))]
          [trace_a; trace_b]).1).1
  /\ (merge_loop wri_connections [(JStr (py "a"), scored_only)] [trace_a; trace_b]).2
     = Some KeyError
  /\ (Trace.scores
        <$> (merge_loop (py "showcase")
               [(JStr (py "b"), result_entry (py "b") 30 (py "other"))]
               (merge_loop wri_connections [(JStr (py "a"), scored_only)]
                  [trace_a; trace_b]).1).1)
     = [{[ wri_connections := JInt 7 ]}; {[ py "showcase" := JInt 30 ]}].
Proof.
  split; [|split; [reflexivity | by vm_compute]].
  apply (X23_categories_merge_in_either_order wri_connections (py "showcase")
           [(JStr (py "a"), scored_only)]
           [(JStr (py "b"), result_entry (py "b") 30 (py "other"))] [trace_a; trace_b]).
  discriminate.
Defined.

(** ** The decoder: enough fuel *)

Lemma length_skip_ws s : (length (skip_ws s) <= length s)%nat.
Proof. induction s as [|c s IH]; [done|]. cbn. destruct (is_json_ws c); cbn; lia. Qed.

Lemma length_span_digits s ds r : span_digits s = (ds, r) -> (length r <= length s)%nat.
Proof.
  revert ds r. induction s as [|c s IH]; intros ds r; cbn.
  - by intros [= <- <-].
  - destruct (digit_value c); [|by intros [= <- <-]].
    destruct (span_digits s) as [ds' r'] eqn:E. intros [= <- <-].
    specialize (IH _ _ eq_refl). cbn. lia.
Qed.

Lemma length_span_integer s ds r : span_integer s = Some (ds, r) -> (length r < length s)%nat.
Proof.
  destruct s as [|c s]; [done|]. cbn. destruct (digit_value c) as [[|p|p]|]; try done.
  - intros [= <- <-]. cbn. lia.
  - destruct (span_digits s) as [ds' r'] eqn:E. intros [= <- <-].
    apply length_span_digits in E. cbn. lia.
  - destruct (span_digits s) as [ds' r'] eqn:E. intros [= <- <-].
    apply length_span_digits in E. cbn. lia.
Qed.

Lemma length_span_frac s ds r : span_frac s = (ds, r) -> (length r <= length s)%nat.
Proof.
  destruct s as [|c s]; cbn; [by intros [= <- <-]|].
  destruct (is_char "." c); [|by intros [= <- <-]].
  destruct (span_digits s) as [[|d ds'] r'] eqn:E; intros [= <- <-]; [done|].
  apply length_span_digits in E. cbn. lia.
Qed.

Lemma length_span_exp s ex r : span_exp s = (ex, r) -> (length r <= length s)%nat.
Proof.
  destruct s as [|c s]; cbn [span_exp]; [by intros [= <- <-]|].
  destruct (is_char "e" c || is_char "E" c); [|by intros [= <- <-]].
  set (p := match s with
            | sg :: t => if is_char "-" sg then (true, t)
                         else if is_char "+" sg then (false, t) else (false, s)
            | [] => (false, s)
            end).
  assert (Hp : (length p.2 <= length s)%nat).
  { unfold p. destruct s as [|sg t]; [done|].
    destruct (is_char "-" sg); [cbn; lia|]. destruct (is_char "+" sg); cbn; lia. }
  destruct p as [neg s'']. cbn [snd] in Hp.
  destruct (span_digits s'') as [[|d ds'] r'] eqn:E; intros [= <- <-]; [done|].
  apply length_span_digits in E. cbn. lia.
Qed.

Lemma length_match_number s v r :
  match_number s = Some (Ok (v, r)) -> (length r < length s)%nat.
Proof.
  unfold match_number.
  set (p := match s with
            | c :: s' => if is_char "-" c then (true, s') else (false, s)
            | [] => (false, s)
            end).
  assert (Hp : (length p.2 <= length s)%nat).
  { unfold p. destruct s as [|c s']; [done|]. destruct (is_char "-" c); cbn; lia. }
  destruct p as [neg s1]. cbn [snd] in Hp.
  destruct (span_integer s1) as [[ids s2]|] eqn:E1; [|done].
  apply length_span_integer in E1.
  destruct (span_frac s2) as [fds s3] eqn:E2. apply length_span_frac in E2.
  destruct (span_exp s3) as [ex s4] eqn:E3. apply length_span_exp in E3.
  destruct fds, ex; try (intros [= <- <-]; lia).
  destruct (_ <? _)%nat; [done|]. intros [= <- <-]. lia.
Qed.

Lemma length_scan_units s us r : scan_units s = Some (us, r) -> (length r < length s)%nat.
Proof.
  remember (length s) as n eqn:Hn. revert s us r Hn.
  induction n as [n IH] using lt_wf_ind. intros s us r -> H.
  destruct s as [|c s']; [done|]. cbn [scan_units] in H.
  destruct (is_quote c); [injection H as <- <-; cbn; lia|].
  destruct (is_char "\" c).
  - destruct s' as [|e s'']; [done|]. destruct (is_char "u" e).
    + destruct s'' as [|a [|b [|c' [|d s3]]]]; try done.
      cbn [mbind option_bind] in H. destruct (hex4 a b c' d); [|done].
      cbn [mbind option_bind] in H.
      destruct (scan_units s3) as [[us' r']|] eqn:E; [|done]. cbn in H.
      injection H as <- <-. eapply IH in E; [| |reflexivity]; cbn; lia.
    + cbn [mbind option_bind] in H. destruct (simple_escape e); [|done].
      cbn [mbind option_bind] in H.
      destruct (scan_units s'') as [[us' r']|] eqn:E; [|done]. cbn in H.
      injection H as <- <-. eapply IH in E; [| |reflexivity]; cbn; lia.
  - destruct (c <? 32)%N; [done|]. cbn [mbind option_bind] in H.
    destruct (scan_units s') as [[us' r']|] eqn:E; [|done]. cbn in H.
    injection H as <- <-. eapply IH in E; [| |reflexivity]; cbn; lia.
Qed.

Lemma length_scanstring s t r : scanstring s = Some (t, r) -> (length r < length s)%nat.
Proof.
  unfold scanstring. destruct (scan_units s) as [[us r']|] eqn:E; [|done].
  cbn. intros [= <- <-]. by eapply length_scan_units.
Qed.

Ltac length_facts IH1 IH2 IH3 :=
  repeat match goal with
  | H : scanstring _ = Some _ |- _ => apply length_scanstring in H
  | H : match_number _ = Some (Ok _) |- _ => apply length_match_number in H
  | H : scan_once _ _ = Ok _ |- _ => apply IH1 in H
  | H : parse_array _ _ _ = Ok _ |- _ => apply IH2 in H
  | H : parse_object _ _ _ = Ok _ |- _ => apply IH3 in H
  | H : skip_ws ?x = _ :: _ |- _ =>
      let L := fresh "L" in pose proof (length_skip_ws x) as L; rewrite H in L; clear H
  | H : context [length (skip_ws ?x)] |- _ =>
      lazymatch goal with
      | _ : (length (skip_ws x) <= length x)%nat |- _ => fail
      | _ => pose proof (length_skip_ws x)
      end
  end.

Lemma scan_consumes f :
  (forall s v r, scan_once f s = Ok (v, r) -> (length r < length s)%nat)
  /\ (forall acc s v r, parse_array f acc s = Ok (v, r) -> (length r < length s)%nat)
  /\ (forall acc s v r, parse_object f acc s = Ok (v, r) -> (length r < length s)%nat).
Proof.
  induction f as [|f (IH1 & IH2 & IH3)]; [repeat split; intros; discriminate|].
  repeat split.
  - intros s v r H. cbn [scan_once] in H. unfold decode_error in H.
    repeat (case_match; simplify_eq); length_facts IH1 IH2 IH3;
      cbn [length] in *; rewrite ?length_drop; lia.
  - intros acc s v r H. cbn [parse_array] in H. unfold decode_error in H.
    destruct (scan_once f s) as [[v' r']|] eqn:E; cbn [mbind res_bind] in H; [|done].
    repeat (case_match; simplify_eq); length_facts IH1 IH2 IH3;
      cbn [length] in *; rewrite ?length_drop; lia.
  - intros acc s v r H. cbn [parse_object] in H. unfold decode_error in H.
    repeat (case_match; simplify_eq).
    destruct (scan_once f _) as [[v' r']|] eqn:E; cbn [mbind res_bind] in H; [|done].
    repeat (case_match; simplify_eq); length_facts IH1 IH2 IH3;
      cbn [length] in *; rewrite ?length_drop; lia.
Qed.

Ltac skip_facts :=
  repeat match goal with
  | H : skip_ws ?x = _ :: _ |- _ =>
      let L := fresh "L" in pose proof (length_skip_ws x) as L; rewrite H in L; clear H
  | H : scanstring _ = Some _ |- _ => apply length_scanstring in H
  | |- context [length (skip_ws ?x)] =>
      lazymatch goal with
      | _ : (length (skip_ws x) <= length x)%nat |- _ => fail
      | _ => pose proof (length_skip_ws x)
      end
  end.

(** With more fuel than twice the length of the text the scanner does not
    run out of fuel: one more unit changes nothing. *)
Lemma fuel_enough f :
  (forall s, (2 * length s < f)%nat -> scan_once (S f) s = scan_once f s)
  /\ (forall acc s, (2 * length s + 1 < f)%nat ->
        parse_array (S f) acc s = parse_array f acc s)
  /\ (forall acc s, (2 * length s + 1 < f)%nat ->
        parse_object (S f) acc s = parse_object f acc s).
Proof.
  induction f as [|f (IH1 & IH2 & IH3)]; [repeat split; intros; lia|].
  destruct (scan_consumes f) as (C1 & _ & _).
  repeat split.
  - intros s Hs. remember (S f) as g eqn:Hg. cbn [scan_once].
    set (po := parse_object g). set (pa := parse_array g).
    rewrite Hg. cbn [scan_once]. destruct s as [|c s']; [done|].
    cbn [length] in Hs.
    repeat case_match; try done; subst po pa g.
    + apply IH3. skip_facts. cbn [length] in *. lia.
    + apply IH2. skip_facts. cbn [length] in *. lia.
  - intros acc s Hs. remember (S f) as g eqn:Hg. cbn [parse_array].
    set (sc := scan_once g). set (pa := parse_array g) at 1.
    rewrite Hg. cbn [parse_array]. subst sc. rewrite IH1 by lia.
    destruct (scan_once f s) as [[v r]|] eqn:E; cbn [mbind res_bind]; [|done].
    apply C1 in E.
    repeat case_match; try done; subst pa g.
    apply IH2. skip_facts. cbn [length] in *. lia.
  - intros acc s Hs. remember (S f) as g eqn:Hg. cbn [parse_object].
    set (sc := scan_once g). set (po := parse_object g) at 1.
    rewrite Hg. cbn [parse_object]. destruct s as [|c s']; [done|].
    cbn [length] in Hs.
    destruct (is_quote c); [|done].
    destruct (scanstring s') as [[k r]|] eqn:Ek; [|done].
    destruct (skip_ws r) as [|c2 r2] eqn:Er; [done|].
    destruct (is_char ":" c2); [|done].
    subst sc. skip_facts. pose proof (length_skip_ws r2). cbn [length] in *.
    rewrite IH1 by lia.
    destruct (scan_once f (skip_ws r2)) as [[v r3]|] eqn:E; cbn [mbind res_bind]; [|done].
    apply C1 in E.
    repeat case_match; try done; subst po g.
    apply IH3. skip_facts. cbn [length] in *. lia.
Qed.

Lemma fuel_more f g s :
  (2 * length s < f)%nat -> (f <= g)%nat -> scan_once g s = scan_once f s.
Proof.
  intros Hs. induction 1 as [|g Hle IH]; [done|].
  rewrite <- IH. apply fuel_enough. lia.
Qed.

(** The result of [json_loads] is the result of the scanner with any fuel
    beyond twice the length of the text: the fuel that [json_loads] gives
    never runs out. *)
Lemma json_loads_fuel s g :
  (2 * length s < g)%nat ->
  json_loads s
  = '(v, r) ← scan_once g (skip_ws s);
    match skip_ws r with [] => Ok v | _ => decode_error end.
Proof.
  intros Hg. unfold json_loads.
  pose proof (length_skip_ws s) as Hl.
  rewrite (fuel_more (S (2 * length s)) g (skip_ws s)) by lia. done.
Qed.
